(** * clinicaldan: the Archimed data-access layer and the photo scrapers

    A shallow embedding of
      - [src/services/archimed.ts]: the doctor merge engine, the storage
        slot, the fallback chain of [getDoctors], the paginated fetch, the
        blacklist, the service/doctor linking, the mapping of the
        ProDoctorov snapshot, the request wrapper, the services cache and
        the appointments query;
      - the earlier copy of the same service kept in the repository, whose
        [mergeDoctors] keys records differently;
      - the filename-parsing scraper that enriches [prodoctorov.json];
      - the HTML scraper that takes photo addresses from a saved page.

    JavaScript strings are lists of UTF-16 code units.  Promises are run
    to completion; where a statement depends on what another call can
    observe while one call is suspended at an [await], the call is split
    at that [await]. *)

From Stdlib Require Import ZArith NArith List String Ascii Bool Lia.
From Stdlib Require DecimalPos DecimalFacts.
From stdpp Require Import base option strings gmap list.

Open Scope Z_scope.

(* ===================================================================== *)
(** ** Case mappings of the Unicode Character Database *)
(* ===================================================================== *)

(** The tables behind [String.prototype.toLowerCase] and behind the [i]
    flag of regular expressions, from version 14.0 of the Unicode
    Character Database.  A row [(lo, hi, step, to)] of a mapping sends
    the code points [lo], [lo + step], ..., [hi] to [to], [to + step],
    ...; a row [(lo, hi)] of a class holds the code points from [lo] to
    [hi]. *)
Module Unicode.

Definition mapping := list (N * N * N * N).
Definition class := list (N * N).

Definition inRow (c : N) (r : N * N * N * N) : bool :=
  let '(lo, hi, step, _) := r in
  ((lo <=? c) && (c <=? hi) && ((c - lo) mod step =? 0))%N.

Definition applyRow (c : N) (r : N * N * N * N) : N :=
  let '(lo, _, _, to) := r in (to + (c - lo))%N.

Definition mapWith (t : mapping) (c : N) : N :=
  match List.find (inRow c) t with
  | Some r => applyRow c r
  | None => c
  end.

Definition memberOf (t : class) (c : N) : bool :=
  existsb (fun r => (fst r <=? c) && (c <=? snd r))%N t.

(** No code point from [a] to [b] is in the class. *)
Definition apartFrom (cl : class) (a b : N) : bool :=
  forallb (fun r => (b <? fst r) || (snd r <? a))%N cl.

(** The mapping sends no code point of the class anywhere, and no code
    point into the class. *)
Definition leavesAlone (cl : class) (t : mapping) : bool :=
  forallb (fun r => let '(lo, hi, _, to) := r in
                    apartFrom cl lo hi && apartFrom cl to (to + (hi - lo))%N) t.

(** No row of the mapping holds a code point from [a] to [b]. *)
Definition skips (a b : N) (t : mapping) : bool :=
  forallb (fun r => let '(lo, hi, _, _) := r in (hi <? a) || (b <? lo))%N t.

(** The code points from [a] to [b] are one row of the mapping, which
    sends them to [to] and the code points after it, and no other row
    holds any of them. *)
Definition shifts (a b to : N) (t : mapping) : bool :=
  existsb (fun r => let '(lo, hi, step, to') := r in
                    (lo =? a) && (hi =? b) && (step =? 1) && (to' =? to))%N t
  && forallb (fun r => let '(lo, hi, step, to') := r in
                       (lo =? a) && (hi =? b) && (step =? 1) && (to' =? to)
                       || (hi <? a) || (b <? lo))%N t.

(** The mapping sends the code points below [a] below [b]. *)
Definition staysBelow (a b : N) (t : mapping) : bool :=
  forallb (fun r => let '(lo, hi, _, to) := r in
                    (a <=? lo) || (to + (hi - lo) <? b))%N t.

(** Simple lowercase mappings of [UnicodeData.txt], all code points but
    U+0130 and U+03A3, which [SpecialCasing.txt] treats. *)
Definition simpleLowercase : mapping := [
  (65, 90, 1, 97); (192, 214, 1, 224); (216, 222, 1, 248);
  (256, 302, 2, 257); (306, 310, 2, 307); (313, 327, 2, 314);
  (330, 374, 2, 331); (376, 376, 1, 255); (377, 381, 2, 378);
  (385, 385, 1, 595); (386, 388, 2, 387); (390, 390, 1, 596);
  (391, 391, 1, 392); (393, 394, 1, 598); (395, 395, 1, 396);
  (398, 398, 1, 477); (399, 399, 1, 601); (400, 400, 1, 603);
  (401, 401, 1, 402); (403, 403, 1, 608); (404, 404, 1, 611);
  (406, 406, 1, 617); (407, 407, 1, 616); (408, 408, 1, 409);
  (412, 412, 1, 623); (413, 413, 1, 626); (415, 415, 1, 629);
  (416, 420, 2, 417); (422, 422, 1, 640); (423, 423, 1, 424);
  (425, 425, 1, 643); (428, 428, 1, 429); (430, 430, 1, 648);
  (431, 431, 1, 432); (433, 434, 1, 650); (435, 437, 2, 436);
  (439, 439, 1, 658); (440, 440, 1, 441); (444, 444, 1, 445);
  (452, 452, 1, 454); (453, 453, 1, 454); (455, 455, 1, 457);
  (456, 456, 1, 457); (458, 458, 1, 460); (459, 475, 2, 460);
  (478, 494, 2, 479); (497, 497, 1, 499); (498, 500, 2, 499);
  (502, 502, 1, 405); (503, 503, 1, 447); (504, 542, 2, 505);
  (544, 544, 1, 414); (546, 562, 2, 547); (570, 570, 1, 11365);
  (571, 571, 1, 572); (573, 573, 1, 410); (574, 574, 1, 11366);
  (577, 577, 1, 578); (579, 579, 1, 384); (580, 580, 1, 649);
  (581, 581, 1, 652); (582, 590, 2, 583); (880, 882, 2, 881);
  (886, 886, 1, 887); (895, 895, 1, 1011); (902, 902, 1, 940);
  (904, 906, 1, 941); (908, 908, 1, 972); (910, 911, 1, 973);
  (913, 929, 1, 945); (932, 939, 1, 964); (975, 975, 1, 983);
  (984, 1006, 2, 985); (1012, 1012, 1, 952); (1015, 1015, 1, 1016);
  (1017, 1017, 1, 1010); (1018, 1018, 1, 1019); (1021, 1023, 1, 891);
  (1024, 1039, 1, 1104); (1040, 1071, 1, 1072); (1120, 1152, 2, 1121);
  (1162, 1214, 2, 1163); (1216, 1216, 1, 1231); (1217, 1229, 2, 1218);
  (1232, 1326, 2, 1233); (1329, 1366, 1, 1377); (4256, 4293, 1, 11520);
  (4295, 4295, 1, 11559); (4301, 4301, 1, 11565); (5024, 5103, 1, 43888);
  (5104, 5109, 1, 5112); (7312, 7354, 1, 4304); (7357, 7359, 1, 4349);
  (7680, 7828, 2, 7681); (7838, 7838, 1, 223); (7840, 7934, 2, 7841);
  (7944, 7951, 1, 7936); (7960, 7965, 1, 7952); (7976, 7983, 1, 7968);
  (7992, 7999, 1, 7984); (8008, 8013, 1, 8000); (8025, 8031, 2, 8017);
  (8040, 8047, 1, 8032); (8072, 8079, 1, 8064); (8088, 8095, 1, 8080);
  (8104, 8111, 1, 8096); (8120, 8121, 1, 8112); (8122, 8123, 1, 8048);
  (8124, 8124, 1, 8115); (8136, 8139, 1, 8050); (8140, 8140, 1, 8131);
  (8152, 8153, 1, 8144); (8154, 8155, 1, 8054); (8168, 8169, 1, 8160);
  (8170, 8171, 1, 8058); (8172, 8172, 1, 8165); (8184, 8185, 1, 8056);
  (8186, 8187, 1, 8060); (8188, 8188, 1, 8179); (8486, 8486, 1, 969);
  (8490, 8490, 1, 107); (8491, 8491, 1, 229); (8498, 8498, 1, 8526);
  (8544, 8559, 1, 8560); (8579, 8579, 1, 8580); (9398, 9423, 1, 9424);
  (11264, 11311, 1, 11312); (11360, 11360, 1, 11361); (11362, 11362, 1, 619);
  (11363, 11363, 1, 7549); (11364, 11364, 1, 637); (11367, 11371, 2, 11368);
  (11373, 11373, 1, 593); (11374, 11374, 1, 625); (11375, 11375, 1, 592);
  (11376, 11376, 1, 594); (11378, 11378, 1, 11379); (11381, 11381, 1, 11382);
  (11390, 11391, 1, 575); (11392, 11490, 2, 11393); (11499, 11501, 2, 11500);
  (11506, 11506, 1, 11507); (42560, 42604, 2, 42561);
  (42624, 42650, 2, 42625); (42786, 42798, 2, 42787);
  (42802, 42862, 2, 42803); (42873, 42875, 2, 42874);
  (42877, 42877, 1, 7545); (42878, 42886, 2, 42879);
  (42891, 42891, 1, 42892); (42893, 42893, 1, 613); (42896, 42898, 2, 42897);
  (42902, 42920, 2, 42903); (42922, 42922, 1, 614); (42923, 42923, 1, 604);
  (42924, 42924, 1, 609); (42925, 42925, 1, 620); (42926, 42926, 1, 618);
  (42928, 42928, 1, 670); (42929, 42929, 1, 647); (42930, 42930, 1, 669);
  (42931, 42931, 1, 43859); (42932, 42946, 2, 42933);
  (42948, 42948, 1, 42900); (42949, 42949, 1, 642); (42950, 42950, 1, 7566);
  (42951, 42953, 2, 42952); (42960, 42960, 1, 42961);
  (42966, 42968, 2, 42967); (42997, 42997, 1, 42998);
  (65313, 65338, 1, 65345); (66560, 66599, 1, 66600);
  (66736, 66771, 1, 66776); (66928, 66938, 1, 66967);
  (66940, 66954, 1, 66979); (66956, 66962, 1, 66995);
  (66964, 66965, 1, 67003); (68736, 68786, 1, 68800);
  (71840, 71871, 1, 71872); (93760, 93791, 1, 93792);
  (125184, 125217, 1, 125218)
]%N.

(** The uppercase mappings that the canonicalization of a regular
    expression with the [i] flag (and without [u]) applies to one code
    unit: the code unit has an uppercase form of one code unit, other
    than itself, and the mapping does not lead from outside Basic Latin
    into it. *)
Definition regexpUppercase : mapping := [
  (97, 122, 1, 65); (181, 181, 1, 924); (224, 246, 1, 192);
  (248, 254, 1, 216); (255, 255, 1, 376); (257, 303, 2, 256);
  (307, 311, 2, 306); (314, 328, 2, 313); (331, 375, 2, 330);
  (378, 382, 2, 377); (384, 384, 1, 579); (387, 389, 2, 386);
  (392, 392, 1, 391); (396, 396, 1, 395); (402, 402, 1, 401);
  (405, 405, 1, 502); (409, 409, 1, 408); (410, 410, 1, 573);
  (414, 414, 1, 544); (417, 421, 2, 416); (424, 424, 1, 423);
  (429, 429, 1, 428); (432, 432, 1, 431); (436, 438, 2, 435);
  (441, 441, 1, 440); (445, 445, 1, 444); (447, 447, 1, 503);
  (453, 453, 1, 452); (454, 454, 1, 452); (456, 456, 1, 455);
  (457, 457, 1, 455); (459, 459, 1, 458); (460, 460, 1, 458);
  (462, 476, 2, 461); (477, 477, 1, 398); (479, 495, 2, 478);
  (498, 498, 1, 497); (499, 499, 1, 497); (501, 501, 1, 500);
  (505, 543, 2, 504); (547, 563, 2, 546); (572, 572, 1, 571);
  (575, 576, 1, 11390); (578, 578, 1, 577); (583, 591, 2, 582);
  (592, 592, 1, 11375); (593, 593, 1, 11373); (594, 594, 1, 11376);
  (595, 595, 1, 385); (596, 596, 1, 390); (598, 599, 1, 393);
  (601, 601, 1, 399); (603, 603, 1, 400); (604, 604, 1, 42923);
  (608, 608, 1, 403); (609, 609, 1, 42924); (611, 611, 1, 404);
  (613, 613, 1, 42893); (614, 614, 1, 42922); (616, 616, 1, 407);
  (617, 617, 1, 406); (618, 618, 1, 42926); (619, 619, 1, 11362);
  (620, 620, 1, 42925); (623, 623, 1, 412); (625, 625, 1, 11374);
  (626, 626, 1, 413); (629, 629, 1, 415); (637, 637, 1, 11364);
  (640, 640, 1, 422); (642, 642, 1, 42949); (643, 643, 1, 425);
  (647, 647, 1, 42929); (648, 648, 1, 430); (649, 649, 1, 580);
  (650, 651, 1, 433); (652, 652, 1, 581); (658, 658, 1, 439);
  (669, 669, 1, 42930); (670, 670, 1, 42928); (837, 837, 1, 921);
  (881, 883, 2, 880); (887, 887, 1, 886); (891, 893, 1, 1021);
  (940, 940, 1, 902); (941, 943, 1, 904); (945, 961, 1, 913);
  (962, 962, 1, 931); (963, 971, 1, 931); (972, 972, 1, 908);
  (973, 974, 1, 910); (976, 976, 1, 914); (977, 977, 1, 920);
  (981, 981, 1, 934); (982, 982, 1, 928); (983, 983, 1, 975);
  (985, 1007, 2, 984); (1008, 1008, 1, 922); (1009, 1009, 1, 929);
  (1010, 1010, 1, 1017); (1011, 1011, 1, 895); (1013, 1013, 1, 917);
  (1016, 1016, 1, 1015); (1019, 1019, 1, 1018); (1072, 1103, 1, 1040);
  (1104, 1119, 1, 1024); (1121, 1153, 2, 1120); (1163, 1215, 2, 1162);
  (1218, 1230, 2, 1217); (1231, 1231, 1, 1216); (1233, 1327, 2, 1232);
  (1377, 1414, 1, 1329); (4304, 4346, 1, 7312); (4349, 4351, 1, 7357);
  (5112, 5117, 1, 5104); (7296, 7296, 1, 1042); (7297, 7297, 1, 1044);
  (7298, 7298, 1, 1054); (7299, 7300, 1, 1057); (7301, 7301, 1, 1058);
  (7302, 7302, 1, 1066); (7303, 7303, 1, 1122); (7304, 7304, 1, 42570);
  (7545, 7545, 1, 42877); (7549, 7549, 1, 11363); (7566, 7566, 1, 42950);
  (7681, 7829, 2, 7680); (7835, 7835, 1, 7776); (7841, 7935, 2, 7840);
  (7936, 7943, 1, 7944); (7952, 7957, 1, 7960); (7968, 7975, 1, 7976);
  (7984, 7991, 1, 7992); (8000, 8005, 1, 8008); (8017, 8023, 2, 8025);
  (8032, 8039, 1, 8040); (8048, 8049, 1, 8122); (8050, 8053, 1, 8136);
  (8054, 8055, 1, 8154); (8056, 8057, 1, 8184); (8058, 8059, 1, 8170);
  (8060, 8061, 1, 8186); (8112, 8113, 1, 8120); (8126, 8126, 1, 921);
  (8144, 8145, 1, 8152); (8160, 8161, 1, 8168); (8165, 8165, 1, 8172);
  (8526, 8526, 1, 8498); (8560, 8575, 1, 8544); (8580, 8580, 1, 8579);
  (9424, 9449, 1, 9398); (11312, 11359, 1, 11264); (11361, 11361, 1, 11360);
  (11365, 11365, 1, 570); (11366, 11366, 1, 574); (11368, 11372, 2, 11367);
  (11379, 11379, 1, 11378); (11382, 11382, 1, 11381);
  (11393, 11491, 2, 11392); (11500, 11502, 2, 11499);
  (11507, 11507, 1, 11506); (11520, 11557, 1, 4256); (11559, 11559, 1, 4295);
  (11565, 11565, 1, 4301); (42561, 42605, 2, 42560);
  (42625, 42651, 2, 42624); (42787, 42799, 2, 42786);
  (42803, 42863, 2, 42802); (42874, 42876, 2, 42873);
  (42879, 42887, 2, 42878); (42892, 42892, 1, 42891);
  (42897, 42899, 2, 42896); (42900, 42900, 1, 42948);
  (42903, 42921, 2, 42902); (42933, 42947, 2, 42932);
  (42952, 42954, 2, 42951); (42961, 42961, 1, 42960);
  (42967, 42969, 2, 42966); (42998, 42998, 1, 42997);
  (43859, 43859, 1, 42931); (43888, 43967, 1, 5024); (65345, 65370, 1, 65313)
]%N.

(** Code points that are cased and not case-ignorable. *)
Definition cased : class := [
  (65, 90); (97, 122); (170, 170); (181, 181); (186, 186); (192, 214);
  (216, 246); (248, 442); (444, 447); (452, 659); (661, 687); (880, 883);
  (886, 887); (891, 893); (895, 895); (902, 902); (904, 906); (908, 908);
  (910, 929); (931, 1013); (1015, 1153); (1162, 1327); (1329, 1366);
  (1376, 1416); (4256, 4293); (4295, 4295); (4301, 4301); (4304, 4346);
  (4349, 4351); (5024, 5109); (5112, 5117); (7296, 7304); (7312, 7354);
  (7357, 7359); (7424, 7467); (7531, 7543); (7545, 7578); (7680, 7957);
  (7960, 7965); (7968, 8005); (8008, 8013); (8016, 8023); (8025, 8025);
  (8027, 8027); (8029, 8029); (8031, 8061); (8064, 8116); (8118, 8124);
  (8126, 8126); (8130, 8132); (8134, 8140); (8144, 8147); (8150, 8155);
  (8160, 8172); (8178, 8180); (8182, 8188); (8450, 8450); (8455, 8455);
  (8458, 8467); (8469, 8469); (8473, 8477); (8484, 8484); (8486, 8486);
  (8488, 8488); (8490, 8493); (8495, 8500); (8505, 8505); (8508, 8511);
  (8517, 8521); (8526, 8526); (8544, 8575); (8579, 8580); (9398, 9449);
  (11264, 11387); (11390, 11492); (11499, 11502); (11506, 11507);
  (11520, 11557); (11559, 11559); (11565, 11565); (42560, 42605);
  (42624, 42651); (42786, 42863); (42865, 42887); (42891, 42894);
  (42896, 42954); (42960, 42961); (42963, 42963); (42965, 42969);
  (42997, 42998); (43002, 43002); (43824, 43866); (43872, 43880);
  (43888, 43967); (64256, 64262); (64275, 64279); (65313, 65338);
  (65345, 65370); (66560, 66639); (66736, 66771); (66776, 66811);
  (66928, 66938); (66940, 66954); (66956, 66962); (66964, 66965);
  (66967, 66977); (66979, 66993); (66995, 67001); (67003, 67004);
  (68736, 68786); (68800, 68850); (71840, 71903); (93760, 93823);
  (119808, 119892); (119894, 119964); (119966, 119967); (119970, 119970);
  (119973, 119974); (119977, 119980); (119982, 119993); (119995, 119995);
  (119997, 120003); (120005, 120069); (120071, 120074); (120077, 120084);
  (120086, 120092); (120094, 120121); (120123, 120126); (120128, 120132);
  (120134, 120134); (120138, 120144); (120146, 120485); (120488, 120512);
  (120514, 120538); (120540, 120570); (120572, 120596); (120598, 120628);
  (120630, 120654); (120656, 120686); (120688, 120712); (120714, 120744);
  (120746, 120770); (120772, 120779); (122624, 122633); (122635, 122654);
  (125184, 125251); (127280, 127305); (127312, 127337); (127344, 127369)
]%N.

(** Case-ignorable code points. *)
Definition caseIgnorable : class := [
  (39, 39); (46, 46); (58, 58); (94, 94); (96, 96); (168, 168); (173, 173);
  (175, 175); (180, 180); (183, 184); (688, 879); (884, 885); (890, 890);
  (900, 901); (903, 903); (1155, 1161); (1369, 1369); (1375, 1375);
  (1425, 1469); (1471, 1471); (1473, 1474); (1476, 1477); (1479, 1479);
  (1524, 1524); (1536, 1541); (1552, 1562); (1564, 1564); (1600, 1600);
  (1611, 1631); (1648, 1648); (1750, 1757); (1759, 1768); (1770, 1773);
  (1807, 1807); (1809, 1809); (1840, 1866); (1958, 1968); (2027, 2037);
  (2042, 2042); (2045, 2045); (2070, 2093); (2137, 2139); (2184, 2184);
  (2192, 2193); (2200, 2207); (2249, 2306); (2362, 2362); (2364, 2364);
  (2369, 2376); (2381, 2381); (2385, 2391); (2402, 2403); (2417, 2417);
  (2433, 2433); (2492, 2492); (2497, 2500); (2509, 2509); (2530, 2531);
  (2558, 2558); (2561, 2562); (2620, 2620); (2625, 2626); (2631, 2632);
  (2635, 2637); (2641, 2641); (2672, 2673); (2677, 2677); (2689, 2690);
  (2748, 2748); (2753, 2757); (2759, 2760); (2765, 2765); (2786, 2787);
  (2810, 2815); (2817, 2817); (2876, 2876); (2879, 2879); (2881, 2884);
  (2893, 2893); (2901, 2902); (2914, 2915); (2946, 2946); (3008, 3008);
  (3021, 3021); (3072, 3072); (3076, 3076); (3132, 3132); (3134, 3136);
  (3142, 3144); (3146, 3149); (3157, 3158); (3170, 3171); (3201, 3201);
  (3260, 3260); (3263, 3263); (3270, 3270); (3276, 3277); (3298, 3299);
  (3328, 3329); (3387, 3388); (3393, 3396); (3405, 3405); (3426, 3427);
  (3457, 3457); (3530, 3530); (3538, 3540); (3542, 3542); (3633, 3633);
  (3636, 3642); (3654, 3662); (3761, 3761); (3764, 3772); (3782, 3782);
  (3784, 3789); (3864, 3865); (3893, 3893); (3895, 3895); (3897, 3897);
  (3953, 3966); (3968, 3972); (3974, 3975); (3981, 3991); (3993, 4028);
  (4038, 4038); (4141, 4144); (4146, 4151); (4153, 4154); (4157, 4158);
  (4184, 4185); (4190, 4192); (4209, 4212); (4226, 4226); (4229, 4230);
  (4237, 4237); (4253, 4253); (4348, 4348); (4957, 4959); (5906, 5908);
  (5938, 5939); (5970, 5971); (6002, 6003); (6068, 6069); (6071, 6077);
  (6086, 6086); (6089, 6099); (6103, 6103); (6109, 6109); (6155, 6159);
  (6211, 6211); (6277, 6278); (6313, 6313); (6432, 6434); (6439, 6440);
  (6450, 6450); (6457, 6459); (6679, 6680); (6683, 6683); (6742, 6742);
  (6744, 6750); (6752, 6752); (6754, 6754); (6757, 6764); (6771, 6780);
  (6783, 6783); (6823, 6823); (6832, 6862); (6912, 6915); (6964, 6964);
  (6966, 6970); (6972, 6972); (6978, 6978); (7019, 7027); (7040, 7041);
  (7074, 7077); (7080, 7081); (7083, 7085); (7142, 7142); (7144, 7145);
  (7149, 7149); (7151, 7153); (7212, 7219); (7222, 7223); (7288, 7293);
  (7376, 7378); (7380, 7392); (7394, 7400); (7405, 7405); (7412, 7412);
  (7416, 7417); (7468, 7530); (7544, 7544); (7579, 7679); (8125, 8125);
  (8127, 8129); (8141, 8143); (8157, 8159); (8173, 8175); (8189, 8190);
  (8203, 8207); (8216, 8217); (8228, 8228); (8231, 8231); (8234, 8238);
  (8288, 8292); (8294, 8303); (8305, 8305); (8319, 8319); (8336, 8348);
  (8400, 8432); (11388, 11389); (11503, 11505); (11631, 11631);
  (11647, 11647); (11744, 11775); (11823, 11823); (12293, 12293);
  (12330, 12333); (12337, 12341); (12347, 12347); (12441, 12446);
  (12540, 12542); (40981, 40981); (42232, 42237); (42508, 42508);
  (42607, 42610); (42612, 42621); (42623, 42623); (42652, 42655);
  (42736, 42737); (42752, 42785); (42864, 42864); (42888, 42890);
  (42994, 42996); (43000, 43001); (43010, 43010); (43014, 43014);
  (43019, 43019); (43045, 43046); (43052, 43052); (43204, 43205);
  (43232, 43249); (43263, 43263); (43302, 43309); (43335, 43345);
  (43392, 43394); (43443, 43443); (43446, 43449); (43452, 43453);
  (43471, 43471); (43493, 43494); (43561, 43566); (43569, 43570);
  (43573, 43574); (43587, 43587); (43596, 43596); (43632, 43632);
  (43644, 43644); (43696, 43696); (43698, 43700); (43703, 43704);
  (43710, 43711); (43713, 43713); (43741, 43741); (43756, 43757);
  (43763, 43764); (43766, 43766); (43867, 43871); (43881, 43883);
  (44005, 44005); (44008, 44008); (44013, 44013); (64286, 64286);
  (64434, 64450); (65024, 65039); (65043, 65043); (65056, 65071);
  (65106, 65106); (65109, 65109); (65279, 65279); (65287, 65287);
  (65294, 65294); (65306, 65306); (65342, 65342); (65344, 65344);
  (65392, 65392); (65438, 65439); (65507, 65507); (65529, 65531);
  (66045, 66045); (66272, 66272); (66422, 66426); (67456, 67461);
  (67463, 67504); (67506, 67514); (68097, 68099); (68101, 68102);
  (68108, 68111); (68152, 68154); (68159, 68159); (68325, 68326);
  (68900, 68903); (69291, 69292); (69446, 69456); (69506, 69509);
  (69633, 69633); (69688, 69702); (69744, 69744); (69747, 69748);
  (69759, 69761); (69811, 69814); (69817, 69818); (69821, 69821);
  (69826, 69826); (69837, 69837); (69888, 69890); (69927, 69931);
  (69933, 69940); (70003, 70003); (70016, 70017); (70070, 70078);
  (70089, 70092); (70095, 70095); (70191, 70193); (70196, 70196);
  (70198, 70199); (70206, 70206); (70367, 70367); (70371, 70378);
  (70400, 70401); (70459, 70460); (70464, 70464); (70502, 70508);
  (70512, 70516); (70712, 70719); (70722, 70724); (70726, 70726);
  (70750, 70750); (70835, 70840); (70842, 70842); (70847, 70848);
  (70850, 70851); (71090, 71093); (71100, 71101); (71103, 71104);
  (71132, 71133); (71219, 71226); (71229, 71229); (71231, 71232);
  (71339, 71339); (71341, 71341); (71344, 71349); (71351, 71351);
  (71453, 71455); (71458, 71461); (71463, 71467); (71727, 71735);
  (71737, 71738); (71995, 71996); (71998, 71998); (72003, 72003);
  (72148, 72151); (72154, 72155); (72160, 72160); (72193, 72202);
  (72243, 72248); (72251, 72254); (72263, 72263); (72273, 72278);
  (72281, 72283); (72330, 72342); (72344, 72345); (72752, 72758);
  (72760, 72765); (72767, 72767); (72850, 72871); (72874, 72880);
  (72882, 72883); (72885, 72886); (73009, 73014); (73018, 73018);
  (73020, 73021); (73023, 73029); (73031, 73031); (73104, 73105);
  (73109, 73109); (73111, 73111); (73459, 73460); (78896, 78904);
  (92912, 92916); (92976, 92982); (92992, 92995); (94031, 94031);
  (94095, 94111); (94176, 94177); (94179, 94180); (110576, 110579);
  (110581, 110587); (110589, 110590); (113821, 113822); (113824, 113827);
  (118528, 118573); (118576, 118598); (119143, 119145); (119155, 119170);
  (119173, 119179); (119210, 119213); (119362, 119364); (121344, 121398);
  (121403, 121452); (121461, 121461); (121476, 121476); (121499, 121503);
  (121505, 121519); (122880, 122886); (122888, 122904); (122907, 122913);
  (122915, 122916); (122918, 122922); (123184, 123197); (123566, 123566);
  (123628, 123631); (125136, 125142); (125252, 125259); (127995, 127999);
  (917505, 917505); (917536, 917631); (917760, 917999)
]%N.

End Unicode.

(* ===================================================================== *)
(** ** JavaScript strings *)
(* ===================================================================== *)

Module Js.

(** A string is its sequence of UTF-16 code units. *)
Abbreviation jsstring := (list N).

(** Decoding of a UTF-8 literal of this file into code units (one, two and
    three byte sequences, which cover the Basic Multilingual Plane). *)
Fixpoint utf8_decode (bs : list N) : list N :=
  match bs with
  | [] => []
  | b0 :: r0 =>
      if (b0 <? 128)%N then b0 :: utf8_decode r0
      else if (b0 <? 224)%N then
        match r0 with
        | b1 :: r1 => ((b0 - 192) * 64 + (b1 - 128))%N :: utf8_decode r1
        | [] => []
        end
      else
        match r0 with
        | b1 :: b2 :: r2 =>
            ((b0 - 224) * 4096 + (b1 - 128) * 64 + (b2 - 128))%N :: utf8_decode r2
        | _ => []
        end
  end.

Definition utf8 (s : string) : jsstring :=
  utf8_decode (List.map N_of_ascii (list_ascii_of_string s)).

(** Code points of a string: a high surrogate followed by a low one is
    one code point, every other code unit is a code point of its own. *)
Definition isHighSurrogate (c : N) : bool := ((55296 <=? c) && (c <=? 56319))%N.
Definition isLowSurrogate (c : N) : bool := ((56320 <=? c) && (c <=? 57343))%N.

Fixpoint toCodePoints (s : jsstring) : list N :=
  match s with
  | [] => []
  | c :: t =>
      match t with
      | d :: r =>
          if isHighSurrogate c && isLowSurrogate d
          then (65536 + (c - 55296) * 1024 + (d - 56320))%N :: toCodePoints r
          else c :: toCodePoints t
      | [] => [c]
      end
  end.

Definition encodeCodePoint (c : N) : jsstring :=
  if (c <? 65536)%N then [c]
  else [(55296 + (c - 65536) / 1024)%N; (56320 + (c - 65536) mod 1024)%N].

Definition fromCodePoints (l : list N) : jsstring :=
  List.concat (List.map encodeCodePoint l).

(** The first code point of [l] that is not case-ignorable is cased. *)
Fixpoint casedNext (l : list N) : bool :=
  match l with
  | [] => false
  | c :: r =>
      if Unicode.memberOf Unicode.caseIgnorable c then casedNext r
      else Unicode.memberOf Unicode.cased c
  end.

(** The condition [Final_Sigma] of [SpecialCasing.txt]: a cased letter
    comes before, and none comes after, case-ignorable code points apart.
    [before] holds the code points before the sigma, the nearest first. *)
Definition finalSigma (before after : list N) : bool :=
  casedNext before && negb (casedNext after).

(** The lowercase form of the code point [c] between [before] and
    [after]: U+0130 becomes U+0069 U+0307, U+03A3 becomes U+03C2 in
    final position and U+03C3 elsewhere, every other code point takes its
    simple lowercase mapping. *)
Definition lowerCodePoint (before : list N) (c : N) (after : list N) : list N :=
  if (c =? 304)%N then [105; 775]%N
  else if (c =? 931)%N then [if finalSigma before after then 962 else 963]%N
  else [Unicode.mapWith Unicode.simpleLowercase c].

Fixpoint lowerCodePoints (before l : list N) : list N :=
  match l with
  | [] => []
  | c :: r => lowerCodePoint before c r ++ lowerCodePoints (c :: before) r
  end.

(** [String.prototype.toLowerCase]: the lowercase forms of the code
    points of the string, one after the other. *)
Definition toLowerCase (s : jsstring) : jsstring :=
  fromCodePoints (lowerCodePoints [] (toCodePoints s)).

(** [.replace(/ё/g, 'е')]: U+0451 becomes U+0435. *)
Definition foldYoChar (c : N) : N := if (c =? 1105)%N then 1077%N else c.
Definition foldYo (s : jsstring) : jsstring := List.map foldYoChar s.

(** The class [\s] of regular expressions, which is also what [trim]
    strips: white space and line terminators. *)
Definition isSpace (c : N) : bool :=
  ((9 <=? c) && (c <=? 13) || (c =? 32) || (c =? 160) || (c =? 5760)
   || (8192 <=? c) && (c <=? 8202) || (c =? 8232) || (c =? 8233)
   || (c =? 8239) || (c =? 8287) || (c =? 12288) || (c =? 65279))%N.

(** The same class as rows of code units. *)
Definition whiteSpace : Unicode.class :=
  [(9, 13); (32, 32); (160, 160); (5760, 5760); (8192, 8202); (8232, 8233);
   (8239, 8239); (8287, 8287); (12288, 12288); (65279, 65279)]%N.

Definition isDigit (c : N) : bool := ((48 <=? c) && (c <=? 57))%N.

Fixpoint dropWhile (p : N -> bool) (s : jsstring) : jsstring :=
  match s with
  | [] => []
  | c :: r => if p c then dropWhile p r else s
  end.

Definition dropWhileEnd (p : N -> bool) (s : jsstring) : jsstring :=
  rev (dropWhile p (rev s)).

Definition trim (s : jsstring) : jsstring :=
  dropWhileEnd isSpace (dropWhile isSpace s).

Definition jsEq (a b : jsstring) : bool := bool_decide (a = b).

Definition isEmptyStr (s : jsstring) : bool :=
  match s with [] => true | _ => false end.

(** [parts.join(sep)]. *)
Fixpoint join (sep : jsstring) (parts : list jsstring) : jsstring :=
  match parts with
  | [] => []
  | [p] => p
  | p :: rest => p ++ sep ++ join sep rest
  end.

(** [s.split(/[sep]+/)]: the pieces between maximal runs of separator
    code units; a leading or trailing run gives an empty first or last
    piece, and the empty string gives one empty piece. *)
Fixpoint splitRuns_go (sep : N -> bool) (inRun : bool) (cur : jsstring)
    (s : jsstring) : list jsstring :=
  match s with
  | [] => [rev cur]
  | c :: r =>
      if sep c then
        if inRun then splitRuns_go sep true [] r
        else rev cur :: splitRuns_go sep true [] r
      else splitRuns_go sep false (c :: cur) r
  end.

Definition splitRuns (sep : N -> bool) (s : jsstring) : list jsstring :=
  splitRuns_go sep false [] s.

(** [s.replace(/[cls]+/g, ' ')] for a character class [cls]: every
    maximal run of code units of the class becomes one space. *)
Fixpoint replaceRuns (cls : N -> bool) (inRun : bool) (s : jsstring) : jsstring :=
  match s with
  | [] => []
  | c :: r =>
      if cls c then
        if inRun then replaceRuns cls true r
        else 32%N :: replaceRuns cls true r
      else c :: replaceRuns cls false r
  end.

(** What a regular expression with the [i] flag compares: the uppercase
    form of a code unit where it is one code unit, the code unit itself
    otherwise. *)
Definition canonicalize (c : N) : N := Unicode.mapWith Unicode.regexpUppercase c.

(** Two code units that the [i] flag takes for the same. *)
Definition eqCI (a b : N) : bool := (canonicalize a =? canonicalize b)%N.

(** [pat] matches, ignoring case, at the start of [s]; the rest of [s]
    after the match. *)
Fixpoint stripPrefixCI (pat s : jsstring) : option jsstring :=
  match pat, s with
  | [], _ => Some s
  | _ :: _, [] => None
  | p :: pat', c :: s' => if eqCI p c then stripPrefixCI pat' s' else None
  end.

(** [s] ends with [pat], ignoring case: [/pat$/i.test(s)] for a literal
    pattern. *)
Definition endsWithCI (pat s : jsstring) : bool :=
  match stripPrefixCI (rev pat) (rev s) with
  | Some _ => true
  | None => false
  end.

(** Some suffix of [s] satisfies [m]: an unanchored regular expression
    tried at every position. *)
Fixpoint anywhere (m : jsstring -> bool) (s : jsstring) : bool :=
  m s || match s with [] => false | _ :: r => anywhere m r end.

(** [/pat/i.test(s)] for a literal pattern. *)
Definition containsCI (pat s : jsstring) : bool :=
  anywhere (fun t => bool_decide (is_Some (stripPrefixCI pat t))) s.

(** One or more [\s] followed by something that is not white space: the
    run is consumed whole. *)
Definition spaces1 (s : jsstring) : option jsstring :=
  match s with
  | c :: r => if isSpace c then Some (dropWhile isSpace r) else None
  | [] => None
  end.

(** [\d{4}] at the start of [s]. *)
Definition fourDigits (s : jsstring) : bool :=
  match s with
  | a :: b :: c :: d :: _ => isDigit a && isDigit b && isDigit c && isDigit d
  | _ => false
  end.

(** [s.lastIndexOf(pat)]: the greatest index at which [pat] occurs, or -1. *)
Fixpoint lastIndexOf_go (pat s : jsstring) (i : Z) (best : Z) : Z :=
  let here := if bool_decide (take (length pat) s = pat) then i else best in
  match s with
  | [] => here
  | _ :: r => lastIndexOf_go pat r (i + 1) here
  end.

Definition lastIndexOf (pat s : jsstring) : Z := lastIndexOf_go pat s 0 (-1).

(** A property that TypeScript declares a string but that the data may
    leave out or set to null. *)
Inductive field :=
  | FUndefined
  | FNull
  | FStr (s : jsstring).

#[export] Instance field_eq_dec : EqDecision field.
Proof. solve_decision. Defined.

(** [!!v] for such a property: only a non-empty string is truthy. *)
Definition truthy (v : field) : bool :=
  match v with
  | FStr (_ :: _) => true
  | _ => false
  end.

(** [v || ''] *)
Definition orEmpty (v : field) : jsstring :=
  match v with
  | FStr s => s
  | _ => []
  end.

End Js.

Import Js.

(* ===================================================================== *)
(** ** src/services/archimed.ts: records and the merge engine *)
(* ===================================================================== *)

Module Archimed.

(** An element of [ArchimedDoctor['types']]. *)
Record DoctorType := { type_id : Z; type_name : jsstring }.

#[export] Instance DoctorType_eq_dec : EqDecision DoctorType.
Proof. solve_decision. Defined.

(** [ArchimedDoctor].  The declaration lives in [../types/cms]; the fields
    are those of the object literal that [mapProdoctorovToArchimed]
    returns as an [ArchimedDoctor].  The properties the service guards
    with [|| ''], [|| []] or a truthiness test are the ones that may be
    absent. *)
Record ArchimedDoctor := {
  id : Z;
  name : field;
  name1 : field;
  name2 : field;
  type : field;
  code : jsstring;
  max_time : jsstring;
  phone : jsstring;
  snils : jsstring;
  info : field;
  zone_id : Z;
  zone : jsstring;
  branch_id : Z;
  branch : jsstring;
  category_id : Z;
  category : field;
  scientific_degree_id : Z;
  scientific_degree : field;
  user_id : Z;
  photo : field;
  address : jsstring;
  building_name : jsstring;
  building_web_name : jsstring;
  primary_type_id : Z;
  types : option (list DoctorType)
}.

#[export] Instance ArchimedDoctor_eq_dec : EqDecision ArchimedDoctor.
Proof. solve_decision. Defined.

(** [ApiService]: the properties the service reads. *)
Record ApiService := {
  service_id : Z;
  service_name : field;
  group_name : field
}.

#[export] Instance ApiService_eq_dec : EqDecision ApiService.
Proof. solve_decision. Defined.

(** *** Name normalisation and the blacklist (lines 38-52) *)

Definition isNameChar (c : N) : bool :=
  ((97 <=? c) && (c <=? 122) || (1072 <=? c) && (c <=? 1103)
   || (48 <=? c) && (c <=? 57))%N.

Definition normalizeRu (s : field) : jsstring :=
  trim (replaceRuns (fun c => negb (isNameChar c)) false
          (foldYo (toLowerCase (orEmpty s)))).

Definition makeFullName (d : ArchimedDoctor) : jsstring :=
  normalizeRu
    (FStr (join (utf8 " ")
             (List.map orEmpty (List.filter truthy [name d; name1 d; name2 d])))).

Definition NAME_BLACKLIST : gset jsstring :=
  {[ utf8 "хорбаа анжела тарасовна" ]}.

Definition isBlacklisted (doctor : ArchimedDoctor) : bool :=
  bool_decide (makeFullName doctor ∈ NAME_BLACKLIST).

Definition applyRemovals (doctors : list ArchimedDoctor) : list ArchimedDoctor :=
  List.filter (fun d => negb (isBlacklisted d)) doctors.

(** *** A JavaScript [Map] with string keys

    Iteration follows insertion order and [set] on a key that is present
    replaces the value where it stands, so the map is an association list
    with distinct keys. *)
Definition jsmap (V : Type) := list (jsstring * V).

Fixpoint map_get {V} (k : jsstring) (m : jsmap V) : option V :=
  match m with
  | [] => None
  | (k', v) :: r => if bool_decide (k' = k) then Some v else map_get k r
  end.

Fixpoint map_set {V} (k : jsstring) (v : V) (m : jsmap V) : jsmap V :=
  match m with
  | [] => [(k, v)]
  | (k', v') :: r =>
      if bool_decide (k' = k) then (k', v) :: r else (k', v') :: map_set k v r
  end.

Definition map_values {V} (m : jsmap V) : list V := List.map snd m.
Definition map_keys {V} (m : jsmap V) : list jsstring := List.map fst m.

(** A [Set] of strings, in insertion order. *)
Definition set_add (x : jsstring) (s : list jsstring) : list jsstring :=
  if bool_decide (x ∈ s) then s else s ++ [x].

Definition mkSet (l : list jsstring) : list jsstring :=
  fold_left (fun s x => set_add x s) l [].

(** *** mergeDoctors (lines 512-582) *)

Definition normalize (s : field) : jsstring :=
  trim (foldYo (toLowerCase (orEmpty s))).

Definition makeNameKey (d : ArchimedDoctor) : jsstring :=
  normalize (name d) ++ utf8 "|" ++ normalize (name1 d) ++ utf8 "|"
    ++ normalize (name2 d).

Definition isEmpty (v : field) : bool :=
  match v with
  | FUndefined | FNull => true
  | FStr s => isEmptyStr (trim s)
  end.

(** [/(категор)/i.test(s)]; [undefined] and [null] are tested as the words
    "undefined" and "null", which do not match. *)
Definition looksLikeCategory (s : field) : bool :=
  match s with
  | FStr t => containsCI (utf8 "категор") t
  | _ => false
  end.

(** [/стаж\s+с\s+\d{4}/i] at the start of [s]. *)
Definition experienceAt (s : jsstring) : bool :=
  match stripPrefixCI (utf8 "стаж") s with
  | Some r1 =>
      match spaces1 r1 with
      | Some r2 =>
          match stripPrefixCI (utf8 "с") r2 with
          | Some r3 =>
              match spaces1 r3 with
              | Some r4 => fourDigits r4
              | None => false
              end
          | None => false
          end
      | None => false
      end
  | None => false
  end.

(** [/врачебный\s+стаж\s+с\s+\d{4}/i] at the start of [s]. *)
Definition doctorExperienceAt (s : jsstring) : bool :=
  match stripPrefixCI (utf8 "врачебный") s with
  | Some r1 =>
      match spaces1 r1 with
      | Some r2 => experienceAt r2
      | None => false
      end
  | None => false
  end.

Definition mentionsExperience (s : jsstring) : bool :=
  anywhere experienceAt s || anywhere doctorExperienceAt s.

Definition mentionsExtras (s : jsstring) : bool :=
  containsCI (utf8 "Смежные специальности") s.

Definition isNewline (c : N) : bool := (c =? 10)%N.

Definition typeNames (d : ArchimedDoctor) : list jsstring :=
  mkSet (normalize (type d)
         :: List.map (fun t => normalize (FStr (type_name t)))
              (default [] (types d))).

(** [Array.prototype.map((x, idx) => ...)]: the elements with their
    indices. *)
Fixpoint indexed {A} (i : Z) (l : list A) : list (Z * A) :=
  match l with
  | [] => []
  | x :: r => (i, x) :: indexed (i + 1) r
  end.

Definition nonEmpty (s : jsstring) : bool := negb (isEmptyStr s).

Definition mergeOne (base add : ArchimedDoctor) : ArchimedDoctor :=
  (* Photo *)
  let photo' :=
    if (negb (truthy (photo base)) || bool_decide (photo base = FStr []))
       && truthy (photo add)
    then photo add else photo base in
  (* Scientific degree *)
  let baseDeg := normalize (FStr (orEmpty (scientific_degree base))) in
  let addDeg := normalize (FStr (orEmpty (scientific_degree add))) in
  let degree' :=
    if (isEmpty (scientific_degree base) || jsEq baseDeg (utf8 "без степени"))
       && nonEmpty addDeg && negb (jsEq addDeg (utf8 "без степени"))
    then scientific_degree add else scientific_degree base in
  (* Category *)
  let category' :=
    if (isEmpty (category base) || negb (looksLikeCategory (category base)))
       && looksLikeCategory (category add)
    then category add else category base in
  (* Info *)
  let infoText := orEmpty (info base) in
  let addInfo := orEmpty (info add) in
  let hasExperience := mentionsExperience infoText in
  let addHasExperience := mentionsExperience addInfo in
  let addLines := splitRuns isNewline addInfo in
  let parts :=
    (if nonEmpty infoText then [infoText] else [])
    ++ (if negb hasExperience && addHasExperience
        then [hd [] addLines] else [])
    ++ (match List.find mentionsExtras addLines with
        | Some addExtrasLine =>
            if nonEmpty addExtrasLine && negb (mentionsExtras infoText)
            then [addExtrasLine] else []
        | None => []
        end) in
  let info' := FStr (join [10%N] (List.filter nonEmpty parts)) in
  (* Types *)
  let baseTypeNames := typeNames base in
  let addTypeNames := typeNames add in
  let mergedTypeNames :=
    fold_left
      (fun s n => if nonEmpty n && negb (bool_decide (n ∈ s)) then s ++ [n] else s)
      addTypeNames baseTypeNames in
  let materialized :=
    List.map (fun p => {| type_id := fst p; type_name := snd p |})
      (indexed 0 (List.filter nonEmpty mergedTypeNames)) in
  let types' :=
    match materialized with
    | [] => types base
    | _ :: _ =>
        Some (List.map (fun p => {| type_id := fst p; type_name := type_name (snd p) |})
                (indexed 0 materialized))
    end in
  let type' :=
    match materialized with
    | [] => type base
    | t :: _ =>
        let first := if nonEmpty (type_name t) then FStr (type_name t) else type base in
        if truthy first then first else type base
    end in
  {| id := id base;
     name := name base;
     name1 := name1 base;
     name2 := name2 base;
     type := type';
     code := code base;
     max_time := max_time base;
     phone := phone base;
     snils := snils base;
     info := info';
     zone_id := zone_id base;
     zone := zone base;
     branch_id := branch_id base;
     branch := branch base;
     category_id := category_id base;
     category := category';
     scientific_degree_id := scientific_degree_id base;
     scientific_degree := degree';
     user_id := user_id base;
     photo := photo';
     address := address base;
     building_name := building_name base;
     building_web_name := building_web_name base;
     primary_type_id := primary_type_id base;
     types := types' |}.

(** The first loop: [for (const d of primary) byName.set(makeNameKey(d), d)]. *)
Definition collectPrimary (primary : list ArchimedDoctor) : jsmap ArchimedDoctor :=
  fold_left (fun byName d => map_set (makeNameKey d) d byName) primary [].

(** The body of the second loop; a stored record is an object, so
    [if (existing)] holds exactly when the key is present. *)
Definition mergeStep (byName : jsmap ArchimedDoctor) (add : ArchimedDoctor)
    : jsmap ArchimedDoctor :=
  let key := makeNameKey add in
  match map_get key byName with
  | Some existing => map_set key (mergeOne existing add) byName
  | None => map_set key add byName
  end.

Definition mergeMap (primary extra : list ArchimedDoctor) : jsmap ArchimedDoctor :=
  fold_left mergeStep extra (collectPrimary primary).

Definition mergeDoctors (primary extra : list ArchimedDoctor) : list ArchimedDoctor :=
  map_values (mergeMap primary extra).

(** *** Linking services with doctors (lines 601-638) *)

Definition normalized (s : field) : jsstring := foldYo (toLowerCase (orEmpty s)).

Definition tokenize (s : field) : list jsstring :=
  List.filter nonEmpty (splitRuns isSpace (normalized s)).

Definition docTokens (d : ArchimedDoctor) : list jsstring :=
  mkSet (tokenize (type d)
         ++ flat_map (fun t => tokenize (FStr (type_name t))) (default [] (types d))).

Definition svcTokens (svc : ApiService) : list jsstring :=
  mkSet (tokenize (group_name svc) ++ tokenize (service_name svc)).

(** [for (const t of docTokens) if (svcTokens.has(t)) return true; return false] *)
Definition sharesToken (docTokens svcTokens : list jsstring) : bool :=
  existsb (fun t => bool_decide (t ∈ svcTokens)) docTokens.

Record DoctorWithServices := {
  dws_doctor : ArchimedDoctor;
  services : list ApiService
}.

Record ServiceWithDoctors := {
  swd_service : ApiService;
  doctors : list ArchimedDoctor
}.

(** The two helpers, from the point where both lists have been awaited. *)
Definition getDoctorsWithServices (doctors : list ArchimedDoctor)
    (services : list ApiService) : list DoctorWithServices :=
  List.map
    (fun d =>
       let docTokens := docTokens d in
       let matched :=
         List.filter (fun svc => sharesToken docTokens (svcTokens svc)) services in
       {| dws_doctor := d; services := matched |})
    doctors.

Definition getServicesWithDoctors (doctors : list ArchimedDoctor)
    (services : list ApiService) : list ServiceWithDoctors :=
  List.map
    (fun svc =>
       let svcTokens := svcTokens svc in
       let matched :=
         List.filter (fun d => sharesToken (docTokens d) svcTokens) doctors in
       {| swd_service := svc; doctors := matched |})
    services.

(** *** The storage slot (lines 129-151) *)

(** A value read back from JSON, as far as the service looks into it: an
    array is an array of doctor records, and of an object only the [data]
    and [timestamp] properties are read ([timestamp] is declared a number;
    [None] is an absent or null one). *)
Inductive jsval :=
  | VUndefined
  | VNull
  | VBool (b : bool)
  | VNum (n : Z)
  | VStr (s : jsstring)
  | VArray (elements : list ArchimedDoctor)
  | VObject (data : jsval) (timestamp : option Z).

(** [!!v] *)
Definition truthyVal (v : jsval) : bool :=
  match v with
  | VUndefined | VNull | VBool false | VNum 0 | VStr [] => false
  | _ => true
  end.

(** [v.data] and [v.timestamp] of a value that is not null or undefined. *)
Definition prop_data (v : jsval) : jsval :=
  match v with
  | VObject d _ => d
  | _ => VUndefined
  end.

Definition prop_timestamp (v : jsval) : option Z :=
  match v with
  | VObject _ t => t
  | _ => None
  end.

Definition truthyNum (n : option Z) : bool :=
  match n with
  | Some t => negb (t =? 0)
  | None => false
  end.

(** What a slot of [localStorage] holds: a string, classified by what
    [JSON.parse] makes of it. *)
Inductive stored :=
  | RawEmpty
  | RawInvalid
  | RawJSON (parsed : jsval).

Definition DOCTORS_CACHE_KEY : string := "archimed_doctors_v1".
Definition DOCTORS_CACHE_TTL_MS : Z := 24 * 60 * 60 * 1000.
Definition DEFAULT_API_PAGE_LIMIT : Z := 200.
Definition MAX_API_PAGES : Z := 50.

(** A promise that has settled. *)
Inductive settled (A : Type) :=
  | Fulfilled (value : A)
  | Rejected (reason : jsstring).
Arguments Fulfilled {A} value.
Arguments Rejected {A} reason.

(** One page of [/doctors]: [{ data, total, page, limit }], each property
    possibly missing.  The numbers of a response are integers; [data] is
    an array of records or something else, of which the code reads only
    the [length]. *)
Inductive PageData :=
  | DataArray (l : list ArchimedDoctor)   (* [Array.isArray(data)] *)
  | DataOther (length : option Z).        (* anything else, with its [length] if it has one *)

Record PageResponse := {
  page_data : PageData;
  page_total : option Z;
  page_limit : option Z
}.

(** [data] where [Array.isArray(data)] holds. *)
Definition dataArray (d : PageData) : option (list ArchimedDoctor) :=
  match d with
  | DataArray l => Some l
  | DataOther _ => None
  end.

(** [data?.length]. *)
Definition dataLength (d : PageData) : option Z :=
  match d with
  | DataArray l => Some (Z.of_nat (List.length l))
  | DataOther n => n
  end.

(** What the public gateway's body parses to. *)
Inductive GatewayBody :=
  | BodyInvalid                               (* [json()] rejects *)
  | BodyArray (l : list ArchimedDoctor)       (* an array *)
  | BodyData (l : list ArchimedDoctor)        (* an object whose [data] is an array *)
  | BodyOther.                                (* anything else *)

Inductive GatewayOutcome :=
  | GatewayFails                              (* [fetch] rejects: network error or timeout *)
  | GatewayResponds (ok : bool) (body : GatewayBody).

(** What [import('../data/doctors.json')] gives. *)
Inductive LocalSnapshot :=
  | LocalFails
  | LocalArray (l : list ArchimedDoctor)
  | LocalData (l : list ArchimedDoctor)
  | LocalOther.

(** Everything outside the service that a call depends on. *)
Record World := {
  has_window : bool;                  (* [typeof window !== 'undefined'] *)
  now : Z;                            (* [Date.now()] *)
  storage_full : bool;                (* [localStorage.setItem] throws *)
  VITE_ARCHIMED_API_URL : field;
  gateway : GatewayOutcome;           (* GET PUBLIC_DOCTORS_URL?limit=200 *)
  api_doctors : Z -> Z -> settled PageResponse;  (* GET /doctors?page=&limit= *)
  api_doctor : Z -> settled ArchimedDoctor;      (* GET /doctors/:id *)
  prodoctorov : list ArchimedDoctor;  (* what [loadProdoctorovSnapshot()] resolves with *)
  local_doctors : LocalSnapshot;
  mockDoctors : list ArchimedDoctor
}.

(** The fields of the service object that the doctor methods use, and the
    browser's storage. *)
Record State := {
  doctorsCache : list ArchimedDoctor;
  storage : gmap string stored
}.

Definition ARCHIMED_API_URL (w : World) : jsstring :=
  if truthy (VITE_ARCHIMED_API_URL w) then orEmpty (VITE_ARCHIMED_API_URL w)
  else utf8 "https://newapi.archimed-soft.ru/api/v5".

Definition readFromStorage (w : World) (key : string) (ttlMs : Z)
    (store : gmap string stored) : option jsval :=
  if negb (has_window w) then None
  else
    match store !! key with
    | None => None
    | Some RawEmpty => None
    | Some RawInvalid => None
    | Some (RawJSON parsed) =>
        if negb (truthyVal parsed) || negb (truthyVal (prop_data parsed))
           || negb (truthyNum (prop_timestamp parsed))
        then None
        else
          let isFresh := now w - default 0 (prop_timestamp parsed) <? ttlMs in
          if isFresh then Some (prop_data parsed) else Some (prop_data parsed)
    end.

Definition writeToStorage (w : World) (key : string) (data : jsval)
    (store : gmap string stored) : gmap string stored :=
  if negb (has_window w) then store
  else if storage_full w then store
  else <[key := RawJSON (VObject data (Some (now w)))]> store.

(** *** The remote client (lines 92-127, 398-436) *)

(** [request('/doctors?page=..&limit=..')]: it reads [window.setTimeout]
    before it fetches. *)
Definition requestPage (w : World) (page limit : Z) : settled PageResponse :=
  if negb (has_window w) then Rejected (utf8 "window is not defined")
  else api_doctors w page limit.

(** [Math.ceil(a / b)] for integers and [b > 0]. *)
Definition ceilDiv (a b : Z) : Z := - ((- a) / b).

(** The records fetched and, for the statements about pagination, the
    pages requested, in order. *)
Record Fetch := {
  fetched : list ArchimedDoctor;
  requested : list Z
}.

(** The [for] loop over the remaining pages; [n] iterations are left. *)
Fixpoint fetchRemaining (w : World) (n : nat) (page limit : Z) (acc : Fetch) : Fetch :=
  match n with
  | O => acc
  | S n' =>
      let log := requested acc ++ [page] in
      match requestPage w page limit with
      | Rejected _ => {| fetched := fetched acc; requested := log |}
      | Fulfilled next =>
          match dataArray (page_data next) with
          | Some ((_ :: _) as ds) =>
              let acc' := {| fetched := fetched acc ++ ds; requested := log |} in
              if Z.of_nat (length ds) <? limit then acc'
              else fetchRemaining w n' (page + 1) limit acc'
          | _ => {| fetched := fetched acc; requested := log |}
          end
      end
  end.

Definition fetchAllDoctorsFromAPI (w : World) : Fetch :=
  if isEmptyStr (ARCHIMED_API_URL w) then {| fetched := []; requested := [] |}
  else
    match requestPage w 1 DEFAULT_API_PAGE_LIMIT with
    | Rejected _ => {| fetched := []; requested := [1] |}
    | Fulfilled first =>
        let total := default (default 0 (dataLength (page_data first))) (page_total first) in
        let limit := default DEFAULT_API_PAGE_LIMIT (page_limit first) in
        let all := default [] (dataArray (page_data first)) in
        let totalPages :=
          if 0 <? limit
          then ceilDiv (if total =? 0 then Z.of_nat (length all) else total) limit
          else 1 in
        fetchRemaining w (Z.to_nat (Z.min totalPages MAX_API_PAGES - 1)) 2 limit
          {| fetched := all; requested := [1] |}
    end.

(** *** refreshDoctors (lines 386-396) *)

(** The body of [refreshDoctors] once the promise of
    [fetchAllDoctorsFromAPI] has settled. *)
Definition refreshDoctorsAfter (w : World) (r : settled (list ArchimedDoctor))
    (st : State) : State :=
  match r with
  | Fulfilled ((_ :: _) as allDoctors) =>
      let cache := applyRemovals allDoctors in
      {| doctorsCache := cache;
         storage := writeToStorage w DOCTORS_CACHE_KEY (VArray cache) (storage st) |}
  | Fulfilled [] => st
  | Rejected _ => st
  end.

Definition refreshDoctors (w : World) (st : State) : State :=
  refreshDoctorsAfter w (Fulfilled (fetched (fetchAllDoctorsFromAPI w))) st.

(** *** The constructor's warm-up (lines 70-90) *)

Definition construct (w : World) (store : gmap string stored) : State :=
  match readFromStorage w DOCTORS_CACHE_KEY DOCTORS_CACHE_TTL_MS store with
  | Some (VArray doctorsFromStorage) =>
      {| doctorsCache := applyRemovals doctorsFromStorage; storage := store |}
  | Some (VObject (VArray normalized) _) =>
      let cache := applyRemovals normalized in
      {| doctorsCache := cache;
         storage := writeToStorage w DOCTORS_CACHE_KEY (VArray cache) store |}
  | _ => {| doctorsCache := []; storage := store |}
  end.

(** *** getDoctors (lines 154-266) *)

(** The three places where [getDoctors] has already assigned
    [this.doctorsCache] and awaits [loadProdoctorovSnapshot()]. *)
Inductive Suspended :=
  | AwaitProdoctorovForApi      (* line 219 *)
  | AwaitProdoctorovForLocal    (* line 241 *)
  | AwaitProdoctorovForMock.    (* line 255 *)

(** How far a call has got. *)
Inductive Progress :=
  | Resolved (result : list ArchimedDoctor) (refreshStarted : bool)
  | Pending (at_ : Suspended).

Definition setCache (cache : list ArchimedDoctor) (st : State) : State :=
  {| doctorsCache := cache; storage := storage st |}.

(** [this.doctorsCache = this.applyRemovals(list); this.writeToStorage(...);
    return this.doctorsCache], the end of every slow path. *)
Definition finish (w : World) (doctors : list ArchimedDoctor) (st : State)
    : State * Progress :=
  let cache := applyRemovals doctors in
  ({| doctorsCache := cache;
      storage := writeToStorage w DOCTORS_CACHE_KEY (VArray cache) (storage st) |},
   Resolved cache false).

(** The [catch] of the outer [try]: the bundled snapshot, then the mock
    data. *)
Definition fallbackLocal (w : World) (st : State) : State * Progress :=
  match local_doctors w with
  | LocalFails =>
      (setCache (mockDoctors w) st, Pending AwaitProdoctorovForMock)
  | snapshot =>
      let localDoctors :=
        match snapshot with
        | LocalArray l => l
        | LocalData l => l
        | _ => []
        end in
      if Z.of_nat (length localDoctors) <? 10
      then (setCache localDoctors st, Pending AwaitProdoctorovForLocal)
      else finish w localDoctors st
  end.

(** Step 2 of the [try]: the Archimed API directly. *)
Definition fallbackApi (w : World) (st : State) : State * Progress :=
  let allDoctors := fetched (fetchAllDoctorsFromAPI w) in
  if Z.of_nat (length allDoctors) <? 10
  then (setCache allDoctors st, Pending AwaitProdoctorovForApi)
  else finish w allDoctors st.

(** The call up to its first return or to the [await] of the ProDoctorov
    snapshot. *)
Definition getDoctors_begin (w : World) (st : State) : State * Progress :=
  match doctorsCache st with
  | _ :: _ => (st, Resolved (doctorsCache st) true)
  | [] =>
      match readFromStorage w DOCTORS_CACHE_KEY DOCTORS_CACHE_TTL_MS (storage st) with
      | Some (VArray ((_ :: _) as fromStorage)) =>
          let cache := applyRemovals fromStorage in
          (setCache cache st, Resolved cache true)
      | Some (VObject (VArray normalized) _) =>
          let cache := applyRemovals normalized in
          ({| doctorsCache := cache;
              storage := writeToStorage w DOCTORS_CACHE_KEY (VArray cache) (storage st) |},
           Resolved cache true)
      | _ =>
          if negb (has_window w) then fallbackLocal w st
          else
            match gateway w with
            | GatewayFails => fallbackLocal w st
            | GatewayResponds true BodyInvalid => fallbackLocal w st
            | GatewayResponds true body =>
                let publicData :=
                  match body with
                  | BodyArray l => l
                  | BodyData l => l
                  | _ => []
                  end in
                let apiAll := fetched (fetchAllDoctorsFromAPI w) in
                let bestData :=
                  if Z.of_nat (length publicData) <? Z.of_nat (length apiAll)
                  then apiAll else publicData in
                match bestData with
                | _ :: _ => finish w bestData st
                | [] => fallbackApi w st
                end
            | GatewayResponds false _ => fallbackApi w st
            end
      end
  end.

(** The call from the [await] of the ProDoctorov snapshot to its return. *)
Definition getDoctors_resume (w : World) (at_ : Suspended) (st : State)
    : State * list ArchimedDoctor :=
  let proDocs := prodoctorov w in
  let enriched :=
    match proDocs with
    | _ :: _ => mergeDoctors (doctorsCache st) proDocs
    | [] => doctorsCache st
    end in
  let cache := applyRemovals enriched in
  ({| doctorsCache := cache;
      storage := writeToStorage w DOCTORS_CACHE_KEY (VArray cache) (storage st) |},
   cache).

(** One call run from start to end with nothing in between: the state it
    leaves, the list it resolves with and whether it started a background
    refresh. *)
Definition getDoctors (w : World) (st : State)
    : State * list ArchimedDoctor * bool :=
  match getDoctors_begin w st with
  | (st', Resolved result refreshStarted) => (st', result, refreshStarted)
  | (st', Pending at_) =>
      let '(st'', result) := getDoctors_resume w at_ st' in
      (st'', result, false)
  end.

(** *** getDoctor (lines 268-274) *)

Definition NOT_FOUND : jsstring := utf8 "Archimed API error: 404 - Not found".

Definition getDoctor (w : World) (doctorId : Z) : settled ArchimedDoctor :=
  let response :=
    if negb (has_window w) then Rejected (utf8 "window is not defined")
    else api_doctor w doctorId in
  match response with
  | Rejected e => Rejected e
  | Fulfilled doc =>
      if isBlacklisted doc then Rejected NOT_FOUND else Fulfilled doc
  end.

End Archimed.

(* ===================================================================== *)
(** ** The earlier copy of the service: its mergeDoctors *)
(* ===================================================================== *)

Module ArchimedCopy.

Import Archimed.

(** The repository keeps a second copy of the service file.  It has no
    blacklist, and its [mergeDoctors] is the five lines below: the key
    also holds the type, ё is not folded, nothing is trimmed, and an extra
    record whose key is taken is dropped. *)
Definition makeKey (d : ArchimedDoctor) : jsstring :=
  toLowerCase (orEmpty (name d)) ++ utf8 "|"
    ++ toLowerCase (orEmpty (name1 d)) ++ utf8 "|"
    ++ toLowerCase (orEmpty (name2 d)) ++ utf8 "|"
    ++ toLowerCase (orEmpty (type d)).

Definition mergeDoctors (primary extra : list ArchimedDoctor) : list ArchimedDoctor :=
  let byKey := fold_left (fun m d => map_set (makeKey d) d m) primary [] in
  let byKey :=
    fold_left
      (fun m d =>
         match map_get (makeKey d) m with
         | Some _ => m
         | None => map_set (makeKey d) d m
         end)
      extra byKey in
  map_values byKey.

End ArchimedCopy.

(* ===================================================================== *)
(** ** The filename-parsing scraper *)
(* ===================================================================== *)

Module Scraper.

(** An item of [prodoctorov.json]. *)
Record Item := {
  fullName : field;
  specialty : field;
  photo : field;
  category : field;
  scientific_degree : field;
  experienceStartYear : option Z;
  extraSpecialties : option (list jsstring)
}.

#[export] Instance Item_eq_dec : EqDecision Item.
Proof. solve_decision. Defined.

Definition normalizeName (s : field) : jsstring :=
  trim (replaceRuns isSpace false (foldYo (toLowerCase (orEmpty s)))).

Definition isDot (c : N) : bool := (c =? 46)%N.
Definition isHyphenOrSpace (c : N) : bool := (c =? 45)%N || isSpace c.

(** [basename.replace(/\.[^.]+$/i, "")]: the part from the last dot on is
    removed when something follows that dot. *)
Definition removeExtension (basename : jsstring) : jsstring :=
  let r := rev basename in
  match r with
  | [] => basename
  | lastChar :: _ =>
      if isDot lastChar then basename
      else
        match dropWhile (fun c => negb (isDot c)) r with
        | _ :: before => rev before
        | [] => basename
        end
  end.

(** [s.slice(i)] and [s.slice(0, i)] for [0 <= i]. *)
Definition sliceFrom (i : Z) (s : jsstring) : jsstring := drop (Z.to_nat i) s.
Definition sliceTo (i : Z) (s : jsstring) : jsstring := take (Z.to_nat i) s.

Definition charAt (i : Z) (s : jsstring) : option N :=
  if i <? 0 then None else s !! Z.to_nat i.

Definition splitNameAndSpecialty (basename : jsstring) : jsstring * jsstring :=
  let nameOnly := removeExtension basename in
  let idx1 := lastIndexOf (utf8 " - ") nameOnly in
  let idx2 := lastIndexOf (utf8 "- ") nameOnly in
  let idx3 := lastIndexOf (utf8 " -") nameOnly in
  let candidates :=
    List.filter (fun i => negb (i =? -1)) [idx1; idx2; idx3] in
  let splitIdx :=
    match candidates with
    | [] => -1
    | c :: rest => fold_left Z.max rest c
    end in
  if splitIdx =? -1 then (trim nameOnly, [])
  else
    let fullName :=
      dropWhileEnd isHyphenOrSpace (trim (sliceTo splitIdx nameOnly)) in
    let skip := if bool_decide (charAt (splitIdx + 1) nameOnly = Some 32%N) then 2 else 1 in
    let specialty :=
      dropWhile isHyphenOrSpace (trim (sliceFrom (splitIdx + skip) nameOnly)) in
    (fullName, specialty).

(** [/\.(jpe?g|png|webp)$/i.test(name)] *)
Definition isImageName (name : jsstring) : bool :=
  endsWithCI (utf8 ".jpg") name || endsWithCI (utf8 ".jpeg") name
  || endsWithCI (utf8 ".png") name || endsWithCI (utf8 ".webp") name.

(** [/no-avatar\.svg$/i.test(photo)] *)
Definition isPlaceholder (photo : jsstring) : bool :=
  endsWithCI (utf8 "no-avatar.svg") photo.

Definition hasNoPhoto (item : Item) : bool :=
  negb (truthy (photo item)) || isPlaceholder (orEmpty (photo item)).

Definition photoPathOf (filename : jsstring) : jsstring :=
  utf8 "/img_doctors/" ++ filename.

(** The variables of [main]'s loop.  [results] holds the objects;
    [byName] maps a key to the position in [results] of the object it
    refers to, so a write through [byName.get(key)] is a write into
    [results]. *)
Record Run := {
  results : list Item;
  byName : gmap jsstring nat;
  added : Z;
  updatedPhotos : Z
}.

(** [new Map(existing.map((i) => [normalizeName(i.fullName), i]))]: of two
    items with one key the later one is kept. *)
Fixpoint indexByName (i : nat) (items : list Item) (m : gmap jsstring nat)
    : gmap jsstring nat :=
  match items with
  | [] => m
  | it :: rest => indexByName (S i) rest (<[normalizeName (fullName it) := i]> m)
  end.

Definition start (existing : list Item) : Run :=
  {| results := existing;
     byName := indexByName 0 existing ∅;
     added := 0;
     updatedPhotos := 0 |}.

Definition setPhoto (p : field) (item : Item) : Item :=
  {| fullName := fullName item; specialty := specialty item; photo := p;
     category := category item; scientific_degree := scientific_degree item;
     experienceStartYear := experienceStartYear item;
     extraSpecialties := extraSpecialties item |}.

Definition setSpecialty (sp : field) (item : Item) : Item :=
  {| fullName := fullName item; specialty := sp; photo := photo item;
     category := category item; scientific_degree := scientific_degree item;
     experienceStartYear := experienceStartYear item;
     extraSpecialties := extraSpecialties item |}.

(** The body of [for (const filename of entries)]. *)
Definition processFile (run : Run) (filename : jsstring) : Run :=
  let '(parsedName, parsedSpecialty) := splitNameAndSpecialty filename in
  if isEmptyStr parsedName then run
  else
    let key := normalizeName (FStr parsedName) in
    let photoPath := photoPathOf filename in
    match byName run !! key with
    | None =>
        let item :=
          {| fullName := FStr parsedName;
             specialty := FStr (if isEmptyStr parsedSpecialty then utf8 "Врач" else parsedSpecialty);
             photo := FStr photoPath;
             category := FUndefined; scientific_degree := FUndefined;
             experienceStartYear := None; extraSpecialties := None |} in
        {| results := results run ++ [item];
           byName := <[key := length (results run)]> (byName run);
           added := added run + 1;
           updatedPhotos := updatedPhotos run |}
    | Some pos =>
        match results run !! pos with
        | None => run
        | Some item =>
            let noPhoto := hasNoPhoto item in
            let item1 := if noPhoto then setPhoto (FStr photoPath) item else item in
            let item2 :=
              if (negb (truthy (specialty item1))
                  || isEmptyStr (trim (orEmpty (specialty item1))))
                 && negb (isEmptyStr parsedSpecialty)
              then setSpecialty (FStr parsedSpecialty) item1 else item1 in
            {| results := <[pos := item2]> (results run);
               byName := byName run;
               added := added run;
               updatedPhotos := if noPhoto then updatedPhotos run + 1 else updatedPhotos run |}
        end
    end.

(** A directory entry: its name and whether it is a file. *)
Definition entriesOf (dir : list (jsstring * bool)) : list jsstring :=
  List.filter isImageName (List.map fst (List.filter snd dir)).

(** [main] up to the end of the loop, from the snapshot as loaded and the
    directory as listed; the sort by [localeCompare] that follows reorders
    [results] and changes no item. *)
Definition processImages (existing : list Item) (dir : list (jsstring * bool)) : Run :=
  fold_left processFile (entriesOf dir) (start existing).

End Scraper.

(* ===================================================================== *)
(** ** Vocabulary of the statements *)
(* ===================================================================== *)

Module Vocabulary.

Import Archimed.

(** The records of [l] whose key is [k], in order. *)
Definition matching {D} (key : D -> jsstring) (k : jsstring) (l : list D) : list D :=
  List.filter (fun d => bool_decide (key d = k)) l.

(** The shape both versions of the second loop of [mergeDoctors] have: a
    record whose key is present is combined with the stored one by [f],
    another one is added. *)
Definition stepWith {D} (key : D -> jsstring) (f : D -> D -> D)
    (m : jsmap D) (d : D) : jsmap D :=
  match map_get (key d) m with
  | Some existing => map_set (key d) (f existing d) m
  | None => map_set (key d) d m
  end.

(** Every value of the map is stored under its own key. *)
Definition keyedBy {D} (key : D -> jsstring) (m : jsmap D) : Prop :=
  Forall (fun kv => key (snd kv) = fst kv) m.

(** The merge key in the glossary's words: the name parts, concatenated
    (with the separators the code puts between them), lower-cased and with
    ё folded to е. *)
Definition specMergeKey (d : ArchimedDoctor) : jsstring :=
  foldYo (toLowerCase
            (orEmpty (name d) ++ utf8 "|" ++ orEmpty (name1 d) ++ utf8 "|"
               ++ orEmpty (name2 d))).

(** [d] is the record [b] as far as the properties go that do not come
    from an extra record: everything but photo, degree, category, info,
    type and types. *)
Definition sameIdentity (d b : ArchimedDoctor) : Prop :=
  id d = id b /\ name d = name b /\ name1 d = name1 b /\ name2 d = name2 b
  /\ code d = code b /\ max_time d = max_time b /\ phone d = phone b
  /\ snils d = snils b /\ zone_id d = zone_id b /\ zone d = zone b
  /\ branch_id d = branch_id b /\ branch d = branch b
  /\ category_id d = category_id b
  /\ scientific_degree_id d = scientific_degree_id b
  /\ user_id d = user_id b /\ address d = address b
  /\ building_name d = building_name b
  /\ building_web_name d = building_web_name b
  /\ primary_type_id d = primary_type_id b.

(** Sample records. *)
Definition doctorNamed (i : Z) (n n1 n2 t : string) : ArchimedDoctor :=
  {| id := i;
     name := FStr (utf8 n); name1 := FStr (utf8 n1); name2 := FStr (utf8 n2);
     type := FStr (utf8 t);
     code := []; max_time := utf8 "30"; phone := []; snils := [];
     info := FStr [];
     zone_id := 0; zone := []; branch_id := 0; branch := [];
     category_id := 0; category := FUndefined;
     scientific_degree_id := 0; scientific_degree := FUndefined;
     user_id := 0; photo := FNull;
     address := []; building_name := []; building_web_name := [];
     primary_type_id := 0; types := None |}.

Definition withPhoto (p : string) (d : ArchimedDoctor) : ArchimedDoctor :=
  {| id := id d; name := name d; name1 := name1 d; name2 := name2 d;
     type := type d; code := code d; max_time := max_time d; phone := phone d;
     snils := snils d; info := info d; zone_id := zone_id d; zone := zone d;
     branch_id := branch_id d; branch := branch d;
     category_id := category_id d; category := category d;
     scientific_degree_id := scientific_degree_id d;
     scientific_degree := scientific_degree d; user_id := user_id d;
     photo := FStr (utf8 p);
     address := address d; building_name := building_name d;
     building_web_name := building_web_name d;
     primary_type_id := primary_type_id d; types := types d |}.

Definition ivanov : ArchimedDoctor :=
  doctorNamed 1 "Иванов" "Иван" "Иванович" "Терапевт".
(** The same person with a space after the family name. *)
Definition ivanovPadded : ArchimedDoctor :=
  doctorNamed 100000 "Иванов " "Иван" "Иванович" "Терапевт".
(** The same name under another specialty. *)
Definition ivanovSurgeon : ArchimedDoctor :=
  doctorNamed 100001 "Иванов" "Иван" "Иванович" "Хирург".
Definition petrova : ArchimedDoctor :=
  doctorNamed 2 "Петрова" "Анна" "Сергеевна" "Хирург".
Definition sidorov : ArchimedDoctor :=
  doctorNamed 4 "Сидоров" "Пётр" "Ильич" "Невролог".
(** The blacklisted name. *)
Definition khorbaa : ArchimedDoctor :=
  doctorNamed 3 "Хорбаа" "Анжела" "Тарасовна" "Терапевт".

(** No record of the list is blacklisted. *)
Definition clean (l : list ArchimedDoctor) : Prop :=
  Forall (fun d => isBlacklisted d = false) l.

(** A call that has resolved did so with a list free of blacklisted
    records and left such a cache. *)
Definition resolvesClean (x : State * Progress) : Prop :=
  match snd x with
  | Resolved result _ => clean result /\ clean (doctorsCache (fst x))
  | Pending _ => True
  end.

(** *** Pagination *)

Definition firstPage (w : World) : settled PageResponse :=
  requestPage w 1 DEFAULT_API_PAGE_LIMIT.

(** The limit that the requests after the first carry and that a page is
    measured against: the first response's, or the default. *)
Definition pageLimit (w : World) : Z :=
  match firstPage w with
  | Fulfilled first => default DEFAULT_API_PAGE_LIMIT (page_limit first)
  | Rejected _ => DEFAULT_API_PAGE_LIMIT
  end.

(** The number of pages that the first response announces. *)
Definition totalPagesOf (w : World) : Z :=
  match firstPage w with
  | Fulfilled first =>
      let total := default (default 0 (dataLength (page_data first))) (page_total first) in
      let all := default [] (dataArray (page_data first)) in
      if 0 <? pageLimit w
      then ceilDiv (if total =? 0 then Z.of_nat (length all) else total) (pageLimit w)
      else 1
  | Rejected _ => 0
  end.

(** The response to the request for page [p] as fetchAllDoctorsFromAPI
    sends it. *)
Definition pageResponse (w : World) (p : Z) : settled PageResponse :=
  requestPage w p (if p =? 1 then DEFAULT_API_PAGE_LIMIT else pageLimit w).

(** The records page [p] delivers: none when the request fails or [data]
    is not an array. *)
Definition pageRecords (w : World) (p : Z) : list ArchimedDoctor :=
  match pageResponse w p with
  | Fulfilled r => default [] (dataArray (page_data r))
  | Rejected _ => []
  end.

(** Page [p] fails, is empty, or holds fewer records than the limit. *)
Definition endsPaging (w : World) (p : Z) : bool :=
  match pageResponse w p with
  | Fulfilled r =>
      match dataArray (page_data r) with
      | Some ((_ :: _) as ds) => Z.of_nat (length ds) <? pageLimit w
      | _ => true
      end
  | Rejected _ => true
  end.

(** The pages [a], [a+1], ..., [n] of them. *)
Fixpoint pagesFrom (a : Z) (n : nat) : list Z :=
  match n with
  | O => []
  | S n' => a :: pagesFrom (a + 1) n'
  end.

(** *** Sample worlds *)

Definition offline : Z -> Z -> settled PageResponse :=
  fun _ _ => Rejected (utf8 "Failed to fetch").

Definition coldState : State := {| doctorsCache := []; storage := ∅ |}.

(** The gateway answers with an error status, the API cannot be reached,
    the bundled doctors.json holds two doctors and the ProDoctorov
    snapshot a third one. *)
Definition worldGatewayErrorStatus : World :=
  {| has_window := true; now := 1700000000000; storage_full := false;
     VITE_ARCHIMED_API_URL := FUndefined;
     gateway := GatewayResponds false BodyOther;
     api_doctors := offline;
     api_doctor := fun _ => Rejected (utf8 "Failed to fetch");
     prodoctorov := [sidorov];
     local_doctors := LocalArray [ivanov; petrova];
     mockDoctors := [] |}.

(** The connection to the gateway fails. *)
Definition worldGatewayDown : World :=
  {| has_window := true; now := 1700000000000; storage_full := false;
     VITE_ARCHIMED_API_URL := FUndefined;
     gateway := GatewayFails;
     api_doctors := offline;
     api_doctor := fun _ => Rejected (utf8 "Failed to fetch");
     prodoctorov := [];
     local_doctors := LocalArray [ivanov; petrova];
     mockDoctors := [] |}.

(** The first page holds one record, fewer than the limit of 200 it
    echoes, but announces 400 records; the second page holds one more. *)
Definition worldShortFirstPage : World :=
  {| has_window := true; now := 1700000000000; storage_full := false;
     VITE_ARCHIMED_API_URL := FUndefined;
     gateway := GatewayFails;
     api_doctors :=
       fun page _ =>
         if page =? 1 then
           Fulfilled {| page_data := DataArray [ivanov]; page_total := Some 400;
                        page_limit := Some 200 |}
         else if page =? 2 then
           Fulfilled {| page_data := DataArray [petrova]; page_total := Some 400;
                        page_limit := Some 200 |}
         else Rejected (utf8 "Failed to fetch");
     api_doctor := fun _ => Rejected (utf8 "Failed to fetch");
     prodoctorov := [];
     local_doctors := LocalFails;
     mockDoctors := [] |}.

(** The API serves pages of two records and announces three records; the
    first page arrives, the request for the second fails. *)
Definition worldSecondPageFails : World :=
  {| has_window := true; now := 1700000000000; storage_full := false;
     VITE_ARCHIMED_API_URL := FUndefined;
     gateway := GatewayFails;
     api_doctors :=
       fun page _ =>
         if page =? 1 then
           Fulfilled {| page_data := DataArray [ivanov; petrova]; page_total := Some 3;
                        page_limit := Some 2 |}
         else Rejected (utf8 "Failed to fetch");
     api_doctor := fun _ => Rejected (utf8 "Failed to fetch");
     prodoctorov := [];
     local_doctors := LocalFails;
     mockDoctors := [] |}.

(** A service whose cache and storage hold the three doctors of an
    earlier, complete fetch. *)
Definition warmState : State :=
  {| doctorsCache := [ivanov; petrova; sidorov];
     storage :=
       {[ DOCTORS_CACHE_KEY :=
            RawJSON (VObject (VArray [ivanov; petrova; sidorov]) (Some 1690000000000)) ]} |}.

(** The gateway answers with an error status and the API returns two
    doctors, one of them blacklisted. *)
Definition worldBlacklistedOnApi : World :=
  {| has_window := true; now := 1700000000000; storage_full := false;
     VITE_ARCHIMED_API_URL := FUndefined;
     gateway := GatewayResponds false BodyOther;
     api_doctors :=
       fun page _ =>
         if page =? 1 then
           Fulfilled {| page_data := DataArray [khorbaa; ivanov]; page_total := Some 2;
                        page_limit := Some 200 |}
         else Rejected (utf8 "Failed to fetch");
     api_doctor := fun _ => Fulfilled khorbaa;
     prodoctorov := [petrova];
     local_doctors := LocalArray [ivanov; petrova];
     mockDoctors := [] |}.

(** A slot written at the epoch: the data is an array and the timestamp
    is the number 0. *)
Definition storeStampedZero : gmap string stored :=
  {[ DOCTORS_CACHE_KEY := RawJSON (VObject (VArray [ivanov]) (Some 0)) ]}.

(** *** The scraper *)

Definition itemKey (item : Scraper.Item) : jsstring :=
  Scraper.normalizeName (Scraper.fullName item).

(** [byName] refers to items of [results] under their own keys, and every
    item of [results] has its key in [byName]. *)
Definition wellIndexed (run : Scraper.Run) : Prop :=
  (forall k i, Scraper.byName run !! k = Some i ->
     exists item, Scraper.results run !! i = Some item /\ itemKey item = k)
  /\ (forall item, item ∈ Scraper.results run ->
        is_Some (Scraper.byName run !! itemKey item)).

(** What one file does to the list: nothing, or an item is appended
    under a key that no item had, or one item is replaced by an item with
    the same name. *)
Inductive FileEffect (run : Scraper.Run) (filename : jsstring) (run' : Scraper.Run)
    : Prop :=
  | Skipped : run' = run -> FileEffect run filename run'
  | Appended (item : Scraper.Item) :
      Scraper.results run' = Scraper.results run ++ [item] ->
      Scraper.byName run'
      = <[itemKey item := length (Scraper.results run)]> (Scraper.byName run) ->
      Scraper.byName run !! itemKey item = None ->
      Scraper.fullName item = FStr (fst (Scraper.splitNameAndSpecialty filename)) ->
      fst (Scraper.splitNameAndSpecialty filename) <> [] ->
      Scraper.photo item = FStr (Scraper.photoPathOf filename) ->
      FileEffect run filename run'
  | Updated (pos : nat) (item item' : Scraper.Item) :
      Scraper.results run !! pos = Some item ->
      Scraper.results run' = <[pos := item']> (Scraper.results run) ->
      Scraper.byName run' = Scraper.byName run ->
      Scraper.fullName item' = Scraper.fullName item ->
      Scraper.photo item'
      = (if Scraper.hasNoPhoto item then FStr (Scraper.photoPathOf filename)
         else Scraper.photo item) ->
      FileEffect run filename run'.

(** Sample snapshot entries and file names. *)
Definition entry (n p : string) : Scraper.Item :=
  {| Scraper.fullName := FStr (utf8 n); Scraper.specialty := FStr (utf8 "Терапевт");
     Scraper.photo := FStr (utf8 p);
     Scraper.category := FUndefined; Scraper.scientific_degree := FUndefined;
     Scraper.experienceStartYear := None; Scraper.extraSpecialties := None |}.

Definition sampleSnapshot : list Scraper.Item :=
  [ entry "Иванов Иван Иванович" "https://prodoctorov.ru/media/photo/ivanov.jpg";
    entry "Петрова Анна Сергеевна" "https://prodoctorov.ru/static/no-avatar.svg" ].

Definition sampleDir : list (jsstring * bool) :=
  [ (utf8 "Иванов Иван Иванович - терапевт.jpg", true);
    (utf8 "Петрова Анна Сергеевна - хирург.png", true);
    (utf8 "Сидоров Пётр Ильич - невролог.webp", true);
    (utf8 "readme.txt", true) ].

End Vocabulary.

Import Archimed Vocabulary.

(* ===================================================================== *)
(** ** More of JavaScript: numbers as text, literal search *)
(* ===================================================================== *)

Module JsText.

Fixpoint uintChars (d : Decimal.uint) : jsstring :=
  match d with
  | Decimal.Nil => []
  | Decimal.D0 r => 48%N :: uintChars r
  | Decimal.D1 r => 49%N :: uintChars r
  | Decimal.D2 r => 50%N :: uintChars r
  | Decimal.D3 r => 51%N :: uintChars r
  | Decimal.D4 r => 52%N :: uintChars r
  | Decimal.D5 r => 53%N :: uintChars r
  | Decimal.D6 r => 54%N :: uintChars r
  | Decimal.D7 r => 55%N :: uintChars r
  | Decimal.D8 r => 56%N :: uintChars r
  | Decimal.D9 r => 57%N :: uintChars r
  end.

(** [String(n)], [`${n}`] and [n.toString()] for a safe integer [n]:
    below 2^53 in absolute value, where every integer is a number of
    JavaScript and is printed digit by digit. *)
Definition showZ (n : Z) : jsstring :=
  match Z.to_int n with
  | Decimal.Pos d => uintChars d
  | Decimal.Neg d => 45%N :: uintChars d
  end.

Fixpoint takeWhile (p : N -> bool) (s : jsstring) : jsstring :=
  match s with
  | [] => []
  | c :: r => if p c then c :: takeWhile p r else []
  end.

(** [s.startsWith(pat)] *)
Definition startsWith (pat s : jsstring) : bool :=
  bool_decide (take (length pat) s = pat).

(** [s.split(c)] for a separator of one code unit. *)
Fixpoint splitOn_go (c : N) (cur : jsstring) (s : jsstring) : list jsstring :=
  match s with
  | [] => [rev cur]
  | x :: r =>
      if (x =? c)%N then rev cur :: splitOn_go c [] r
      else splitOn_go c (x :: cur) r
  end.

Definition splitOn (c : N) (s : jsstring) : list jsstring := splitOn_go c [] s.

(** [s.replace(/ab/g, to)] for a pattern of two literal code units;
    [skip] says that the code unit at hand is the second one of a match. *)
Fixpoint replacePair (a b : N) (to : jsstring) (skip : bool) (s : jsstring) : jsstring :=
  match s with
  | [] => []
  | x :: r =>
      if skip then replacePair a b to false r
      else
        match r with
        | y :: _ =>
            if ((x =? a) && (y =? b))%N then to ++ replacePair a b to true r
            else x :: replacePair a b to false r
        | [] => [x]
        end
  end.

End JsText.

(* ===================================================================== *)
(** ** src/services/archimed.ts: the ProDoctorov snapshot (lines 438-510) *)
(* ===================================================================== *)

Module Prodoctorov.

Import JsText.

(** What [import('../data/prodoctorov.json')] gives: the items have the
    type of an item of [prodoctorov.json]. *)
Inductive SnapshotModule :=
  | ImportFails
  | RawArray (items : list Scraper.Item)
  | RawData (items : list Scraper.Item)     (* an object whose [data] is an array *)
  | RawOther.

(** [list[i] ?? '']: the destructuring defaults. *)
Definition nthOrEmpty (i : nat) (l : list jsstring) : jsstring := default [] (l !! i).

(** [mapProdoctorovToArchimed(item, index)]; [None] when it throws, which
    it does when [item.fullName] is not a string. *)
Definition mapProdoctorovToArchimed (item : Scraper.Item) (index : Z)
    : option ArchimedDoctor :=
  match Scraper.fullName item with
  | FStr fullName =>
      let parts := splitRuns isSpace fullName in
      let lastName := nthOrEmpty 0 parts in
      let firstName := nthOrEmpty 1 parts in
      let middleName := nthOrEmpty 2 parts in
      let typeName :=
        if truthy (Scraper.specialty item) then orEmpty (Scraper.specialty item)
        else utf8 "Врач" in
      let defaultCategory :=
        if truthy (Scraper.category item) then orEmpty (Scraper.category item)
        else typeName in
      let degree :=
        if truthy (Scraper.scientific_degree item)
        then orEmpty (Scraper.scientific_degree item)
        else utf8 "Без степени" in
      let extraTypes := default [] (Scraper.extraSpecialties item) in
      let experienceInfo :=
        match Scraper.experienceStartYear item with
        | Some year =>
            if year =? 0 then []
            else utf8 "Врачебный стаж с " ++ showZ year ++ utf8 " г."
        | None => []
        end in
      let extraInfo :=
        match extraTypes with
        | [] => []
        | _ :: _ => utf8 "Смежные специальности: " ++ join (utf8 ", ") extraTypes
        end in
      Some
        {| id := 100000 + index;
           name := FStr lastName;
           name1 := FStr firstName;
           name2 := FStr middleName;
           type := FStr typeName;
           code := [];
           max_time := utf8 "30";
           phone := [];
           snils := [];
           info := FStr (join [10%N] (List.filter nonEmpty [experienceInfo; extraInfo]));
           zone_id := 0;
           zone := [];
           branch_id := 0;
           branch := utf8 "Клиника Алдан";
           category_id := 0;
           category := FStr defaultCategory;
           scientific_degree_id := 0;
           scientific_degree := FStr degree;
           user_id := 0;
           photo := if truthy (Scraper.photo item) then Scraper.photo item else FNull;
           address := utf8 "г. Кызыл, ул. Ленина, 60";
           building_name := utf8 "Поликлиника №1";
           building_web_name := utf8 "Поликлиника №1";
           primary_type_id := 0;
           types :=
             Some ({| type_id := 0; type_name := typeName |}
                   :: List.map (fun p => {| type_id := fst p + 1; type_name := snd p |})
                        (indexed 0 extraTypes)) |}
  | _ => None
  end.

(** [list.map((item, idx) => this.mapProdoctorovToArchimed(item, idx))]: it
    throws as soon as one item does. *)
Fixpoint mapAll (index : Z) (items : list Scraper.Item) : option (list ArchimedDoctor) :=
  match items with
  | [] => Some []
  | item :: rest =>
      match mapProdoctorovToArchimed item index with
      | Some d =>
          match mapAll (index + 1) rest with
          | Some ds => Some (d :: ds)
          | None => None
          end
      | None => None
      end
  end.

(** [loadProdoctorovSnapshot()]: it never rejects. *)
Definition loadProdoctorovSnapshot (m : SnapshotModule) : list ArchimedDoctor :=
  match m with
  | ImportFails => []
  | RawArray items | RawData items => default [] (mapAll 0 items)
  | RawOther => []
  end.

End Prodoctorov.

(* ===================================================================== *)
(** ** src/services/archimed.ts: requests, services, appointments *)
(* ===================================================================== *)

Module Remote.

Import JsText.

(** What [fetch] does with one request: it rejects with an error of some
    name and message, or it responds with a status, a body as text and the
    outcome of reading the body as JSON. *)
Inductive FetchOutcome (J : Type) :=
  | FetchRejects (errorName : field) (message : jsstring)
  | FetchResponds (ok : bool) (status : Z) (text : jsstring) (json : settled J).
Arguments FetchRejects {J} errorName message.
Arguments FetchResponds {J} ok status text json.

(** [request<T>(endpoint, options)] (lines 92-127) for a given outcome of
    its [fetch]. *)
Definition request {J} (baseUrl : jsstring) (hasWindow : bool)
    (outcome : FetchOutcome J) : settled J :=
  if isEmptyStr baseUrl then Rejected (utf8 "ARCHIMED_API_URL not configured")
  else if negb hasWindow then Rejected (utf8 "window is not defined")
  else
    match outcome with
    | FetchRejects errorName message =>
        if bool_decide (errorName = FStr (utf8 "AbortError"))
        then Rejected (utf8 "Request timeout")
        else Rejected message
    | FetchResponds ok status text json =>
        if ok then json
        else Rejected (utf8 "Archimed API error: " ++ showZ status ++ utf8 " - " ++ text)
    end.

(** The JSON of [/services]: [null], or an object whose [data] is an array
    of services ([Some]) or is missing. *)
Inductive ServicesBody :=
  | ServicesNull
  | ServicesObject (data : option (list ApiService)).

(** What one call of [getServices] leaves behind. *)
Record ServicesResult := {
  servicesCache : list ApiService;          (* [this.servicesCache] afterwards *)
  resolved : list ApiService;               (* the list the call resolves with *)
  written : option (list ApiService);       (* what it wrote under SERVICES_CACHE_KEY *)
  refreshStarted : bool
}.

(** [getServices()] (lines 287-311), from the cache it finds, what
    [readFromStorage] returns for the services slot, the outcome of
    [request('/services')] and the mock list. *)
Definition getServices (cache : list ApiService) (fromStorage : option (list ApiService))
    (response : settled ServicesBody) (mockServices : list ApiService)
    : ServicesResult :=
  match cache with
  | _ :: _ =>
      {| servicesCache := cache; resolved := cache; written := None;
         refreshStarted := true |}
  | [] =>
      match fromStorage with
      | Some ((_ :: _) as stored) =>
          {| servicesCache := stored; resolved := stored; written := None;
             refreshStarted := true |}
      | _ =>
          match response with
          | Fulfilled (ServicesObject data) =>
              let fresh := default [] data in
              {| servicesCache := fresh; resolved := fresh; written := Some fresh;
                 refreshStarted := false |}
          | Fulfilled ServicesNull | Rejected _ =>
              {| servicesCache := mockServices; resolved := mockServices;
                 written := Some mockServices; refreshStarted := false |}
          end
      end
  end.

(** [refreshServices()] (lines 640-653): the cache afterwards and what was
    written. *)
Definition refreshServices (cache : list ApiService) (response : settled ServicesBody)
    : list ApiService * option (list ApiService) :=
  match response with
  | Fulfilled (ServicesObject (Some ((_ :: _) as data))) => (data, Some data)
  | _ => (cache, None)
  end.

(** The filters of [getAppointments]; [None] is a filter left out. *)
Record AppointmentFilters := {
  doctorId : option Z;
  serviceId : option Z;
  statusId : option Z;
  page : option Z;
  limit : option Z
}.

(** [if (filters?.x) params.append(name, filters.x.toString())] *)
Definition param (name : string) (value : option Z) : list jsstring :=
  match value with
  | Some v => if v =? 0 then [] else [utf8 name ++ utf8 "=" ++ showZ v]
  | None => []
  end.

(** The endpoint that [getAppointments(filters)] requests (lines 705-714). *)
Definition appointmentsEndpoint (filters : option AppointmentFilters) : jsstring :=
  let params :=
    match filters with
    | Some f =>
        param "doctor_id" (doctorId f) ++ param "service_id" (serviceId f)
        ++ param "status_id" (statusId f) ++ param "page" (page f)
        ++ param "limit" (limit f)
    | None => []
    end in
  let queryString := join (utf8 "&") params in
  if nonEmpty queryString then utf8 "/talons?" ++ queryString else utf8 "/talons".

End Remote.

(* ===================================================================== *)
(** ** The HTML scraper *)
(* ===================================================================== *)

Module HtmlScraper.

Import JsText.

Record Photo := { photo_name : jsstring; photo_url : jsstring }.

(** [[a-zA-Z0-9_:\-]] *)
Definition isAttrNameChar (c : N) : bool :=
  ((97 <=? c) && (c <=? 122) || (65 <=? c) && (c <=? 90)
   || (48 <=? c) && (c <=? 57) || (c =? 95) || (c =? 58) || (c =? 45))%N.

Definition isQuote (c : N) : bool := ((c =? 34) || (c =? 39))%N.

(** [attrsRe] at the start of [s]: a run of name characters, [=], and a
    value between two double or two single quotes.  The name, the value
    and the length of the match. *)
Definition attrAt (s : jsstring) : option (jsstring * jsstring * nat) :=
  let key := takeWhile isAttrNameChar s in
  match key with
  | [] => None
  | _ :: _ =>
      match drop (length key) s with
      | e :: q :: rest =>
          if (e =? 61)%N && isQuote q then
            let val := takeWhile (fun c => negb (c =? q)%N) rest in
            match drop (length val) rest with
            | _ :: _ => Some (key, val, (length key + 2 + length val + 1)%nat)
            | [] => None
            end
          else None
      | _ => None
      end
  end.

(** [while ((a = attrsRe.exec(tag)) !== null)]: the matches from left to
    right; [skip] code units still belong to the match before. *)
Fixpoint attrs_go (skip : nat) (s : jsstring) : list (jsstring * jsstring) :=
  match s with
  | [] => []
  | _ :: r =>
      match skip with
      | S k => attrs_go k r
      | O =>
          match attrAt s with
          | Some (key, val, len) => (key, val) :: attrs_go (len - 1) r
          | None => attrs_go 0 r
          end
      end
  end.

(** [attrs[key]] after the assignments [attrs[key] = val] in order. *)
Definition attr (key : string) (attrs : list (jsstring * jsstring)) : option jsstring :=
  last (List.map snd (List.filter (fun kv => bool_decide (fst kv = utf8 key)) attrs)).

(** [class="b-profile-card__img"] *)
Definition CARD_CLASS : jsstring :=
  utf8 "class=" ++ [34%N] ++ utf8 "b-profile-card__img" ++ [34%N].

(** [imgRe] at the start of [s]: [<img], then no [>] up to and after the
    class attribute, then the first [>]. *)
Definition tagAt (s : jsstring) : option jsstring :=
  if startsWith (utf8 "<img") s then
    let rest := drop 4 s in
    let inside := takeWhile (fun c => negb (c =? 62)%N) rest in
    match drop (length inside) rest with
    | _ :: _ =>
        if anywhere (startsWith CARD_CLASS) inside
        then Some (utf8 "<img" ++ inside ++ utf8 ">")
        else None
    | [] => None
    end
  else None.

Fixpoint tags_go (skip : nat) (s : jsstring) : list jsstring :=
  match s with
  | [] => []
  | _ :: r =>
      match skip with
      | S k => tags_go k r
      | O =>
          match tagAt s with
          | Some tag => tag :: tags_go (length tag - 1) r
          | None => tags_go 0 r
          end
      end
  end.

Definition photoOfTag (tag : jsstring) : list Photo :=
  let attrs := attrs_go 0 tag in
  let src := default [] (attr "src" attrs) in
  let title := default [] (attr "title" attrs) in
  let alt := default [] (attr "alt" attrs) in
  if nonEmpty src && (nonEmpty title || nonEmpty alt) then
    let name := if nonEmpty title then title else trim (hd [] (splitOn 44%N alt)) in
    let url :=
      if startsWith (utf8 "http") src then src
      else utf8 "https://prodoctorov.ru" ++ src in
    [{| photo_name := name; photo_url := url |}]
  else [].

Definition extractPhotos (html : jsstring) : list Photo :=
  flat_map photoOfTag (tags_go 0 html).

(** The pattern of the second [replace] is the two code units U+0E31
    U+0091 and its replacement U+0E30 U+0E15, as the file has them. *)
Definition normalizeName (s : field) : jsstring :=
  trim (replaceRuns isSpace false
          (replacePair 3633 145 [3632; 3605]%N false (toLowerCase (orEmpty s)))).

(** [new Map(photos.map((p) => [normalizeName(p.name), p.url]))] *)
Definition nameToPhoto (photos : list Photo) : gmap jsstring jsstring :=
  fold_left (fun m p => <[normalizeName (FStr (photo_name p)) := photo_url p]> m)
    photos ∅.

(** [data.map((item) => ...)] of [run]: the items as they are written
    back. *)
Definition updatePhotos (photos : list Photo) (data : list Scraper.Item)
    : list Scraper.Item :=
  List.map
    (fun item =>
       match nameToPhoto photos !! normalizeName (Scraper.fullName item) with
       | Some url =>
           if nonEmpty url then Scraper.setPhoto (FStr url) item else item
       | None => item
       end)
    data.

Definition run (html : jsstring) (data : list Scraper.Item) : list Scraper.Item :=
  updatePhotos (extractPhotos html) data.

End HtmlScraper.

(* ===================================================================== *)
(** ** Further vocabulary *)
(* ===================================================================== *)

Module Terms.

(** The record with [f] applied to its three name parts. *)
Definition mapNames (f : jsstring -> jsstring) (d : ArchimedDoctor) : ArchimedDoctor :=
  {| id := id d;
     name := FStr (f (orEmpty (name d)));
     name1 := FStr (f (orEmpty (name1 d)));
     name2 := FStr (f (orEmpty (name2 d)));
     type := type d; code := code d; max_time := max_time d; phone := phone d;
     snils := snils d; info := info d; zone_id := zone_id d; zone := zone d;
     branch_id := branch_id d; branch := branch d;
     category_id := category_id d; category := category d;
     scientific_degree_id := scientific_degree_id d;
     scientific_degree := scientific_degree d; user_id := user_id d;
     photo := photo d;
     address := address d; building_name := building_name d;
     building_web_name := building_web_name d;
     primary_type_id := primary_type_id d; types := types d |}.

(** The small letter for a capital letter of the Latin or of the Russian
    alphabet; every other code unit as it is. *)
Definition smallLetter (c : N) : N :=
  if ((65 <=? c) && (c <=? 90) || (1040 <=? c) && (c <=? 1071))%N then (c + 32)%N
  else if (c =? 1025)%N then 1105%N
  else c.

(** Text whose lower-casing goes code unit by code unit: it holds no
    surrogate, no dotted capital I (U+0130) and no capital sigma
    (U+03A3). *)
Definition plainUnit (c : N) : bool :=
  (c <? 65536)%N && negb (isHighSurrogate c || isLowSurrogate c)
  && negb (c =? 304)%N && negb (c =? 931)%N.

Definition plainText (s : jsstring) : bool := forallb plainUnit s.

Definition plainNames (d : ArchimedDoctor) : bool :=
  plainText (orEmpty (name d)) && plainText (orEmpty (name1 d))
  && plainText (orEmpty (name2 d)).

(** The line of [info] that [mapProdoctorovToArchimed] writes for a year
    of first practice. *)
Definition experienceLine (year : Z) : jsstring :=
  utf8 "Врачебный стаж с " ++ JsText.showZ year ++ utf8 " г.".

(** The code units of a printed integer: digits and the minus sign. *)
Definition isNumberChar (c : N) : bool := isDigit c || (c =? 45)%N.

(** The filters with every filter whose value is 0 left out. *)
Definition withoutZeros (f : Remote.AppointmentFilters) : Remote.AppointmentFilters :=
  let drop (v : option Z) :=
    match v with
    | Some 0 => None
    | _ => v
    end in
  {| Remote.doctorId := drop (Remote.doctorId f);
     Remote.serviceId := drop (Remote.serviceId f);
     Remote.statusId := drop (Remote.statusId f);
     Remote.page := drop (Remote.page f);
     Remote.limit := drop (Remote.limit f) |}.

Definition noFilters : Remote.AppointmentFilters :=
  {| Remote.doctorId := None; Remote.serviceId := None; Remote.statusId := None;
     Remote.page := None; Remote.limit := None |}.

(** A scientific degree that says something: after normalisation it is
    neither empty nor the placeholder for no degree. *)
Definition realDegree (v : field) : bool :=
  let n := normalize (FStr (orEmpty v)) in
  nonEmpty n && negb (jsEq n (utf8 "без степени")).

(** The value [g] of the first of [base :: adds] that satisfies [P], and
    that of [base] when none does. *)
Definition firstWith {A} (P : ArchimedDoctor -> bool) (g : ArchimedDoctor -> A)
    (base : ArchimedDoctor) (adds : list ArchimedDoctor) : A :=
  match List.find P (base :: adds) with
  | Some d => g d
  | None => g base
  end.

(** The type names that [mergeOne] materialises: those of [base], then
    the new ones of [add], without the empty name. *)
Definition mergedTypeNames (base add : ArchimedDoctor) : list jsstring :=
  List.filter nonEmpty
    (fold_left
       (fun s n => if nonEmpty n && negb (bool_decide (n ∈ s)) then s ++ [n] else s)
       (typeNames add) (typeNames base)).

(** "The matching extra record only fills in fields", in the spec's
    words: the merged record [d] is the primary record [b] in everything
    that [b] has; [d] may differ from [b] in a string property that [b]
    lacks (undefined, null or empty) and in [types] when [b] has none,
    and its info may go on after that of [b]. *)
Definition filledIn (old new : field) : Prop := new = old \/ truthy old = false.

Definition specOnlyFillsIn (b d : ArchimedDoctor) : Prop :=
  sameIdentity d b
  /\ filledIn (photo b) (photo d)
  /\ filledIn (scientific_degree b) (scientific_degree d)
  /\ filledIn (category b) (category d)
  /\ orEmpty (info b) `prefix_of` orEmpty (info d)
  /\ filledIn (type b) (type d)
  /\ (types d = types b \/ default [] (types b) = []).

End Terms.

Import Terms.

(* ===================================================================== *)
(** ** Terms for the statements about the filename scraper *)
(* ===================================================================== *)

Module ScraperTerms.

Import Scraper.

(** [!item.specialty || String(item.specialty).trim() === ""] *)
Definition blankSpecialty (item : Item) : bool :=
  negb (truthy (specialty item)) || isEmptyStr (trim (orEmpty (specialty item))).

(** The file has nothing left to do in this run: it names nobody, or the
    entry of its name has a photo and, unless the file names no
    specialty, a specialty. *)
Definition settledAt (run : Run) (filename : jsstring) : bool :=
  let '(parsedName, parsedSpecialty) := splitNameAndSpecialty filename in
  isEmptyStr parsedName
  || match byName run !! normalizeName (FStr parsedName) with
     | Some pos =>
         match results run !! pos with
         | Some item =>
             negb (hasNoPhoto item)
             && negb (blankSpecialty item && negb (isEmptyStr parsedSpecialty))
         | None => false
         end
     | None => false
     end.

(** [byName] is the index that a fresh start on [results] builds. *)
Definition indexedAfresh (run : Run) : Prop :=
  byName run = indexByName 0 (results run) ∅.

End ScraperTerms.

(* ===================================================================== *)
(** ** Further sample data *)
(* ===================================================================== *)

Module Samples.

Import Archimed Vocabulary.

(** The gateway answers with two doctors and the API with one. *)
Definition worldGatewayOk : World :=
  {| has_window := true; now := 1700000000000; storage_full := false;
     VITE_ARCHIMED_API_URL := FUndefined;
     gateway := GatewayResponds true (BodyData [ivanov; petrova]);
     api_doctors :=
       fun page _ =>
         if page =? 1 then
           Fulfilled {| page_data := DataArray [sidorov]; page_total := Some 1;
                        page_limit := Some 200 |}
         else Rejected (utf8 "Failed to fetch");
     api_doctor := fun _ => Rejected (utf8 "Failed to fetch");
     prodoctorov := [sidorov];
     local_doctors := LocalFails;
     mockDoctors := [] |}.

(** The API serves five records in pages of two. *)
Definition worldThreePages : World :=
  {| has_window := true; now := 1700000000000; storage_full := false;
     VITE_ARCHIMED_API_URL := FUndefined;
     gateway := GatewayFails;
     api_doctors :=
       fun page _ =>
         let respond ds :=
           Fulfilled {| page_data := DataArray ds; page_total := Some 5;
                        page_limit := Some 2 |} in
         if page =? 1 then respond [ivanov; petrova]
         else if page =? 2 then respond [sidorov; khorbaa]
         else if page =? 3 then respond [ivanovSurgeon]
         else respond [];
     api_doctor := fun _ => Rejected (utf8 "Failed to fetch");
     prodoctorov := [];
     local_doctors := LocalFails;
     mockDoctors := [] |}.

(** The first response holds a string of five code units where the
    records should be, and a limit of two; the later pages hold one
    record each. *)
Definition worldDataNotArray : World :=
  {| has_window := true; now := 1700000000000; storage_full := false;
     VITE_ARCHIMED_API_URL := FUndefined;
     gateway := GatewayFails;
     api_doctors :=
       fun page _ =>
         if page =? 1 then
           Fulfilled {| page_data := DataOther (Some 5); page_total := None;
                        page_limit := Some 2 |}
         else
           Fulfilled {| page_data := DataArray [sidorov]; page_total := None;
                        page_limit := Some 2 |};
     api_doctor := fun _ => Rejected (utf8 "Failed to fetch");
     prodoctorov := [];
     local_doctors := LocalFails;
     mockDoctors := [] |}.

(** A snapshot item with a year of first practice, and the record it is
    mapped to. *)
Definition veteran : Scraper.Item :=
  {| Scraper.fullName := FStr (utf8 "Петрова Анна Сергеевна");
     Scraper.specialty := FStr (utf8 "Хирург");
     Scraper.photo := FUndefined;
     Scraper.category := FUndefined; Scraper.scientific_degree := FUndefined;
     Scraper.experienceStartYear := Some 2005; Scraper.extraSpecialties := None |}.

Definition veteranDoctor : ArchimedDoctor :=
  default petrova (Prodoctorov.mapProdoctorovToArchimed veteran 0).

(** No window: the service runs outside a browser. *)
Definition worldServerSide : World :=
  {| has_window := false; now := 1700000000000; storage_full := false;
     VITE_ARCHIMED_API_URL := FUndefined;
     gateway := GatewayResponds true (BodyData [sidorov]);
     api_doctors :=
       fun _ _ =>
         Fulfilled {| page_data := DataArray [sidorov]; page_total := Some 1;
                      page_limit := Some 200 |};
     api_doctor := fun _ => Fulfilled sidorov;
     prodoctorov := [];
     local_doctors := LocalArray [ivanov; petrova];
     mockDoctors := [] |}.

(** A page with two cards, the second with a relative address and its
    name in [alt], and an image that is not a card. *)
Definition samplePage : jsstring :=
  let q := [34%N] in
  utf8 "<div><img class=" ++ q ++ utf8 "b-profile-card__img" ++ q
  ++ utf8 " src=" ++ q ++ utf8 "https://cdn.example/ivanov.jpg" ++ q
  ++ utf8 " title=" ++ q ++ utf8 "Иванов Иван Иванович" ++ q ++ utf8 ">"
  ++ utf8 "<img src='/media/petrova.png' alt='Петрова Анна Сергеевна, хирург' class="
  ++ q ++ utf8 "b-profile-card__img" ++ q ++ utf8 "/>"
  ++ utf8 "<img src=" ++ q ++ utf8 "/logo.png" ++ q ++ utf8 " alt=" ++ q
  ++ utf8 "logo" ++ q ++ utf8 "></div>".

(** A mock list of services. *)
Definition sampleMockServices : list ApiService :=
  [ {| service_id := 1; service_name := FStr (utf8 "Консультация терапевта");
       group_name := FStr (utf8 "Терапия") |} ].

End Samples.

Import Samples ScraperTerms.

(** The case analysis of the slow paths of getDoctors. *)
Ltac slow_paths w :=
  unfold fallbackApi, fallbackLocal, finish, getDoctors_resume;
  repeat (cbn [fst snd setCache storage doctorsCache negb];
          match goal with
          | |- context [gateway w] => destruct (gateway w) as [|[|] [|?|?|]]
          | |- context [local_doctors w] => destruct (local_doctors w)
          | |- context [prodoctorov w] => destruct (prodoctorov w)
          | |- context [if ?a <? ?b then _ else _] => destruct (a <? b)
          | |- context [fetched (fetchAllDoctorsFromAPI w)] =>
              destruct (fetched (fetchAllDoctorsFromAPI w))
          | |- context [match ?l with [] => _ | _ :: _ => _ end] =>
              is_var l; destruct l
          end).
(* ===================================================================== *)
(** ** The definitions on concrete inputs *)
(* ===================================================================== *)

Example makeNameKey_example :
  makeNameKey (doctorNamed 7 " Ёлкин " "ИВАН" "" "Терапевт") = utf8 "елкин|иван|".
Proof. by vm_compute. Qed.

Example copy_makeKey_example :
  ArchimedCopy.makeKey (doctorNamed 7 " Ёлкин " "ИВАН" "" "Терапевт")
  = utf8 " ёлкин |иван||терапевт".
Proof. by vm_compute. Qed.

Example makeFullName_example :
  makeFullName (doctorNamed 7 "Хорбаа," "Анжела" "  Тарасовна " "Терапевт")
  = utf8 "хорбаа анжела тарасовна".
Proof. by vm_compute. Qed.

Example tokenize_example :
  tokenize (FStr (utf8 "  Врач-терапевт   Ёлка ")) = [utf8 "врач-терапевт"; utf8 "елка"].
Proof. by vm_compute. Qed.

Example mentionsExperience_example :
  mentionsExperience (utf8 "Врачебный стаж  с 1999 г.") = true
  /\ mentionsExperience (utf8 "стаж с 199 г.") = false.
Proof. split; by vm_compute. Qed.

Example splitRuns_example :
  splitRuns isNewline [97; 10; 10; 98; 10]%N = [[97]; [98]; []]%N.
Proof. by vm_compute. Qed.

Example mergeOne_example :
  let merged :=
    mergeOne (doctorNamed 1 "Иванов" "Иван" "Иванович" "Терапевт")
      (withPhoto "/img/i.jpg" (doctorNamed 100000 "иванов" "иван" "иванович" "Хирург")) in
  id merged = 1
  /\ photo merged = FStr (utf8 "/img/i.jpg")
  /\ type merged = FStr (utf8 "терапевт")
  /\ types merged
     = Some [ {| type_id := 0; type_name := utf8 "терапевт" |};
              {| type_id := 1; type_name := utf8 "хирург" |} ].
Proof. split_and!; by vm_compute. Qed.

Example fetchAll_offline_example :
  fetchAllDoctorsFromAPI worldGatewayDown = {| fetched := []; requested := [1] |}.
Proof. by vm_compute. Qed.

Example splitNameAndSpecialty_example :
  Scraper.splitNameAndSpecialty (utf8 "Иванов Иван - терапевт.jpg")
  = (utf8 "Иванов Иван", utf8 "терапевт")
  /\ Scraper.splitNameAndSpecialty (utf8 "Иванов Иван- хирург.v2.png")
     = (utf8 "Иванов Иван", utf8 "хирург.v2")
  /\ Scraper.splitNameAndSpecialty (utf8 "Иванов.") = (utf8 "Иванов.", []).
Proof. split_and!; by vm_compute. Qed.

Example processImages_example :
  List.map Scraper.photo (Scraper.results (Scraper.processImages sampleSnapshot sampleDir))
  = [ FStr (utf8 "https://prodoctorov.ru/media/photo/ivanov.jpg");
      FStr (utf8 "/img_doctors/Петрова Анна Сергеевна - хирург.png");
      FStr (utf8 "/img_doctors/Сидоров Пётр Ильич - невролог.webp") ].
Proof. by vm_compute. Qed.

Section JsMapFacts.

Context {V : Type}.
Implicit Types (m : jsmap V) (k : jsstring) (v : V).

Lemma map_get_set_eq m k v : map_get k (map_set k v m) = Some v.
Proof.
  induction m as [|[k' v'] m IH]; simpl.
  - by rewrite bool_decide_eq_true_2.
  - destruct (bool_decide (k' = k)) eqn:E; simpl; rewrite E; auto.
Qed.

Lemma map_get_set_ne m k k' v :
  k <> k' -> map_get k' (map_set k v m) = map_get k' m.
Proof.
  intros Hne. induction m as [|[k0 v0] m IH]; simpl.
  - by rewrite bool_decide_eq_false_2.
  - destruct (bool_decide (k0 = k)) eqn:E; simpl.
    + apply bool_decide_eq_true_1 in E. subst k0.
      by rewrite bool_decide_eq_false_2.
    + by rewrite IH.
Qed.

Lemma map_get_set m k k' v :
  map_get k' (map_set k v m)
  = if bool_decide (k = k') then Some v else map_get k' m.
Proof.
  case_bool_decide as E.
  - subst. apply map_get_set_eq.
  - by apply map_get_set_ne.
Qed.

Lemma map_get_None_keys m k : map_get k m = None <-> k ∉ map_keys m.
Proof.
  induction m as [|[k' v'] m IH]; simpl.
  - split; [intros _; apply not_elem_of_nil | done].
  - rewrite not_elem_of_cons. case_bool_decide as E.
    + subst. split; [done | intros [? _]; done].
    + rewrite IH. split; [intros ?; split; [congruence | done] | intros [_ ?]; done].
Qed.

Lemma map_get_Some_keys m k : is_Some (map_get k m) <-> k ∈ map_keys m.
Proof.
  rewrite <- not_eq_None_Some, map_get_None_keys.
  split; [apply dec_stable | auto].
Qed.

Lemma map_keys_set m k v :
  map_keys (map_set k v m)
  = if bool_decide (k ∈ map_keys m) then map_keys m else map_keys m ++ [k].
Proof.
  induction m as [|[k' v'] m IH]; simpl.
  - done.
  - destruct (bool_decide (k' = k)) eqn:E; simpl.
    + apply bool_decide_eq_true_1 in E. subst.
      rewrite bool_decide_eq_true_2; [done | apply elem_of_cons; auto].
    + apply bool_decide_eq_false_1 in E. rewrite IH.
      destruct (bool_decide (k ∈ map_keys m)) eqn:E2.
      * apply bool_decide_eq_true_1 in E2.
        rewrite bool_decide_eq_true_2; [done | apply elem_of_cons; auto].
      * apply bool_decide_eq_false_1 in E2.
        rewrite bool_decide_eq_false_2; [done |].
        rewrite elem_of_cons. intros [?|?]; congruence.
Qed.

Lemma map_keys_set_elem m k v k' :
  k' ∈ map_keys (map_set k v m) <-> k' = k \/ k' ∈ map_keys m.
Proof.
  rewrite map_keys_set. case_bool_decide as E.
  - split; [auto | intros [->|?]; done].
  - rewrite elem_of_app, list_elem_of_singleton. tauto.
Qed.

Lemma map_keys_set_NoDup m k v :
  NoDup (map_keys m) -> NoDup (map_keys (map_set k v m)).
Proof.
  intros Hnd. rewrite map_keys_set. case_bool_decide as E; [done |].
  apply NoDup_app. split_and!; [done | | apply NoDup_singleton].
  intros x Hx Hx'. apply list_elem_of_singleton in Hx'. by subst.
Qed.

Lemma map_set_same m k v : map_get k m = Some v -> map_set k v m = m.
Proof.
  induction m as [|[k0 v0] m IH]; simpl; [done |].
  case_bool_decide as E.
  - intros [= ->]. done.
  - intros H. by rewrite IH.
Qed.

End JsMapFacts.

Section MergeFacts.

Context {D : Type} (key : D -> jsstring) (f : D -> D -> D).
Hypothesis f_key : forall b a, key (f b a) = key b.
Implicit Types (m : jsmap D) (k : jsstring) (d : D).

Lemma keyedBy_set m k d :
  keyedBy key m -> key d = k -> keyedBy key (map_set k d m).
Proof.
  unfold keyedBy. intros Hm Hk.
  induction m as [|[k0 v0] m IH]; simpl.
  - by repeat constructor.
  - inversion Hm as [|? ? H0 Hm']; subst. case_bool_decide; subst.
    + by constructor.
    + constructor; auto.
Qed.

Lemma keyedBy_values_keys m :
  keyedBy key m -> List.map key (map_values m) = map_keys m.
Proof.
  unfold keyedBy, map_values, map_keys.
  induction 1 as [|[k0 v0] m H0 Hm IH]; simpl in *; congruence.
Qed.

Lemma keyedBy_get m k d : keyedBy key m -> map_get k m = Some d -> key d = k.
Proof.
  unfold keyedBy. induction 1 as [|[k0 v0] m H0 Hm IH]; simpl in *; [done |].
  case_bool_decide; subst; [by intros [= ->] | auto].
Qed.

Lemma values_get m d :
  keyedBy key m -> NoDup (map_keys m) -> d ∈ map_values m ->
  map_get (key d) m = Some d.
Proof.
  unfold keyedBy, map_values, map_keys.
  induction 1 as [|[k0 v0] m H0 Hm IH]; simpl in *.
  - intros _ H. by apply elem_of_nil in H.
  - intros Hnd Hin. apply NoDup_cons in Hnd as [Hk0 Hnd].
    apply elem_of_cons in Hin as [->|Hin].
    + by rewrite bool_decide_eq_true_2.
    + specialize (IH Hnd Hin). rewrite bool_decide_eq_false_2; [done |].
      intros ->. apply Hk0. apply map_get_Some_keys. rewrite IH. by eexists.
Qed.

Lemma get_values m k d : map_get k m = Some d -> d ∈ map_values m.
Proof.
  unfold map_values. induction m as [|[k0 v0] m IH]; simpl; [done |].
  case_bool_decide as E.
  - intros [= ->]. apply elem_of_cons; auto.
  - intros Hg. apply elem_of_cons; auto.
Qed.

(** One step of the second loop. *)
Lemma stepWith_keyed m d : keyedBy key m -> keyedBy key (stepWith key f m d).
Proof.
  intros Hm. unfold stepWith. destruct (map_get (key d) m) as [ex|] eqn:E.
  - apply keyedBy_set; [done |]. rewrite f_key. by eapply keyedBy_get.
  - by apply keyedBy_set.
Qed.

Lemma stepWith_NoDup m d :
  NoDup (map_keys m) -> NoDup (map_keys (stepWith key f m d)).
Proof.
  intros. unfold stepWith. destruct (map_get (key d) m); by apply map_keys_set_NoDup.
Qed.

Lemma stepWith_keys m d k :
  k ∈ map_keys (stepWith key f m d) <-> k = key d \/ k ∈ map_keys m.
Proof.
  unfold stepWith. destruct (map_get (key d) m); apply map_keys_set_elem.
Qed.

Lemma stepWith_get m d k :
  map_get k (stepWith key f m d)
  = if bool_decide (key d = k)
    then Some (match map_get k m with Some ex => f ex d | None => d end)
    else map_get k m.
Proof.
  unfold stepWith. case_bool_decide as E.
  - subst. destruct (map_get (key d) m); apply map_get_set_eq.
  - destruct (map_get (key d) m); by apply map_get_set_ne.
Qed.

(** The whole second loop. *)
Lemma loop_keyed extra m :
  keyedBy key m -> keyedBy key (fold_left (stepWith key f) extra m).
Proof.
  revert m. induction extra as [|d extra IH]; simpl; [done |].
  intros m Hm. apply IH. by apply stepWith_keyed.
Qed.

Lemma loop_NoDup extra m :
  NoDup (map_keys m) -> NoDup (map_keys (fold_left (stepWith key f) extra m)).
Proof.
  revert m. induction extra as [|d extra IH]; simpl; [done |].
  intros m Hm. apply IH. by apply stepWith_NoDup.
Qed.

Lemma loop_keys extra m k :
  k ∈ map_keys (fold_left (stepWith key f) extra m)
  <-> k ∈ map_keys m \/ k ∈ List.map key extra.
Proof.
  revert m. induction extra as [|d extra IH]; simpl; intros m.
  - split; [auto | intros [?|H]; [done | by apply elem_of_nil in H]].
  - rewrite IH, stepWith_keys, elem_of_cons. tauto.
Qed.

Lemma loop_get extra m k :
  map_get k (fold_left (stepWith key f) extra m)
  = match map_get k m with
    | Some b => Some (fold_left f (matching key k extra) b)
    | None =>
        match matching key k extra with
        | [] => None
        | e :: rest => Some (fold_left f rest e)
        end
    end.
Proof.
  revert m. induction extra as [|d extra IH]; simpl; intros m.
  - by destruct (map_get k m).
  - rewrite IH, stepWith_get. unfold matching at 1 3. simpl.
    fold (matching key k extra).
    case_bool_decide as E; [| done].
    by destruct (map_get k m).
Qed.

(** The first loop. *)
Lemma collect_keyed primary m :
  keyedBy key m ->
  keyedBy key (fold_left (fun byName d => map_set (key d) d byName) primary m).
Proof.
  revert m. induction primary as [|d primary IH]; simpl; [done |].
  intros m Hm. apply IH. by apply keyedBy_set.
Qed.

Lemma collect_NoDup primary m :
  NoDup (map_keys m) ->
  NoDup (map_keys (fold_left (fun byName d => map_set (key d) d byName) primary m)).
Proof.
  revert m. induction primary as [|d primary IH]; simpl; [done |].
  intros m Hm. apply IH. by apply map_keys_set_NoDup.
Qed.

Lemma collect_keys primary m k :
  k ∈ map_keys (fold_left (fun byName d => map_set (key d) d byName) primary m)
  <-> k ∈ map_keys m \/ k ∈ List.map key primary.
Proof.
  revert m. induction primary as [|d primary IH]; simpl; intros m.
  - split; [auto | intros [?|H]; [done | by apply elem_of_nil in H]].
  - rewrite IH, map_keys_set_elem, elem_of_cons. tauto.
Qed.

Lemma collect_get primary m k :
  map_get k (fold_left (fun byName d => map_set (key d) d byName) primary m)
  = match last (matching key k primary) with
    | Some d => Some d
    | None => map_get k m
    end.
Proof.
  revert m. induction primary as [|d primary IH]; simpl; intros m; [done |].
  rewrite IH. unfold matching at 1 2. simpl. fold (matching key k primary).
  case_bool_decide as E.
  - subst. destruct (matching key (key d) primary) as [|x l] eqn:El.
    + simpl. apply map_get_set_eq.
    + change (last (d :: x :: l)) with (last (x :: l)).
      destruct (last (x :: l)) eqn:E2; [done |]. by apply last_None in E2.
  - destruct (last (matching key k primary)); [done |]. by apply map_get_set_ne.
Qed.

Lemma matching_elem k l d : d ∈ matching key k l <-> d ∈ l /\ key d = k.
Proof.
  unfold matching. rewrite !list_elem_of_In, filter_In, bool_decide_eq_true. tauto.
Qed.

Lemma matching_nil k l : matching key k l = [] <-> k ∉ List.map key l.
Proof.
  unfold matching. induction l as [|d l IH]; simpl.
  - split; [intros _; apply not_elem_of_nil | done].
  - rewrite not_elem_of_cons. case_bool_decide as E.
    + split; [done | intros [? _]; congruence].
    + rewrite IH. split; [intros; split; [congruence | done] | tauto].
Qed.

End MergeFacts.

(* ===================================================================== *)
(** ** mergeDoctors *)
(* ===================================================================== *)

Lemma mergeOne_key base add : makeNameKey (mergeOne base add) = makeNameKey base.
Proof. reflexivity. Qed.

Lemma mergeOne_identity base add : sameIdentity (mergeOne base add) base.
Proof. repeat split. Qed.

Lemma sameIdentity_trans a b c : sameIdentity a b -> sameIdentity b c -> sameIdentity a c.
Proof. unfold sameIdentity. intros H1 H2. destruct_and!. split_and!; congruence. Qed.

Lemma fold_mergeOne_identity adds base :
  sameIdentity (fold_left mergeOne adds base) base.
Proof.
  revert base. induction adds as [|a adds IH]; simpl; intros base.
  - repeat split.
  - eapply sameIdentity_trans; [apply IH | apply mergeOne_identity].
Qed.

Lemma mergeMap_stepWith primary extra :
  mergeMap primary extra
  = fold_left (stepWith makeNameKey mergeOne) extra
      (fold_left (fun byName d => map_set (makeNameKey d) d byName) primary []).
Proof. reflexivity. Qed.

Lemma mergeMap_keyed primary extra : keyedBy makeNameKey (mergeMap primary extra).
Proof.
  rewrite mergeMap_stepWith. apply loop_keyed; [apply mergeOne_key |].
  apply collect_keyed. constructor.
Qed.

Lemma mergeMap_NoDup primary extra : NoDup (map_keys (mergeMap primary extra)).
Proof.
  rewrite mergeMap_stepWith. apply loop_NoDup, collect_NoDup. constructor.
Qed.

Lemma mergeMap_keys primary extra k :
  k ∈ map_keys (mergeMap primary extra)
  <-> k ∈ List.map makeNameKey primary \/ k ∈ List.map makeNameKey extra.
Proof.
  rewrite mergeMap_stepWith, loop_keys, collect_keys.
  split; [intros [[H|?]|?]; auto; by apply elem_of_nil in H | tauto].
Qed.

Lemma mergeMap_get primary extra k :
  map_get k (mergeMap primary extra)
  = match last (matching makeNameKey k primary) with
    | Some b => Some (fold_left mergeOne (matching makeNameKey k extra) b)
    | None =>
        match matching makeNameKey k extra with
        | [] => None
        | e :: rest => Some (fold_left mergeOne rest e)
        end
    end.
Proof.
  rewrite mergeMap_stepWith, loop_get, collect_get. simpl.
  by destruct (last (matching makeNameKey k primary)).
Qed.

(** The earlier copy's second loop has the same shape: the stored record
    is kept as it is. *)
Lemma copy_step (m : jsmap ArchimedDoctor) d :
  match map_get (ArchimedCopy.makeKey d) m with
  | Some _ => m
  | None => map_set (ArchimedCopy.makeKey d) d m
  end
  = stepWith ArchimedCopy.makeKey (fun existing _ => existing) m d.
Proof.
  unfold stepWith. destruct (map_get (ArchimedCopy.makeKey d) m) eqn:E; [| done].
  symmetry. by apply map_set_same.
Qed.

Lemma copy_mergeDoctors_stepWith primary extra :
  ArchimedCopy.mergeDoctors primary extra
  = map_values
      (fold_left (stepWith ArchimedCopy.makeKey (fun existing _ => existing)) extra
         (fold_left (fun byName d => map_set (ArchimedCopy.makeKey d) d byName) primary [])).
Proof.
  unfold ArchimedCopy.mergeDoctors. f_equal.
  generalize (fold_left (fun m d => map_set (ArchimedCopy.makeKey d) d m) primary []).
  induction extra as [|d extra IH]; simpl; intros m; [done |].
  by rewrite copy_step, IH.
Qed.

Lemma fold_keep {A B} (l : list B) (b : A) : fold_left (fun existing _ => existing) l b = b.
Proof. induction l; simpl; auto. Qed.

Lemma mergeDoctors_pair p e :
  mergeDoctors [p] [e]
  = if bool_decide (makeNameKey p = makeNameKey e) then [mergeOne p e] else [p; e].
Proof.
  unfold mergeDoctors, mergeMap, collectPrimary. cbn [fold_left map_set].
  unfold mergeStep. cbn [map_get].
  case_bool_decide as E; cbn [map_set];
    rewrite ?bool_decide_eq_true_2, ?bool_decide_eq_false_2 by done; done.
Qed.

Lemma copy_mergeDoctors_pair p e :
  ArchimedCopy.mergeDoctors [p] [e]
  = if bool_decide (ArchimedCopy.makeKey p = ArchimedCopy.makeKey e) then [p] else [p; e].
Proof.
  unfold ArchimedCopy.mergeDoctors. cbn [fold_left map_set map_get].
  case_bool_decide as E; cbn [map_set];
    rewrite ?bool_decide_eq_true_2, ?bool_decide_eq_false_2 by done; done.
Qed.

(** C1, as amended.  In [src/services/archimed.ts] an extra record is
    matched with a record collected before it exactly when the two have
    the same [makeNameKey]; that key is made of name, name1 and name2 and
    of nothing else, each part lower-cased, with ё folded to е and
    trimmed, the parts joined by a bar.  The earlier copy of the service
    matches on its own key, which also holds the type. *)
Theorem mergeDoctors_matches_on_makeNameKey :
  (forall primary before add,
      is_Some (map_get (makeNameKey add) (mergeMap primary before))
      <-> exists d, d ∈ primary ++ before /\ makeNameKey d = makeNameKey add)
  /\ (forall p e,
        mergeDoctors [p] [e]
        = if bool_decide (makeNameKey p = makeNameKey e)
          then [mergeOne p e] else [p; e])
  /\ (forall d,
        makeNameKey d
        = trim (foldYo (toLowerCase (orEmpty (name d)))) ++ utf8 "|"
          ++ trim (foldYo (toLowerCase (orEmpty (name1 d)))) ++ utf8 "|"
          ++ trim (foldYo (toLowerCase (orEmpty (name2 d)))))
  /\ (forall d d',
        name d = name d' -> name1 d = name1 d' -> name2 d = name2 d' ->
        makeNameKey d = makeNameKey d')
  /\ (forall p e,
        ArchimedCopy.mergeDoctors [p] [e]
        = if bool_decide (ArchimedCopy.makeKey p = ArchimedCopy.makeKey e)
          then [p] else [p; e]).
Proof.
  split_and!.
  - intros primary before add.
    rewrite map_get_Some_keys, mergeMap_keys, <- elem_of_app, <- map_app.
    rewrite list_elem_of_In, in_map_iff.
    split; intros (d & H1 & H2); exists d; rewrite ?list_elem_of_In in *; auto.
  - apply mergeDoctors_pair.
  - reflexivity.
  - intros d d' H H1 H2. unfold makeNameKey. by rewrite H, H1, H2.
  - apply copy_mergeDoctors_pair.
Qed.

(** C1 as the spec words it fails on both versions: the current one
    matches two records whose lower-cased, ё-folded name parts differ (by
    a trailing space), and the earlier copy keeps apart two records whose
    name parts are the same (their types differ). *)
Lemma mergeDoctors_spec_key_counterexample :
  (specMergeKey ivanovPadded <> specMergeKey ivanov
   /\ mergeDoctors [ivanovPadded] [ivanov] = [mergeOne ivanovPadded ivanov])
  /\ (specMergeKey ivanov = specMergeKey ivanovSurgeon
      /\ ArchimedCopy.mergeDoctors [ivanov] [ivanovSurgeon] = [ivanov; ivanovSurgeon]).
Proof.
  split; split.
  - vm_compute. discriminate.
  - rewrite mergeDoctors_pair. rewrite bool_decide_eq_true_2; [done | by vm_compute].
  - by vm_compute.
  - rewrite copy_mergeDoctors_pair. rewrite bool_decide_eq_false_2; [done |].
    vm_compute. discriminate.
Qed.

(** C6.  When mergeDoctors merges an extra record into a primary record
    with the same key, the merged record keeps the primary's photo whenever
    that photo is a non-empty string, and has the extra's photo only when
    the primary's is undefined, null or the empty string. *)
Theorem mergeDoctors_photo (base add : ArchimedDoctor) :
  makeNameKey base = makeNameKey add ->
  exists merged,
    mergeDoctors [base] [add] = [merged]
    /\ merged = mergeOne base add
    /\ photo merged
       = (if truthy (photo base) then photo base
          else if truthy (photo add) then photo add else photo base)
    /\ (forall s, photo base = FStr s -> s <> [] -> photo merged = photo base)
    /\ (photo merged <> photo base ->
        photo merged = photo add
        /\ (photo base = FUndefined \/ photo base = FNull \/ photo base = FStr [])).
Proof.
  intros Hk. exists (mergeOne base add).
  rewrite mergeDoctors_pair, bool_decide_eq_true_2 by done.
  assert (photo (mergeOne base add)
          = (if truthy (photo base) then photo base
             else if truthy (photo add) then photo add else photo base)) as Hp.
  { unfold mergeOne. cbn [photo].
    destruct (photo base) as [| |[|c s]]; simpl; try done;
      by destruct (truthy (photo add)). }
  split_and!; [done | done | done | |].
  - intros s Hs Hne. rewrite Hp, Hs. destruct s; [done | done].
  - rewrite Hp. destruct (photo base) as [| |[|c s]]; simpl;
      destruct (truthy (photo add)); intros Hd; try done; auto.
Qed.

Lemma mergeDoctors_photo_witness :
  exists merged,
    mergeDoctors [withPhoto "/img/ivanov.jpg" ivanov] [withPhoto "/img/other.jpg" ivanovSurgeon]
    = [merged]
    /\ photo merged = FStr (utf8 "/img/ivanov.jpg").
Proof.
  destruct (mergeDoctors_photo (withPhoto "/img/ivanov.jpg" ivanov)
              (withPhoto "/img/other.jpg" ivanovSurgeon))
    as (merged & H1 & _ & H3 & _); [by vm_compute |].
  exists merged. split; [exact H1 | exact H3].
Defined.

(* ===================================================================== *)
(** ** Linking services with doctors *)
(* ===================================================================== *)

Lemma set_add_elem x s t : t ∈ set_add x s <-> t = x \/ t ∈ s.
Proof.
  unfold set_add. case_bool_decide as E.
  - split; [auto | intros [->|?]; done].
  - rewrite elem_of_app, list_elem_of_singleton. tauto.
Qed.

Lemma mkSet_elem l t : t ∈ mkSet l <-> t ∈ l.
Proof.
  unfold mkSet.
  assert (forall s, t ∈ fold_left (fun s x => set_add x s) l s <-> t ∈ s \/ t ∈ l) as H.
  { induction l as [|x l IH]; simpl; intros s.
    - split; [auto | intros [?|H]; [done | by apply elem_of_nil in H]].
    - rewrite IH, set_add_elem, elem_of_cons. tauto. }
  rewrite H. split; [intros [H0|?]; [by apply elem_of_nil in H0 | done] | auto].
Qed.

Lemma sharesToken_spec a b :
  sharesToken a b = true <-> exists t, t ∈ a /\ t ∈ b.
Proof.
  unfold sharesToken. rewrite existsb_exists.
  split; intros (t & H1 & H2); exists t.
  - apply list_elem_of_In in H1. by apply bool_decide_eq_true in H2.
  - rewrite <- list_elem_of_In. by rewrite bool_decide_eq_true.
Qed.

Lemma sharesToken_sym a b : sharesToken a b = sharesToken b a.
Proof.
  apply eq_true_iff_eq. rewrite !sharesToken_spec.
  split; intros (t & ? & ?); exists t; auto.
Qed.

Lemma servicesWithDoctors_elem ds ss d svc :
  (exists r, r ∈ getServicesWithDoctors ds ss /\ swd_service r = svc /\ d ∈ doctors r)
  <-> d ∈ ds /\ svc ∈ ss /\ sharesToken (docTokens d) (svcTokens svc) = true.
Proof.
  unfold getServicesWithDoctors. split.
  - intros (r & Hr & <- & Hd).
    apply list_elem_of_In, in_map_iff in Hr as (s & <- & Hs). simpl in *.
    apply list_elem_of_In, filter_In in Hd as [Hd Ht].
    rewrite !list_elem_of_In. auto.
  - intros (Hd & Hs & Ht). eexists. split_and!.
    + apply list_elem_of_In, in_map_iff. exists svc.
      split; [reflexivity | by apply list_elem_of_In].
    + done.
    + simpl. apply list_elem_of_In, filter_In. split; [by apply list_elem_of_In | done].
Qed.

Lemma doctorsWithServices_elem ds ss d svc :
  (exists r, r ∈ getDoctorsWithServices ds ss /\ dws_doctor r = d /\ svc ∈ services r)
  <-> d ∈ ds /\ svc ∈ ss /\ sharesToken (docTokens d) (svcTokens svc) = true.
Proof.
  unfold getDoctorsWithServices. split.
  - intros (r & Hr & <- & Hd).
    apply list_elem_of_In, in_map_iff in Hr as (s & <- & Hs). simpl in *.
    apply list_elem_of_In, filter_In in Hd as [Hd Ht].
    rewrite !list_elem_of_In. auto.
  - intros (Hd & Hs & Ht). eexists. split_and!.
    + apply list_elem_of_In, in_map_iff. exists d.
      split; [reflexivity | by apply list_elem_of_In].
    + done.
    + simpl. apply list_elem_of_In, filter_In. split; [by apply list_elem_of_In | done].
Qed.

(** C7.  For the same lists of doctors and services, a doctor is in the
    doctors list that getServicesWithDoctors gives a service exactly when
    that service is in the services list that getDoctorsWithServices gives
    the doctor; both hold exactly when the doctor's token set (type and
    type names, lower-cased, ё folded, split at white space) and the
    service's token set (group name and name) have a token in common. *)
Theorem linking_is_symmetric (ds : list ArchimedDoctor) (ss : list ApiService)
    (d : ArchimedDoctor) (svc : ApiService) :
  ((exists r, r ∈ getServicesWithDoctors ds ss /\ swd_service r = svc /\ d ∈ doctors r)
   <-> (exists r, r ∈ getDoctorsWithServices ds ss /\ dws_doctor r = d /\ svc ∈ services r))
  /\ ((exists r, r ∈ getDoctorsWithServices ds ss /\ dws_doctor r = d /\ svc ∈ services r)
      <-> d ∈ ds /\ svc ∈ ss
          /\ exists t,
               t ∈ tokenize (type d)
                   ++ flat_map (fun ty => tokenize (FStr (type_name ty)))
                        (default [] (types d))
               /\ t ∈ tokenize (group_name svc) ++ tokenize (service_name svc)).
Proof.
  rewrite servicesWithDoctors_elem, doctorsWithServices_elem. split; [done |].
  rewrite sharesToken_spec. unfold docTokens, svcTokens.
  split; intros (Hd & Hs & t & H1 & H2); split_and!; try done; exists t;
    rewrite ?mkSet_elem in *; auto.
Qed.

(* ===================================================================== *)
(** ** The storage slot *)
(* ===================================================================== *)

(** C10, as amended.  A stored payload whose data and timestamp are both
    truthy is read back as its data whatever the TTL and the clock are:
    the result does not depend on them at all.  Null is returned exactly
    when there is no window, the slot is missing or empty, the string does
    not parse, or the parsed value, its data or its timestamp is falsy (a
    timestamp of 0 included). *)
Theorem readFromStorage_ignores_ttl (w : World) (key : string)
    (store : gmap string stored) :
  (forall parsed ttlMs,
      has_window w = true -> store !! key = Some (RawJSON parsed) ->
      truthyVal (prop_data parsed) = true ->
      truthyNum (prop_timestamp parsed) = true ->
      readFromStorage w key ttlMs store = Some (prop_data parsed))
  /\ (forall w' ttlMs ttlMs',
        has_window w' = has_window w ->
        readFromStorage w' key ttlMs' store = readFromStorage w key ttlMs store)
  /\ (forall ttlMs,
        readFromStorage w key ttlMs store = None
        <-> has_window w = false
            \/ store !! key = None
            \/ store !! key = Some RawEmpty
            \/ store !! key = Some RawInvalid
            \/ exists parsed,
                 store !! key = Some (RawJSON parsed)
                 /\ (truthyVal parsed = false
                     \/ truthyVal (prop_data parsed) = false
                     \/ truthyNum (prop_timestamp parsed) = false)).
Proof.
  split_and!.
  - intros parsed ttlMs Hw Hs Hd Ht. unfold readFromStorage.
    rewrite Hw, Hs. simpl.
    assert (truthyVal parsed = true) as Hp by (by destruct parsed).
    rewrite Hp, Hd, Ht. simpl. by destruct (_ <? _).
  - intros w' ttlMs ttlMs' Hw. unfold readFromStorage. rewrite Hw.
    destruct (negb (has_window w)); [done |].
    destruct (store !! key) as [[| |parsed]|]; try done.
    destruct (_ || _); [done |]. by do 2 destruct (_ <? _).
  - intros ttlMs. unfold readFromStorage.
    destruct (has_window w); simpl; [| split; auto].
    destruct (store !! key) as [[| |parsed]|] eqn:Hs; simpl;
      try (split; [intros _; auto 6 | done]).
    destruct (truthyVal parsed) eqn:Hp; simpl;
      [| split; [intros _; do 4 right; exists parsed; auto | done]].
    destruct (truthyVal (prop_data parsed)) eqn:Hd; simpl;
      [| split; [intros _; do 4 right; exists parsed; auto | done]].
    destruct (truthyNum (prop_timestamp parsed)) eqn:Ht; simpl;
      [| split; [intros _; do 4 right; exists parsed; auto | done]].
    destruct (_ <? _); (split; [done |]);
      intros [?|[?|[?|[?|(p & Hp' & Hf)]]]]; try congruence;
      injection Hp' as <-; destruct Hf as [?|[?|?]]; congruence.
Qed.

(** C10 as worded fails for a payload that is well-formed in its sense:
    the data is an array of doctors and the timestamp is the number 0,
    neither of them null, and yet null is returned. *)
Lemma readFromStorage_zero_timestamp_counterexample :
  storeStampedZero !! DOCTORS_CACHE_KEY
  = Some (RawJSON (VObject (VArray [ivanov]) (Some 0)))
  /\ readFromStorage worldGatewayDown DOCTORS_CACHE_KEY DOCTORS_CACHE_TTL_MS
       storeStampedZero = None.
Proof. split; by vm_compute. Qed.

(* ===================================================================== *)
(** ** getDoctors and refreshDoctors *)
(* ===================================================================== *)

Lemma refreshDoctors_empty w st :
  fetched (fetchAllDoctorsFromAPI w) = [] -> refreshDoctors w st = st.
Proof. unfold refreshDoctors. by intros ->. Qed.

Lemma fetchAll_first_rejected w e :
  requestPage w 1 DEFAULT_API_PAGE_LIMIT = Rejected e ->
  fetched (fetchAllDoctorsFromAPI w) = [].
Proof.
  intros H. unfold fetchAllDoctorsFromAPI.
  destruct (isEmptyStr _); [done |]. by rewrite H.
Qed.

(** X4.  With a non-empty in-memory cache getDoctors resolves with the
    cached list, leaves the state as it is and starts the background
    refresh; and a refresh whose fetch rejects, yields the empty list, or
    fails on its first request leaves both the in-memory cache and the
    storage as they were. *)
Theorem getDoctors_stale_while_revalidate (w : World) (st : State) :
  doctorsCache st <> [] ->
  getDoctors w st = (st, doctorsCache st, true)
  /\ (forall r, r = Fulfilled [] \/ (exists e, r = Rejected e) ->
        refreshDoctorsAfter w r st = st)
  /\ (fetched (fetchAllDoctorsFromAPI w) = [] -> refreshDoctors w st = st)
  /\ (forall e, requestPage w 1 DEFAULT_API_PAGE_LIMIT = Rejected e ->
        refreshDoctors w st = st).
Proof.
  intros Hne. split_and!.
  - unfold getDoctors, getDoctors_begin. by destruct (doctorsCache st).
  - by intros r [->|[e ->]].
  - apply refreshDoctors_empty.
  - intros e He. eapply refreshDoctors_empty, fetchAll_first_rejected, He.
Qed.

Lemma getDoctors_stale_while_revalidate_witness :
  getDoctors worldGatewayDown warmState = (warmState, [ivanov; petrova; sidorov], true)
  /\ refreshDoctors worldGatewayDown warmState = warmState.
Proof.
  destruct (getDoctors_stale_while_revalidate worldGatewayDown warmState)
    as (H1 & _ & H3 & _).
  - discriminate.
  - split; [exact H1 | apply H3; by vm_compute].
Defined.

(** C4 at the failing input.  The cache holds three doctors; getDoctors
    resolves with them and starts the refresh.  The refresh receives the
    first page of two and fails on the second: [fetchAllDoctorsFromAPI]
    resolves with the first page, and the refresh replaces the cache and
    the stored list by these two records instead of keeping what was
    there. *)
Lemma refreshDoctors_failed_page_overwrites_cache :
  getDoctors worldSecondPageFails warmState
  = (warmState, [ivanov; petrova; sidorov], true)
  /\ requested (fetchAllDoctorsFromAPI worldSecondPageFails) = [1; 2]
  /\ (exists e, pageResponse worldSecondPageFails 2 = Rejected e)
  /\ doctorsCache (refreshDoctors worldSecondPageFails warmState) = [ivanov; petrova]
  /\ storage (refreshDoctors worldSecondPageFails warmState) !! DOCTORS_CACHE_KEY
     = Some (RawJSON (VObject (VArray [ivanov; petrova]) (Some 1700000000000))).
Proof.
  split_and!; try by vm_compute.
  eexists. by vm_compute.
Qed.

(** C3 at the failing input: the gateway answers with an error status and
    no request to the Archimed API succeeds.  The bundled doctors.json
    holds two doctors, yet getDoctors resolves with the one record of the
    ProDoctorov snapshot and caches it: [fetchAllDoctorsFromAPI] swallows
    the error, so the [catch] that loads doctors.json is not reached. *)
Lemma getDoctors_error_status_skips_snapshot :
  gateway worldGatewayErrorStatus = GatewayResponds false BodyOther
  /\ (forall page limit, exists e,
        requestPage worldGatewayErrorStatus page limit = Rejected e)
  /\ local_doctors worldGatewayErrorStatus = LocalArray [ivanov; petrova]
  /\ snd (fst (getDoctors worldGatewayErrorStatus coldState)) = [sidorov]
  /\ doctorsCache (fst (fst (getDoctors worldGatewayErrorStatus coldState))) = [sidorov].
Proof.
  split_and!; try by vm_compute.
  intros page limit. eexists. reflexivity.
Qed.

(* ===================================================================== *)
(** ** The blacklist *)
(* ===================================================================== *)

Lemma applyRemovals_clean l : clean (applyRemovals l).
Proof.
  unfold clean, applyRemovals. apply List.Forall_forall. intros d Hd.
  apply filter_In in Hd as [_ Hd]. by apply negb_true_iff in Hd.
Qed.

Lemma applyRemovals_excludes l d : d ∈ applyRemovals l -> isBlacklisted d = false.
Proof.
  intros Hd. pose proof (applyRemovals_clean l) as Hc.
  unfold clean in Hc. rewrite List.Forall_forall in Hc.
  apply Hc. by apply list_elem_of_In.
Qed.

Lemma finish_clean w l st : resolvesClean (finish w l st).
Proof. unfold resolvesClean, finish. simpl. split; apply applyRemovals_clean. Qed.

Lemma fallbackLocal_clean w st : resolvesClean (fallbackLocal w st).
Proof.
  unfold fallbackLocal.
  destruct (local_doctors w) as [|l|l|]; try destruct (_ <? 10);
    first [apply finish_clean | exact I].
Qed.

Lemma fallbackApi_clean w st : resolvesClean (fallbackApi w st).
Proof.
  unfold fallbackApi. destruct (_ <? 10); first [apply finish_clean | exact I].
Qed.

Lemma getDoctors_begin_clean w st :
  clean (doctorsCache st) -> resolvesClean (getDoctors_begin w st).
Proof.
  intros Hc. unfold getDoctors_begin.
  destruct (doctorsCache st) as [|d0 l0] eqn:Hd.
  - repeat
      match goal with
      | |- resolvesClean (finish _ _ _) => apply finish_clean
      | |- resolvesClean (fallbackLocal _ _) => apply fallbackLocal_clean
      | |- resolvesClean (fallbackApi _ _) => apply fallbackApi_clean
      | |- resolvesClean (_, Resolved _ _) =>
          unfold resolvesClean; cbn [fst snd setCache doctorsCache];
          split; apply applyRemovals_clean
      | |- resolvesClean (match ?x with _ => _ end) => destruct x
      | |- resolvesClean (if ?x then _ else _) => destruct x
      end.
  - unfold resolvesClean. simpl. by rewrite Hd.
Qed.

Lemma getDoctors_resume_clean w at_ st :
  clean (doctorsCache (fst (getDoctors_resume w at_ st)))
  /\ clean (snd (getDoctors_resume w at_ st)).
Proof. unfold getDoctors_resume. simpl. split; apply applyRemovals_clean. Qed.

(** A call that runs from start to end with no other call in between:
    if the cache it finds holds no blacklisted record, neither does the
    list it resolves with nor the cache it leaves. *)
Lemma getDoctors_clean w st :
  clean (doctorsCache st) ->
  clean (snd (fst (getDoctors w st)))
  /\ clean (doctorsCache (fst (fst (getDoctors w st)))).
Proof.
  intros Hc. pose proof (getDoctors_begin_clean w st Hc) as Hb.
  unfold getDoctors, resolvesClean in *.
  destruct (getDoctors_begin w st) as [st' [res r|at_]]; cbn [fst snd] in *; [tauto |].
  pose proof (getDoctors_resume_clean w at_ st') as [H1 H2].
  destruct (getDoctors_resume w at_ st') as [st'' res]. cbn [fst snd] in *. done.
Qed.

Lemma construct_clean w store : clean (doctorsCache (construct w store)).
Proof.
  unfold construct.
  destruct (readFromStorage _ _ _ _) as [[| | | | |l|[| | | | |l|] t]|];
    cbn [doctorsCache]; first [apply applyRemovals_clean | constructor].
Qed.

Lemma refreshDoctors_clean w st :
  clean (doctorsCache st) -> clean (doctorsCache (refreshDoctors w st)).
Proof.
  intros Hc. unfold refreshDoctors, refreshDoctorsAfter.
  destruct (fetched _); [done |]. cbn [doctorsCache]. apply applyRemovals_clean.
Qed.

(** C9 at the failing input.  The gateway answers with an error status
    and the API returns two doctors, one of them blacklisted.  The first
    call stores that list in [this.doctorsCache] unfiltered and awaits the
    ProDoctorov snapshot (lines 215-219); a second call made meanwhile
    finds the cache non-empty and resolves with it, blacklisted doctor
    included.  The first call, resumed afterwards, resolves with a list
    without her. *)
Lemma getDoctors_overlapping_call_sees_blacklisted :
  let firstCall := getDoctors_begin worldBlacklistedOnApi coldState in
  let secondCall := getDoctors worldBlacklistedOnApi (fst firstCall) in
  isBlacklisted khorbaa = true
  /\ snd firstCall = Pending AwaitProdoctorovForApi
  /\ snd (fst secondCall) = [khorbaa; ivanov]
  /\ snd (getDoctors_resume worldBlacklistedOnApi AwaitProdoctorovForApi
            (fst (fst secondCall)))
     = [ivanov; petrova].
Proof. split_and!; by vm_compute. Qed.

(* ===================================================================== *)
(** ** fetchAllDoctorsFromAPI *)
(* ===================================================================== *)

Lemma ARCHIMED_API_URL_nonempty w : isEmptyStr (ARCHIMED_API_URL w) = false.
Proof.
  unfold ARCHIMED_API_URL.
  destruct (VITE_ARCHIMED_API_URL w) as [| |[|c s]]; reflexivity.
Qed.

Lemma pagesFrom_elem a n p : p ∈ pagesFrom a n <-> a <= p < a + Z.of_nat n.
Proof.
  revert a. induction n as [|n IH]; intros a; simpl pagesFrom.
  - split; [intros H; by apply elem_of_nil in H | lia].
  - rewrite elem_of_cons, IH. lia.
Qed.

Lemma flat_map_agree {A B} (f g : A -> list B) (l : list A) :
  (forall a, a ∈ l -> f a = g a) -> flat_map f l = flat_map g l.
Proof.
  induction l as [|a l IH]; simpl; intros H; [done |].
  rewrite (H a), IH; [done | |]; [intros b Hb | ]; [apply H |]; apply elem_of_cons; auto.
Qed.

Lemma pagesFrom_length a n : length (pagesFrom a n) = n.
Proof. revert a. induction n; intros a; simpl; auto. Qed.

(** The loop over the remaining pages: it asks for consecutive pages, at
    most [n] of them, keeps what they deliver, and a page that fails, is
    empty or is short is the last one it asks for. *)
Lemma fetchRemaining_spec w n page limit acc :
  exists k : nat,
    (k <= n)%nat
    /\ requested (fetchRemaining w n page limit acc)
       = requested acc ++ pagesFrom page k
    /\ fetched (fetchRemaining w n page limit acc)
       = fetched acc
         ++ flat_map
              (fun p => match requestPage w p limit with
                        | Fulfilled r => default [] (dataArray (page_data r))
                        | Rejected _ => []
                        end)
              (pagesFrom page k)
    /\ (forall p, p ∈ pagesFrom page k ->
          match requestPage w p limit with
          | Fulfilled r =>
              match dataArray (page_data r) with
              | Some ((_ :: _) as ds) => Z.of_nat (length ds) <? limit
              | _ => true
              end
          | Rejected _ => true
          end = true ->
          p = page + Z.of_nat k - 1).
Proof.
  revert page acc. induction n as [|n IH]; intros page acc.
  - exists O. simpl. rewrite !app_nil_r. split_and!; [lia | done | done |].
    intros p Hp. by apply elem_of_nil in Hp.
  - cbn [fetchRemaining].
    destruct (requestPage w page limit) as [next|e] eqn:Hreq.
    + destruct (dataArray (page_data next)) as [[|d ds]|] eqn:Hdata.
      * exists 1%nat. cbn. rewrite Hreq, Hdata. cbn. rewrite app_nil_r.
        split_and!; [lia | done | done |].
        intros p Hp _. apply list_elem_of_singleton in Hp. lia.
      * destruct (Z.of_nat (length (d :: ds)) <? limit) eqn:Hshort.
        -- exists 1%nat. cbn [pagesFrom flat_map requested fetched].
           rewrite Hreq, Hdata. cbn [default]. rewrite app_nil_r.
           split_and!; [lia | done | done |].
           intros p Hp _. apply list_elem_of_singleton in Hp. lia.
        -- destruct (IH (page + 1)
                       {| fetched := fetched acc ++ d :: ds;
                          requested := requested acc ++ [page] |})
             as (k & Hk & Hr & Hf & He).
           exists (S k). cbn [pagesFrom flat_map requested fetched] in *.
           rewrite Hreq, Hdata. cbn [default].
           split_and!.
           ++ lia.
           ++ rewrite Hr. by rewrite <- app_assoc.
           ++ rewrite Hf. by rewrite <- !app_assoc.
           ++ intros p Hp Hend. apply elem_of_cons in Hp as [->|Hp].
              ** rewrite Hreq, Hdata in Hend. congruence.
              ** rewrite (He p Hp Hend). lia.
      * exists 1%nat. cbn. rewrite Hreq, Hdata. cbn. rewrite app_nil_r.
        split_and!; [lia | done | done |].
        intros p Hp _. apply list_elem_of_singleton in Hp. lia.
    + exists 1%nat. cbn. rewrite Hreq. cbn. rewrite app_nil_r.
      split_and!; [lia | done | done |].
      intros p Hp _. apply list_elem_of_singleton in Hp. lia.
Qed.

(** C5, as amended.  fetchAllDoctorsFromAPI asks for page 1 first and for
    consecutive pages after it, for at most MAX_API_PAGES (50) pages in
    all; after page 1 it goes no further than the number of pages that the
    first response announces, and it stops at the first later page that is
    empty, holds fewer records than the limit, or fails; it always
    resolves, with the records of the pages it received. *)
Theorem fetchAllDoctorsFromAPI_pagination (w : World) :
  let f := fetchAllDoctorsFromAPI w in
  exists n : nat,
    requested f = pagesFrom 1 n
    /\ (1 <= n)%nat /\ Z.of_nat n <= MAX_API_PAGES
    /\ fetched f = flat_map (pageRecords w) (requested f)
    /\ (forall p, p ∈ requested f -> 2 <= p -> p <= totalPagesOf w)
    /\ (forall p, p ∈ requested f -> 2 <= p -> endsPaging w p = true ->
          p = Z.of_nat n).
Proof.
  intros f. subst f. unfold fetchAllDoctorsFromAPI.
  rewrite ARCHIMED_API_URL_nonempty.
  destruct (requestPage w 1 DEFAULT_API_PAGE_LIMIT) as [first|e] eqn:Hfirst.
  - set (total := default (default 0 (dataLength (page_data first))) (page_total first)).
    set (limit := default DEFAULT_API_PAGE_LIMIT (page_limit first)).
    set (all := default [] (dataArray (page_data first))).
    set (totalPages := if 0 <? limit then _ else 1).
    set (n0 := Z.to_nat (Z.min totalPages MAX_API_PAGES - 1)).
    assert (pageLimit w = limit) as Hlim.
    { unfold pageLimit, firstPage. by rewrite Hfirst. }
    assert (totalPagesOf w = totalPages) as Htot.
    { unfold totalPagesOf, firstPage. rewrite Hfirst, Hlim. done. }
    destruct (fetchRemaining_spec w n0 2 limit {| fetched := all; requested := [1] |})
      as (k & Hk & Hr & Hf & He).
    cbn [requested fetched] in Hr, Hf.
    assert (forall p, p ∈ pagesFrom 2 k -> pageResponse w p = requestPage w p limit) as Hresp.
    { intros p Hp. apply pagesFrom_elem in Hp. unfold pageResponse.
      rewrite Hlim. destruct (p =? 1) eqn:E; [lia | done]. }
    exists (S k). split_and!.
    + rewrite Hr. done.
    + lia.
    + unfold MAX_API_PAGES in *. lia.
    + rewrite Hf, Hr. cbn [app flat_map]. f_equal.
      * unfold pageRecords, pageResponse. cbn. by rewrite Hfirst.
      * apply flat_map_agree. intros p Hp.
        unfold pageRecords. by rewrite Hresp.
    + intros p Hp Hp2. rewrite Hr in Hp. cbn [app] in Hp.
      apply elem_of_cons in Hp as [->|Hp]; [lia |].
      apply pagesFrom_elem in Hp. rewrite Htot. unfold MAX_API_PAGES in *. lia.
    + intros p Hp Hp2 Hend. rewrite Hr in Hp. cbn [app] in Hp.
      apply elem_of_cons in Hp as [->|Hp]; [lia |].
      rewrite (He p Hp); [lia |].
      unfold endsPaging in Hend. rewrite Hresp, Hlim in Hend by done. exact Hend.
  - exists 1%nat. cbn [requested fetched pagesFrom flat_map].
    split_and!; [done | lia | unfold MAX_API_PAGES; lia | | |].
    + unfold pageRecords, pageResponse. cbn. by rewrite Hfirst.
    + intros p Hp. apply list_elem_of_singleton in Hp. lia.
    + intros p Hp. apply list_elem_of_singleton in Hp. lia.
Qed.

(** C5 as worded fails on the first page: it holds fewer records than
    the page limit, and the second page is requested all the same, because
    the first response announces 400 records. *)
Lemma fetchAllDoctorsFromAPI_short_first_page_counterexample :
  pageRecords worldShortFirstPage 1 = [ivanov]
  /\ pageLimit worldShortFirstPage = 200
  /\ endsPaging worldShortFirstPage 1 = true
  /\ requested (fetchAllDoctorsFromAPI worldShortFirstPage) = [1; 2]
  /\ fetched (fetchAllDoctorsFromAPI worldShortFirstPage) = [ivanov; petrova].
Proof. split_and!; by vm_compute. Qed.

(* ===================================================================== *)
(** ** The filename-parsing scraper *)
(* ===================================================================== *)

Section ScraperFacts.

Import Scraper.

Lemma hasNoPhoto_spec item :
  hasNoPhoto item = true
  <-> photo item = FUndefined \/ photo item = FNull \/ photo item = FStr []
      \/ exists s, photo item = FStr s /\ isPlaceholder s = true.
Proof.
  unfold hasNoPhoto. destruct (photo item) as [| |[|c s]]; simpl.
  - split; auto.
  - split; auto.
  - split; auto.
  - split.
    + intros H. do 3 right. eauto.
    + intros [?|[?|[?|(s' & [= <-] & H)]]]; done.
Qed.

Lemma indexByName_sound (P : jsstring -> nat -> Prop) items :
  forall i (m : gmap jsstring nat),
    (forall k j, m !! k = Some j -> P k j) ->
    (forall n item, items !! n = Some item -> P (itemKey item) (i + n)%nat) ->
    forall k j, indexByName i items m !! k = Some j -> P k j.
Proof.
  induction items as [|it items IH]; simpl; intros i m Hm Hitems k j; [apply Hm |].
  apply IH.
  - intros k' j'. rewrite lookup_insert. case_decide as E.
    + intros [= <-]. subst k'. specialize (Hitems 0%nat it eq_refl).
      by rewrite Nat.add_0_r in Hitems.
    + apply Hm.
  - intros n item Hn. specialize (Hitems (S n) item Hn).
    by rewrite Nat.add_succ_r in Hitems.
Qed.

Lemma indexByName_complete items :
  forall i (m : gmap jsstring nat) k,
    is_Some (indexByName i items m !! k)
    <-> is_Some (m !! k) \/ k ∈ List.map itemKey items.
Proof.
  induction items as [|it items IH]; simpl; intros i m k.
  - split; [auto | intros [?|H]; [done | by apply elem_of_nil in H]].
  - rewrite IH, elem_of_cons, lookup_insert. unfold itemKey at 2.
    case_decide as E.
    + subst k. split; [auto | intros _; left; by eexists].
    + split; [intros [?|?]; auto | intros [?|[?|?]]; auto; congruence].
Qed.

Lemma start_wellIndexed existing : wellIndexed (start existing).
Proof.
  unfold wellIndexed, start. simpl. split.
  - apply indexByName_sound.
    + intros k j H. by rewrite lookup_empty in H.
    + intros n item Hn. simpl. eauto.
  - intros item Hin. apply indexByName_complete. right.
    apply list_elem_of_In, in_map, list_elem_of_In, Hin.
Qed.

Lemma setPhoto_key p item : itemKey (setPhoto p item) = itemKey item.
Proof. reflexivity. Qed.

Lemma setSpecialty_key sp item : itemKey (setSpecialty sp item) = itemKey item.
Proof. reflexivity. Qed.

Lemma processFile_effect run filename :
  FileEffect run filename (processFile run filename).
Proof.
  unfold processFile.
  destruct (splitNameAndSpecialty filename) as [parsedName parsedSpecialty] eqn:Hs.
  destruct (isEmptyStr parsedName) eqn:Hn; [by apply Skipped |].
  destruct (byName run !! normalizeName (FStr parsedName)) as [pos|] eqn:Hk.
  - destruct (results run !! pos) as [item|] eqn:Hp; [| by apply Skipped].
    eapply (Updated _ _ _ pos item); [done | reflexivity | done | |].
    + by destruct (hasNoPhoto item), (_ && _).
    + by destruct (hasNoPhoto item), (_ && _).
  - eapply Appended.
    + cbn [results]. reflexivity.
    + cbn [byName]. reflexivity.
    + exact Hk.
    + rewrite Hs. reflexivity.
    + rewrite Hs. cbn [fst]. by destruct parsedName.
    + reflexivity.
Qed.

Lemma processFile_wellIndexed run filename :
  wellIndexed run -> wellIndexed (processFile run filename).
Proof.
  intros [Hsound Hcomplete].
  destruct (processFile_effect run filename) as [->|item Hr Hb Hnone _ _ _|pos item item' Hp Hr Hb Hname _];
    [done | |]; unfold wellIndexed; rewrite Hr, Hb; split.
  - intros k i. rewrite lookup_insert. case_decide as E.
    + intros [= <-]. exists item. split; [| done].
      rewrite lookup_app_r by lia. by rewrite Nat.sub_diag.
    + intros H. destruct (Hsound k i H) as (it & Hi & Hki).
      exists it. split; [| done]. by apply lookup_app_l_Some.
  - intros it Hin. rewrite lookup_insert. case_decide as E; [by eexists |].
    apply elem_of_app in Hin as [Hin|Hin]; [by apply Hcomplete |].
    apply list_elem_of_singleton in Hin. by subst.
  - intros k i H. destruct (Hsound k i H) as (it & Hi & Hki).
    destruct (decide (i = pos)) as [->|Hne].
    + exists item'. split.
      * apply list_lookup_insert_eq. by eapply lookup_lt_Some.
      * rewrite <- Hki. unfold itemKey. rewrite Hname. congruence.
    + exists it. split; [| done]. by rewrite list_lookup_insert_ne.
  - intros it Hin. apply list_elem_of_lookup in Hin as [i Hi].
    destruct (decide (i = pos)) as [->|Hne].
    + rewrite list_lookup_insert_eq in Hi by (by eapply lookup_lt_Some).
      injection Hi as <-. unfold itemKey. rewrite Hname.
      apply Hcomplete. by eapply list_elem_of_lookup_2.
    + rewrite list_lookup_insert_ne in Hi by done.
      apply Hcomplete. by eapply list_elem_of_lookup_2.
Qed.

Lemma processFiles_wellIndexed files run :
  wellIndexed run -> wellIndexed (fold_left processFile files run).
Proof.
  revert run. induction files as [|f files IH]; simpl; [done |].
  intros run H. by apply IH, processFile_wellIndexed.
Qed.

(** One file and the items that were there before it. *)
Lemma processFile_frame run filename i item :
  results run !! i = Some item ->
  exists item',
    results (processFile run filename) !! i = Some item'
    /\ fullName item' = fullName item
    /\ photo item'
       = (if decide (photo item' = photo item) then photo item
          else FStr (photoPathOf filename))
    /\ (photo item' <> photo item -> hasNoPhoto item = true).
Proof.
  intros Hi.
  destruct (processFile_effect run filename)
    as [->|new Hr _ _ _ _ _|pos old item' Hp Hr _ Hname Hphoto].
  - exists item. split_and!; [done | done | by rewrite decide_True | done].
  - exists item. rewrite Hr.
    split_and!; [by apply lookup_app_l_Some | done | by rewrite decide_True | done].
  - rewrite Hr. destruct (decide (i = pos)) as [->|Hne].
    + assert (old = item) as -> by congruence.
      exists item'. split_and!.
      * apply list_lookup_insert_eq. by eapply lookup_lt_Some.
      * done.
      * case_decide as E; [done |]. rewrite Hphoto in *.
        by destruct (hasNoPhoto item).
      * intros Hne. rewrite Hphoto in Hne. by destruct (hasNoPhoto item).
    + exists item. rewrite list_lookup_insert_ne by done.
      split_and!; [done | done | by rewrite decide_True | done].
Qed.

Lemma processFiles_keep_photo files run i item :
  results run !! i = Some item -> hasNoPhoto item = false ->
  exists item',
    results (fold_left processFile files run) !! i = Some item'
    /\ photo item' = photo item /\ fullName item' = fullName item.
Proof.
  revert run item. induction files as [|f files IH]; simpl; intros run item Hi Hp.
  - by exists item.
  - destruct (processFile_frame run f i item Hi) as (item1 & H1 & Hn1 & _ & Hph).
    assert (photo item1 = photo item) as Heq.
    { destruct (decide (photo item1 = photo item)) as [|Hne]; [done |].
      specialize (Hph Hne). congruence. }
    destruct (IH (processFile run f) item1 H1) as (item' & H' & Hp' & Hn').
    { unfold hasNoPhoto in *. by rewrite Heq. }
    exists item'. split_and!; congruence.
Qed.

End ScraperFacts.

(** C8.  Through the whole run, a snapshot entry whose photo is set and is
    not the no-avatar placeholder keeps its photo.  For every file
    processed, every entry present before it is still there under the same
    name, its photo is either unchanged or, if it was absent, empty or the
    placeholder, the file's path; and the list grows only by one new entry
    with that path whose normalized name was the key of no entry before. *)
Theorem scraper_overwrites_only_missing_photos (existing : list Scraper.Item) :
  (forall dir i item,
      existing !! i = Some item -> Scraper.hasNoPhoto item = false ->
      exists item',
        Scraper.results (Scraper.processImages existing dir) !! i = Some item'
        /\ Scraper.photo item' = Scraper.photo item)
  /\ (forall before filename,
        let run := fold_left Scraper.processFile before (Scraper.start existing) in
        let run' := Scraper.processFile run filename in
        (forall i item,
            Scraper.results run !! i = Some item ->
            exists item',
              Scraper.results run' !! i = Some item'
              /\ Scraper.fullName item' = Scraper.fullName item
              /\ (Scraper.photo item' <> Scraper.photo item ->
                  Scraper.photo item' = FStr (Scraper.photoPathOf filename)
                  /\ (Scraper.photo item = FUndefined \/ Scraper.photo item = FNull
                      \/ Scraper.photo item = FStr []
                      \/ exists s, Scraper.photo item = FStr s
                                   /\ Scraper.isPlaceholder s = true)))
        /\ (length (Scraper.results run') = length (Scraper.results run)
            \/ exists item,
                 Scraper.results run' = Scraper.results run ++ [item]
                 /\ Scraper.photo item = FStr (Scraper.photoPathOf filename)
                 /\ itemKey item
                    = Scraper.normalizeName
                        (FStr (fst (Scraper.splitNameAndSpecialty filename)))
                 /\ itemKey item ∉ List.map itemKey (Scraper.results run))).
Proof.
  split.
  - intros dir i item Hi Hp. unfold Scraper.processImages.
    destruct (processFiles_keep_photo (Scraper.entriesOf dir) (Scraper.start existing)
                i item Hi Hp) as (item' & H1 & H2 & _).
    by exists item'.
  - intros before filename run run'. split.
    + intros i item Hi.
      destruct (processFile_frame run filename i item Hi) as (item' & H1 & H2 & H3 & H4).
      exists item'. split_and!; [done | done |].
      intros Hne. split.
      * rewrite H3. by rewrite decide_False.
      * by apply hasNoPhoto_spec, H4.
    + assert (wellIndexed run) as [_ Hcomplete].
      { apply processFiles_wellIndexed, start_wellIndexed. }
      subst run'.
      destruct (processFile_effect run filename)
        as [->|item Hr _ Hnone Hname _ Hphoto|pos old item' _ Hr _ _ _].
      * by left.
      * right. exists item. split_and!; [done | done | |].
        -- unfold itemKey. by rewrite Hname.
        -- intros Hin. apply list_elem_of_In, in_map_iff in Hin as (it & Hk & Hin).
           apply list_elem_of_In, Hcomplete in Hin. rewrite Hk, Hnone in Hin.
           by destruct Hin.
      * left. rewrite Hr. apply length_insert.
Qed.

(* ===================================================================== *)
(** ** Further properties of the fallback chain and the blacklist *)
(* ===================================================================== *)

(** The map against which an extra record is looked up is the one built
    from the primary list and the extra records before it. *)
Lemma mergeMap_snoc primary before add after :
  mergeMap primary (before ++ add :: after)
  = fold_left mergeStep after (mergeStep (mergeMap primary before) add).
Proof. unfold mergeMap. by rewrite fold_left_app. Qed.

(** X1.  With empty caches and a gateway whose connection fails,
    getDoctors resolves with the bundled doctors.json snapshot (enriched
    from the ProDoctorov snapshot when it has fewer than ten records), and
    with the mock list (enriched likewise) when the snapshot cannot be
    loaded; the blacklist is applied in both cases. *)
Theorem getDoctors_falls_back_when_gateway_down (w : World) (st : State) :
  doctorsCache st = [] ->
  readFromStorage w DOCTORS_CACHE_KEY DOCTORS_CACHE_TTL_MS (storage st) = None ->
  gateway w = GatewayFails ->
  snd (fst (getDoctors w st))
  = match local_doctors w with
    | LocalFails =>
        applyRemovals
          (match prodoctorov w with
           | [] => mockDoctors w
           | _ :: _ => mergeDoctors (mockDoctors w) (prodoctorov w)
           end)
    | snapshot =>
        let localDoctors :=
          match snapshot with LocalArray l | LocalData l => l | _ => [] end in
        applyRemovals
          (if Z.of_nat (length localDoctors) <? 10 then
             match prodoctorov w with
             | [] => localDoctors
             | _ :: _ => mergeDoctors localDoctors (prodoctorov w)
             end
           else localDoctors)
    end.
Proof.
  intros Hc Hs Hg. unfold getDoctors, getDoctors_begin. rewrite Hc, Hs, Hg.
  assert (fallbackLocal w st = (if negb (has_window w) then fallbackLocal w st
                                else fallbackLocal w st)) as <- by (by destruct (negb _)).
  unfold fallbackLocal, finish, getDoctors_resume, setCache.
  destruct (local_doctors w) as [|l|l|]; simpl;
    try destruct (Z.of_nat (length l) <? 10); simpl;
    by destruct (prodoctorov w).
Qed.

Lemma getDoctors_falls_back_when_gateway_down_witness :
  snd (fst (getDoctors worldGatewayDown coldState)) = [ivanov; petrova].
Proof.
  rewrite (getDoctors_falls_back_when_gateway_down worldGatewayDown coldState);
    by vm_compute.
Defined.

(** X2.  A call of getDoctors that runs from start to end with no other
    call in between, on a cache without blacklisted records (as the
    constructor and refreshDoctors leave it), resolves with a list without
    blacklisted records and leaves such a cache. *)
Theorem getDoctors_alone_excludes_blacklisted (w : World) (st : State) :
  clean (doctorsCache st) ->
  clean (snd (fst (getDoctors w st)))
  /\ clean (doctorsCache (fst (fst (getDoctors w st))))
  /\ clean (doctorsCache (refreshDoctors w (fst (fst (getDoctors w st)))))
  /\ (forall store, clean (doctorsCache (construct w store))).
Proof.
  intros Hc. destruct (getDoctors_clean w st Hc) as [H1 H2].
  split_and!; [done | done | by apply refreshDoctors_clean | apply construct_clean].
Qed.

Lemma getDoctors_alone_excludes_blacklisted_witness :
  clean (snd (fst (getDoctors worldBlacklistedOnApi coldState))).
Proof.
  destruct (getDoctors_alone_excludes_blacklisted worldBlacklistedOnApi coldState)
    as [H _]; [constructor | exact H].
Defined.

(** X3.  getDoctor rejects with 'Archimed API error: 404 - Not found'
    when the API returns a record whose normalized full name is
    blacklisted. *)
Theorem getDoctor_hides_blacklisted (w : World) (doctorId : Z) (doc : ArchimedDoctor) :
  has_window w = true -> api_doctor w doctorId = Fulfilled doc ->
  isBlacklisted doc = true -> getDoctor w doctorId = Rejected NOT_FOUND.
Proof. intros Hw Ha Hb. unfold getDoctor. rewrite Hw. cbn [negb]. by rewrite Ha, Hb. Qed.

Lemma getDoctor_hides_blacklisted_witness :
  getDoctor worldBlacklistedOnApi 3 = Rejected NOT_FOUND.
Proof.
  apply (getDoctor_hides_blacklisted worldBlacklistedOnApi 3 khorbaa); by vm_compute.
Defined.

(** X5.  With empty caches, a gateway that answers with an error status
    and an API whose first request fails, getDoctors resolves with the
    records of the ProDoctorov snapshot alone (merged among themselves and
    filtered by the blacklist): the bundled doctors.json and the mock list
    play no part. *)
Theorem getDoctors_error_status_uses_prodoctorov_only (w : World) (st : State)
    (body : GatewayBody) (e : jsstring) :
  doctorsCache st = [] ->
  readFromStorage w DOCTORS_CACHE_KEY DOCTORS_CACHE_TTL_MS (storage st) = None ->
  has_window w = true ->
  gateway w = GatewayResponds false body ->
  requestPage w 1 DEFAULT_API_PAGE_LIMIT = Rejected e ->
  snd (fst (getDoctors w st))
  = applyRemovals
      (match prodoctorov w with
       | [] => []
       | _ :: _ => mergeDoctors [] (prodoctorov w)
       end).
Proof.
  intros Hc Hs Hw Hg Hreq. unfold getDoctors, getDoctors_begin.
  rewrite Hc, Hs, Hw, Hg. cbn [negb]. unfold fallbackApi.
  rewrite (fetchAll_first_rejected w e Hreq). cbn [length Z.of_nat Z.ltb Z.compare].
  unfold getDoctors_resume, setCache. cbn [fst snd doctorsCache].
  by destruct (prodoctorov w).
Qed.

Lemma getDoctors_error_status_uses_prodoctorov_only_witness :
  snd (fst (getDoctors worldGatewayErrorStatus coldState))
  = applyRemovals (mergeDoctors [] [sidorov]).
Proof.
  apply (getDoctors_error_status_uses_prodoctorov_only worldGatewayErrorStatus coldState
           BodyOther (utf8 "Failed to fetch")); by vm_compute.
Defined.

(* ===================================================================== *)
(** ** The further definitions on concrete inputs *)
(* ===================================================================== *)

Example toLowerCase_example :
  toLowerCase (utf8 "ӨНДАР Үжүк Ңава") = utf8 "өндар үжүк ңава"
  /\ toLowerCase (utf8 "ΟΔΟΣ ΣΟΦΙΑΣ") = utf8 "οδος σοφιας"
  /\ toLowerCase [304]%N = [105; 775]%N
  /\ toLowerCase [55297; 56320]%N = [55297; 56360]%N
  /\ toLowerCase [56320; 55297]%N = [56320; 55297]%N.
Proof. split_and!; by vm_compute. Qed.

(** The [i] flag compares upper-case forms: the Kelvin sign is not a k
    for it, and the long s is not an s. *)
Example eqCI_example :
  eqCI 1057 1089 = true /\ eqCI 1256 1257 = true
  /\ eqCI 8490 107 = false /\ eqCI 383 115 = false.
Proof. split_and!; by vm_compute. Qed.

Example makeNameKey_tuvan_example :
  makeNameKey (doctorNamed 7 "ӨНДАР" "Үжүк" "Ңава" "Терапевт") = utf8 "өндар|үжүк|ңава"
  /\ mergeDoctors [doctorNamed 7 "ӨНДАР" "" "" ""] [doctorNamed 8 "өндар" "" "" ""]
     = [mergeOne (doctorNamed 7 "ӨНДАР" "" "" "") (doctorNamed 8 "өндар" "" "" "")].
Proof. split; by vm_compute. Qed.

Example fetchAll_data_not_array_example :
  totalPagesOf worldDataNotArray = 3
  /\ fetchAllDoctorsFromAPI worldDataNotArray
     = {| fetched := [sidorov]; requested := [1; 2] |}.
Proof. split; by vm_compute. Qed.

Example showZ_example :
  JsText.showZ 2005 = utf8 "2005" /\ JsText.showZ 0 = utf8 "0"
  /\ JsText.showZ (-17) = utf8 "-17".
Proof. split_and!; by vm_compute. Qed.

Example request_example :
  Remote.request (J := unit) (utf8 "https://api.example") true
    (Remote.FetchResponds false 404 (utf8 "Not found") (Fulfilled tt))
  = Rejected NOT_FOUND
  /\ Remote.request (J := unit) [] true (Remote.FetchResponds true 200 [] (Fulfilled tt))
     = Rejected (utf8 "ARCHIMED_API_URL not configured")
  /\ Remote.request (utf8 "https://api.example") true
       (Remote.FetchResponds true 200 [] (Fulfilled tt))
     = Fulfilled tt.
Proof. split_and!; by vm_compute. Qed.

Example appointmentsEndpoint_example :
  Remote.appointmentsEndpoint
    (Some {| Remote.doctorId := Some 12; Remote.serviceId := None;
             Remote.statusId := Some 0; Remote.page := Some 2;
             Remote.limit := Some 50 |})
  = utf8 "/talons?doctor_id=12&page=2&limit=50".
Proof. by vm_compute. Qed.

Example mapProdoctorovToArchimed_example :
  id veteranDoctor = 100000
  /\ name veteranDoctor = FStr (utf8 "Петрова")
  /\ name1 veteranDoctor = FStr (utf8 "Анна")
  /\ name2 veteranDoctor = FStr (utf8 "Сергеевна")
  /\ info veteranDoctor = FStr (utf8 "Врачебный стаж с 2005 г.")
  /\ photo veteranDoctor = FNull
  /\ types veteranDoctor = Some [ {| type_id := 0; type_name := utf8 "Хирург" |} ].
Proof. split_and!; by vm_compute. Qed.

Example extractPhotos_example :
  HtmlScraper.extractPhotos samplePage
  = [ {| HtmlScraper.photo_name := utf8 "Иванов Иван Иванович";
         HtmlScraper.photo_url := utf8 "https://cdn.example/ivanov.jpg" |};
      {| HtmlScraper.photo_name := utf8 "Петрова Анна Сергеевна";
         HtmlScraper.photo_url := utf8 "https://prodoctorov.ru/media/petrova.png" |} ].
Proof. by vm_compute. Qed.

Example html_scraper_example :
  List.map Scraper.photo (HtmlScraper.run samplePage sampleSnapshot)
  = [ FStr (utf8 "https://cdn.example/ivanov.jpg");
      FStr (utf8 "https://prodoctorov.ru/media/petrova.png") ].
Proof. by vm_compute. Qed.

(* ===================================================================== *)
(** ** Case mappings and white space *)
(* ===================================================================== *)

Lemma mapWith_cases t c :
  Unicode.mapWith t c = c
  \/ exists r, In r t /\ Unicode.inRow c r = true
               /\ Unicode.mapWith t c = Unicode.applyRow c r.
Proof.
  unfold Unicode.mapWith. destruct (List.find _ t) as [r|] eqn:E; [right | by left].
  apply List.find_some in E as [? ?]. by exists r.
Qed.

Lemma inRow_bounds c lo hi step to :
  Unicode.inRow c (lo, hi, step, to) = true -> (lo <= c <= hi)%N.
Proof.
  unfold Unicode.inRow. rewrite !andb_true_iff, !N.leb_le. tauto.
Qed.

(** A mapping whose rows all start above [b] leaves the code points up to
    [b] as they are. *)
Lemma mapWith_below t b c :
  forallb (fun r => let '(lo, _, _, _) := r in (b <? lo)%N) t = true ->
  (c <= b)%N -> Unicode.mapWith t c = c.
Proof.
  intros Ht Hc. destruct (mapWith_cases t c) as [E|(r & Hin & Hrow & _)]; [done |].
  rewrite forallb_forall in Ht. specialize (Ht r Hin).
  destruct r as [[[lo hi] step] to]. apply inRow_bounds in Hrow.
  apply N.ltb_lt in Ht. lia.
Qed.

Lemma apartFrom_spec cl a b x :
  Unicode.apartFrom cl a b = true -> (a <= x <= b)%N -> Unicode.memberOf cl x = false.
Proof.
  unfold Unicode.apartFrom, Unicode.memberOf. intros H Hx.
  induction cl as [|r cl IH]; [done |]. cbn [forallb existsb] in *.
  apply andb_true_iff in H as [Hr H]. rewrite (IH H), orb_false_r.
  apply orb_true_iff in Hr as [Hr%N.ltb_lt|Hr%N.ltb_lt].
  - apply andb_false_iff. left. apply N.leb_gt. lia.
  - apply andb_false_iff. right. apply N.leb_gt. lia.
Qed.

Lemma leavesAlone_spec cl t c :
  Unicode.leavesAlone cl t = true ->
  Unicode.memberOf cl (Unicode.mapWith t c) = Unicode.memberOf cl c.
Proof.
  intros Ht. destruct (mapWith_cases t c) as [->|(r & Hin & Hrow & ->)]; [done |].
  unfold Unicode.leavesAlone in Ht. rewrite forallb_forall in Ht.
  specialize (Ht r Hin). destruct r as [[[lo hi] step] to].
  apply andb_true_iff in Ht as [H1 H2]. apply inRow_bounds in Hrow.
  rewrite (apartFrom_spec _ _ _ c H1) by done.
  apply (apartFrom_spec _ _ _ _ H2). unfold Unicode.applyRow. lia.
Qed.

Lemma isSpace_whiteSpace c : isSpace c = Unicode.memberOf whiteSpace c.
Proof.
  unfold isSpace, Unicode.memberOf, whiteSpace. cbn [existsb fst snd].
  apply eq_true_iff_eq.
  rewrite !orb_true_iff, !andb_true_iff, !N.leb_le, !N.eqb_eq. lia.
Qed.

Lemma isSpace_true c :
  isSpace c = true -> (c <= 13 \/ c = 32 \/ c = 160 \/ 5760 <= c <= 12288 \/ c = 65279)%N.
Proof.
  unfold isSpace. rewrite !orb_true_iff, !andb_true_iff, !N.leb_le, !N.eqb_eq. lia.
Qed.

(** Lower-casing and the [i] flag leave white space alone. *)
Lemma isSpace_lowercase c :
  isSpace (Unicode.mapWith Unicode.simpleLowercase c) = isSpace c.
Proof. rewrite !isSpace_whiteSpace. apply leavesAlone_spec. by vm_compute. Qed.

Lemma isSpace_canonicalize c : isSpace (canonicalize c) = isSpace c.
Proof. rewrite !isSpace_whiteSpace. apply leavesAlone_spec. by vm_compute. Qed.

Lemma canonicalize_below c : (c <= 96)%N -> canonicalize c = c.
Proof. apply mapWith_below. by vm_compute. Qed.

Lemma eqCI_trans a b c : eqCI a b = true -> eqCI c b = true -> eqCI a c = true.
Proof. unfold eqCI. rewrite !N.eqb_eq. congruence. Qed.

Lemma foldYoChar_cases c : foldYoChar c = c \/ (c = 1105%N /\ foldYoChar c = 1077%N).
Proof. unfold foldYoChar. destruct (N.eqb_spec c 1105); auto. Qed.

Lemma isSpace_foldYoChar c : isSpace (foldYoChar c) = isSpace c.
Proof. destruct (foldYoChar_cases c) as [->|[-> ->]]; done. Qed.

(** *** Blank strings *)

Lemma blank_foldYo s : forallb isSpace (foldYo s) = forallb isSpace s.
Proof.
  induction s as [|c s IH]; [done |]. cbn [foldYo List.map forallb].
  by rewrite isSpace_foldYoChar, <- IH.
Qed.

Lemma surrogate_not_space c : (55296 <= c <= 57343)%N -> isSpace c = false.
Proof.
  intros Hc. destruct (isSpace c) eqn:E; [| done]. apply isSpace_true in E. lia.
Qed.

Lemma toCodePoints_pair c d r :
  toCodePoints (c :: d :: r)
  = if isHighSurrogate c && isLowSurrogate d
    then (65536 + (c - 55296) * 1024 + (d - 56320))%N :: toCodePoints r
    else c :: toCodePoints (d :: r).
Proof. reflexivity. Qed.

Lemma blank_toCodePoints s : forallb isSpace (toCodePoints s) = forallb isSpace s.
Proof.
  remember (length s) as n eqn:Hn.
  revert s Hn. induction (lt_wf n) as [n _ IH]. intros s ->.
  destruct s as [|c [|d r]]; [done | done |].
  rewrite toCodePoints_pair.
  destruct (isHighSurrogate c && isLowSurrogate d) eqn:E.
  - apply andb_true_iff in E as [Hc Hd]. unfold isHighSurrogate, isLowSurrogate in *.
    apply andb_true_iff in Hc as [?%N.leb_le ?%N.leb_le].
    cbn [forallb]. rewrite (surrogate_not_space c) by lia.
    destruct (isSpace (_ + _)%N) eqn:Es; [| done].
    apply isSpace_true in Es. lia.
  - cbn [forallb]. f_equal.
    apply (IH (length (d :: r))); [cbn [length]; lia | done].
Qed.

Lemma blank_encodeCodePoint c : forallb isSpace (encodeCodePoint c) = isSpace c.
Proof.
  unfold encodeCodePoint. destruct (N.ltb_spec c 65536) as [Hc|Hc]; cbn [forallb].
  - by rewrite andb_true_r.
  - rewrite (surrogate_not_space (56320 + _)%N).
    + rewrite andb_false_r. symmetry.
      destruct (isSpace c) eqn:E; [| done]. apply isSpace_true in E. lia.
    + assert ((c - 65536) mod 1024 < 1024)%N as Hm by (by apply N.mod_lt).
      revert Hm. generalize ((c - 65536) mod 1024)%N. intros m Hm. lia.
Qed.

Lemma blank_fromCodePoints l : forallb isSpace (fromCodePoints l) = forallb isSpace l.
Proof.
  unfold fromCodePoints. induction l as [|c l IH]; [done |].
  cbn [List.map List.concat forallb]. by rewrite forallb_app, blank_encodeCodePoint, IH.
Qed.

Lemma blank_lowerCodePoint before c after :
  forallb isSpace (lowerCodePoint before c after) = isSpace c.
Proof.
  unfold lowerCodePoint.
  destruct (N.eqb_spec c 304) as [->|_]; [done |].
  destruct (N.eqb_spec c 931) as [->|_]; [by destruct (finalSigma _ _) |].
  cbn [forallb]. by rewrite andb_true_r, isSpace_lowercase.
Qed.

Lemma blank_lowerCodePoints before l :
  forallb isSpace (lowerCodePoints before l) = forallb isSpace l.
Proof.
  revert before. induction l as [|c l IH]; intros before; [done |].
  cbn [lowerCodePoints forallb]. by rewrite forallb_app, blank_lowerCodePoint, IH.
Qed.

(** A string and its lower-cased form are blank together. *)
Lemma blank_toLowerCase s : forallb isSpace (toLowerCase s) = forallb isSpace s.
Proof.
  unfold toLowerCase.
  by rewrite blank_fromCodePoints, blank_lowerCodePoints, blank_toCodePoints.
Qed.

Lemma dropWhile_head p s c r : dropWhile p s = c :: r -> p c = false.
Proof.
  induction s as [|x s IH]; simpl; [done |].
  destruct (p x) eqn:E; [done | by intros [= <- <-]].
Qed.

Lemma dropWhile_fixed p s :
  match s with [] => True | c :: _ => p c = false end -> dropWhile p s = s.
Proof. destruct s as [|c s]; simpl; [done | by intros ->]. Qed.

Lemma dropWhile_idem p s : dropWhile p (dropWhile p s) = dropWhile p s.
Proof.
  apply dropWhile_fixed. destruct (dropWhile p s) eqn:E; [done |].
  by eapply dropWhile_head.
Qed.

Lemma dropWhile_snoc p a x :
  p x = false -> dropWhile p (a ++ [x]) = dropWhile p a ++ [x].
Proof.
  intros Hx. induction a as [|c a IH]; simpl; [by rewrite Hx |].
  by destruct (p c).
Qed.

Lemma dropWhileEnd_cons p x s :
  p x = false -> dropWhileEnd p (x :: s) = x :: dropWhileEnd p s.
Proof.
  intros Hx. unfold dropWhileEnd. simpl.
  by rewrite dropWhile_snoc, rev_app_distr.
Qed.

Lemma dropWhileEnd_idem p s : dropWhileEnd p (dropWhileEnd p s) = dropWhileEnd p s.
Proof. unfold dropWhileEnd. by rewrite rev_involutive, dropWhile_idem. Qed.

Lemma trim_idem s : trim (trim s) = trim s.
Proof.
  unfold trim. destruct (dropWhile isSpace s) as [|c r] eqn:E; [done |].
  pose proof (dropWhile_head _ _ _ _ E) as Hc.
  rewrite dropWhileEnd_cons by done. simpl. rewrite Hc.
  rewrite <- dropWhileEnd_cons by done. apply dropWhileEnd_idem.
Qed.

Lemma dropWhile_blank p (s : jsstring) :
  isEmptyStr (dropWhile p s) = forallb p s.
Proof.
  induction s as [|c s IH]; [done |]. cbn [dropWhile forallb].
  by destruct (p c).
Qed.

(** [trim] leaves nothing exactly of a blank string. *)
Lemma isEmptyStr_trim s : isEmptyStr (trim s) = forallb isSpace s.
Proof.
  rewrite <- dropWhile_blank. unfold trim.
  destruct (dropWhile isSpace s) as [|c r] eqn:E; [done |].
  apply dropWhile_head in E. by rewrite dropWhileEnd_cons.
Qed.

Lemma normalize_FStr s : normalize (FStr s) = trim (foldYo (toLowerCase s)).
Proof. reflexivity. Qed.

Lemma normalize_orEmpty v : normalize (FStr (orEmpty v)) = normalize v.
Proof. by destruct v. Qed.

(** [normalize] gives the empty string exactly for a blank one. *)
Lemma normalize_blank s : isEmptyStr (normalize (FStr s)) = isEmptyStr (trim s).
Proof.
  by rewrite normalize_FStr, !isEmptyStr_trim, blank_foldYo, blank_toLowerCase.
Qed.
(* ===================================================================== *)
(** ** Lower-casing of plain text *)
(* ===================================================================== *)

Lemma skips_spec a b t c :
  Unicode.skips a b t = true -> (a <= c <= b)%N -> Unicode.mapWith t c = c.
Proof.
  intros Ht Hc. destruct (mapWith_cases t c) as [E|(r & Hin & Hrow & _)]; [done |].
  unfold Unicode.skips in Ht. rewrite forallb_forall in Ht. specialize (Ht r Hin).
  destruct r as [[[lo hi] step] to]. apply inRow_bounds in Hrow.
  apply orb_true_iff in Ht as [Ht%N.ltb_lt|Ht%N.ltb_lt]; lia.
Qed.

Lemma shifts_spec a b to t c :
  Unicode.shifts a b to t = true -> (a <= c <= b)%N ->
  Unicode.mapWith t c = (to + (c - a))%N.
Proof.
  unfold Unicode.shifts. intros [Hex Hall]%andb_true_iff Hc.
  rewrite forallb_forall in Hall. unfold Unicode.mapWith.
  destruct (List.find (Unicode.inRow c) t) as [r|] eqn:Ef.
  - apply List.find_some in Ef as [Hin Hrow]. specialize (Hall r Hin).
    destruct r as [[[lo hi] step] to']. apply inRow_bounds in Hrow.
    apply orb_true_iff in Hall as [Hall|Hall%N.ltb_lt]; [| lia].
    apply orb_true_iff in Hall as [Hall|Hall%N.ltb_lt]; [| lia].
    rewrite !andb_true_iff, !N.eqb_eq in Hall. destruct Hall as [[[-> _] _] ->].
    done.
  - exfalso. apply existsb_exists in Hex as (r & Hin & Hr).
    pose proof (List.find_none _ _ Ef r Hin) as Hno.
    destruct r as [[[lo hi] step] to'].
    rewrite !andb_true_iff, !N.eqb_eq in Hr. destruct Hr as [[[-> ->] ->] _].
    unfold Unicode.inRow in Hno. rewrite N.mod_1_r in Hno.
    rewrite !andb_false_iff, !N.leb_gt in Hno. destruct Hno as [[?|?]|?]; [lia | lia | done].
Qed.

Lemma staysBelow_spec a b t c :
  Unicode.staysBelow a b t = true -> (a <= b)%N -> (c < a)%N ->
  (Unicode.mapWith t c < b)%N.
Proof.
  intros Ht Hab Hc. destruct (mapWith_cases t c) as [->|(r & Hin & Hrow & ->)]; [lia |].
  unfold Unicode.staysBelow in Ht. rewrite forallb_forall in Ht. specialize (Ht r Hin).
  destruct r as [[[lo hi] step] to]. apply inRow_bounds in Hrow.
  unfold Unicode.applyRow.
  apply orb_true_iff in Ht as [Ht%N.leb_le|Ht%N.ltb_lt]; lia.
Qed.

Lemma plainUnit_spec c :
  plainUnit c = true
  <-> ((c < 55296 \/ 57343 < c < 65536) /\ c <> 304 /\ c <> 931)%N.
Proof.
  unfold plainUnit, isHighSurrogate, isLowSurrogate.
  rewrite !andb_true_iff, !negb_true_iff, !orb_false_iff, !andb_false_iff,
    N.ltb_lt, !N.leb_gt, !N.eqb_neq.
  lia.
Qed.

Lemma blank_plain s : forallb isSpace s = true -> plainText s = true.
Proof.
  unfold plainText. rewrite !forallb_forall. intros H c Hc.
  specialize (H c Hc). apply isSpace_true in H. apply plainUnit_spec. lia.
Qed.

Lemma toCodePoints_plain s : plainText s = true -> toCodePoints s = s.
Proof.
  unfold plainText. induction s as [|c s IH]; [done |].
  cbn [forallb]. intros [Hc Hs]%andb_true_iff.
  destruct s as [|d r]; [done |]. rewrite toCodePoints_pair.
  apply plainUnit_spec in Hc as (Hc & _ & _).
  assert (isHighSurrogate c = false) as ->.
  { unfold isHighSurrogate. rewrite andb_false_iff, !N.leb_gt. lia. }
  cbn [andb]. by rewrite IH.
Qed.

Lemma lowerCodePoints_plain before s :
  plainText s = true ->
  lowerCodePoints before s = List.map (Unicode.mapWith Unicode.simpleLowercase) s.
Proof.
  unfold plainText. revert before. induction s as [|c s IH]; intros before; [done |].
  cbn [forallb]. intros [Hc Hs]%andb_true_iff.
  cbn [lowerCodePoints List.map]. rewrite IH by done.
  apply plainUnit_spec in Hc as (_ & H1 & H2). unfold lowerCodePoint.
  apply N.eqb_neq in H1, H2. by rewrite H1, H2.
Qed.

Lemma fromCodePoints_small l :
  Forall (fun c => (c < 65536)%N) l -> fromCodePoints l = l.
Proof.
  unfold fromCodePoints. induction 1 as [|c l Hc _ IH]; [done |].
  cbn [List.map List.concat]. rewrite IH. unfold encodeCodePoint.
  apply N.ltb_lt in Hc. by rewrite Hc.
Qed.

(** Plain text is lower-cased code unit by code unit. *)
Lemma toLowerCase_plain s :
  plainText s = true ->
  toLowerCase s = List.map (Unicode.mapWith Unicode.simpleLowercase) s.
Proof.
  intros Hs. unfold toLowerCase.
  rewrite toCodePoints_plain, lowerCodePoints_plain by done.
  apply fromCodePoints_small, Forall_forall. intros x Hx.
  apply list_elem_of_In, in_map_iff in Hx as (c & <- & Hc).
  unfold plainText in Hs. rewrite forallb_forall in Hs.
  apply Hs, plainUnit_spec in Hc as (Hc & _).
  apply (staysBelow_spec 65536); [by vm_compute | lia | lia].
Qed.

Lemma lowercase_smallLetter c :
  Unicode.mapWith Unicode.simpleLowercase (smallLetter c)
  = Unicode.mapWith Unicode.simpleLowercase c.
Proof.
  unfold smallLetter.
  destruct ((65 <=? c) && (c <=? 90) || (1040 <=? c) && (c <=? 1071))%N eqn:E.
  - apply orb_true_iff in E as [E|E];
      apply andb_true_iff in E as [?%N.leb_le ?%N.leb_le].
    + rewrite (skips_spec 97 122) by first [lia | by vm_compute].
      rewrite (shifts_spec 65 90 97) by first [lia | by vm_compute]. lia.
    + rewrite (skips_spec 1072 1103) by first [lia | by vm_compute].
      rewrite (shifts_spec 1040 1071 1072) by first [lia | by vm_compute]. lia.
  - destruct (N.eqb_spec c 1025) as [->|_]; [by vm_compute | done].
Qed.

Lemma plainText_smallLetter s : plainText (List.map smallLetter s) = plainText s.
Proof.
  unfold plainText. induction s as [|c s IH]; [done |].
  cbn [List.map forallb]. rewrite IH. f_equal.
  apply eq_true_iff_eq. rewrite !plainUnit_spec. unfold smallLetter.
  destruct ((65 <=? c) && (c <=? 90) || (1040 <=? c) && (c <=? 1071))%N eqn:E.
  - apply orb_true_iff in E as [E|E];
      apply andb_true_iff in E as [?%N.leb_le ?%N.leb_le]; lia.
  - destruct (N.eqb_spec c 1025) as [->|_]; [lia | done].
Qed.

(** Lower-casing does not see whether a Latin or Russian letter of a
    plain text is capital or small. *)
Lemma toLowerCase_smallLetter s :
  plainText s = true -> toLowerCase (List.map smallLetter s) = toLowerCase s.
Proof.
  intros Hs. rewrite !toLowerCase_plain by (by rewrite ?plainText_smallLetter).
  rewrite map_map. apply map_ext. intros c. apply lowercase_smallLetter.
Qed.

Lemma foldYo_lowercase_foldYo c :
  foldYoChar (Unicode.mapWith Unicode.simpleLowercase (foldYoChar c))
  = foldYoChar (Unicode.mapWith Unicode.simpleLowercase c).
Proof. destruct (foldYoChar_cases c) as [->|[-> ->]]; [done | by vm_compute]. Qed.

Lemma plainText_foldYo s : plainText (foldYo s) = plainText s.
Proof.
  unfold plainText, foldYo. induction s as [|c s IH]; [done |].
  cbn [List.map forallb]. rewrite IH. f_equal.
  destruct (foldYoChar_cases c) as [->|[-> ->]]; done.
Qed.

Lemma plainText_app a b : plainText (a ++ b) = plainText a && plainText b.
Proof. apply forallb_app. Qed.

Lemma dropWhile_blank_prefix (a x : jsstring) :
  forallb isSpace a = true -> dropWhile isSpace (a ++ x) = dropWhile isSpace x.
Proof.
  induction a as [|c a IH]; [done |]. cbn [forallb app dropWhile].
  intros [-> Ha]%andb_true_iff. by apply IH.
Qed.

Lemma trim_padded (a x b : jsstring) :
  forallb isSpace a = true -> forallb isSpace b = true ->
  trim (a ++ x ++ b) = trim x.
Proof.
  intros Ha Hb. unfold trim. rewrite dropWhile_blank_prefix by done.
  unfold dropWhileEnd.
  destruct (dropWhile isSpace x) as [|c r] eqn:E.
  - (* nothing but white space *)
    assert (forallb isSpace x = true) as Hx by (by rewrite <- dropWhile_blank, E).
    assert (dropWhile isSpace (x ++ b) = []) as ->; [| done].
    rewrite dropWhile_blank_prefix by done.
    pose proof (dropWhile_blank isSpace b) as Hd. rewrite Hb in Hd.
    by destruct (dropWhile isSpace b).
  - assert (dropWhile isSpace (x ++ b) = (c :: r) ++ b) as ->.
    { clear Ha. induction x as [|y x IH]; [done |]. cbn [app dropWhile] in *.
      destruct (isSpace y); [by apply IH | by injection E as -> ->]. }
    rewrite rev_app_distr, dropWhile_blank_prefix; [done |].
    apply forallb_forall. intros y Hy%in_rev.
    rewrite forallb_forall in Hb. by apply Hb.
Qed.

Lemma normalize_smallLetter v :
  plainText (orEmpty v) = true ->
  normalize (FStr (List.map smallLetter (orEmpty v))) = normalize v.
Proof.
  intros Hv. rewrite <- (normalize_orEmpty v), !normalize_FStr.
  by rewrite toLowerCase_smallLetter.
Qed.

Lemma normalize_foldYo v :
  plainText (orEmpty v) = true -> normalize (FStr (foldYo (orEmpty v))) = normalize v.
Proof.
  intros Hv. rewrite <- (normalize_orEmpty v), !normalize_FStr.
  rewrite !toLowerCase_plain by (by rewrite ?plainText_foldYo).
  f_equal. unfold foldYo. rewrite !map_map. apply map_ext. intros c.
  apply foldYo_lowercase_foldYo.
Qed.

Lemma blank_lowercase s :
  forallb isSpace (List.map (Unicode.mapWith Unicode.simpleLowercase) s)
  = forallb isSpace s.
Proof.
  induction s as [|c s IH]; [done |]. cbn [List.map forallb].
  by rewrite isSpace_lowercase, IH.
Qed.

Lemma normalize_padded v (before after : jsstring) :
  plainText (orEmpty v) = true ->
  forallb isSpace before = true -> forallb isSpace after = true ->
  normalize (FStr (before ++ orEmpty v ++ after)) = normalize v.
Proof.
  intros Hv Hb Ha. rewrite <- (normalize_orEmpty v), !normalize_FStr.
  rewrite !toLowerCase_plain
    by (by rewrite ?plainText_app, ?Hv, ?(blank_plain before), ?(blank_plain after)).
  unfold foldYo. rewrite !map_app.
  apply trim_padded.
  - change (forallb isSpace (foldYo (List.map (Unicode.mapWith Unicode.simpleLowercase) before))
            = true).
    by rewrite blank_foldYo, blank_lowercase.
  - change (forallb isSpace (foldYo (List.map (Unicode.mapWith Unicode.simpleLowercase) after))
            = true).
    by rewrite blank_foldYo, blank_lowercase.
Qed.

(** X6.  The key on which mergeDoctors matches records does not see
    whether a Latin or Russian letter of a name part is capital or small,
    nor the difference between ё and е, nor white space around a part:
    for name parts that hold no surrogate, no dotted capital I and no
    capital sigma. *)
Theorem makeNameKey_ignores_case_yo_and_padding (d : ArchimedDoctor)
    (before after : jsstring) :
  plainNames d = true ->
  forallb isSpace before = true -> forallb isSpace after = true ->
  makeNameKey (mapNames (List.map smallLetter) d) = makeNameKey d
  /\ makeNameKey (mapNames foldYo d) = makeNameKey d
  /\ makeNameKey (mapNames (fun s => before ++ s ++ after) d) = makeNameKey d.
Proof.
  unfold plainNames. intros [[H0 H1]%andb_true_iff H2]%andb_true_iff Hb Ha.
  unfold makeNameKey, mapNames. cbn [name name1 name2].
  by rewrite !normalize_smallLetter, !normalize_foldYo, !normalize_padded.
Qed.

Lemma makeNameKey_ignores_case_yo_and_padding_witness :
  let d := doctorNamed 7 "ЁЛКИН" "Иван" "" "Терапевт" in
  makeNameKey (mapNames (List.map smallLetter) d) = makeNameKey d
  /\ makeNameKey (mapNames foldYo d) = makeNameKey d
  /\ makeNameKey (mapNames (fun s => [32; 9]%N ++ s ++ [160]%N) d) = makeNameKey d.
Proof.
  apply (makeNameKey_ignores_case_yo_and_padding
           (doctorNamed 7 "ЁЛКИН" "Иван" "" "Терапевт") [32; 9]%N [160]%N);
    by vm_compute.
Defined.

Lemma truthy_mapped (f : N -> N) v :
  truthy (FStr (List.map f (orEmpty v))) = truthy v.
Proof. by destruct v as [| |[|c s]]. Qed.

Lemma mapped_parts (f : N -> N) (l : list field) :
  List.map orEmpty
    (List.filter truthy (List.map (fun v => FStr (List.map f (orEmpty v))) l))
  = List.map (List.map f) (List.map orEmpty (List.filter truthy l)).
Proof.
  induction l as [|v l IH]; [done |].
  cbn [List.map List.filter]. rewrite truthy_mapped.
  destruct (truthy v) eqn:E; cbn [List.map List.filter]; [| done].
  rewrite IH. by destruct v.
Qed.

Lemma join_mapped (f : N -> N) sep parts :
  join (List.map f sep) (List.map (List.map f) parts) = List.map f (join sep parts).
Proof.
  induction parts as [|p [|q parts] IH]; [done | done |].
  change (join sep (p :: q :: parts)) with (p ++ sep ++ join sep (q :: parts)).
  rewrite !map_app, <- IH. done.
Qed.

Lemma plainText_join sep parts :
  plainText sep = true -> Forall (fun p => plainText p = true) parts ->
  plainText (join sep parts) = true.
Proof.
  intros Hsep. induction 1 as [|p parts Hp Hparts IH]; [done |].
  destruct parts as [|q parts]; [done |].
  change (join sep (p :: q :: parts)) with (p ++ sep ++ join sep (q :: parts)).
  by rewrite !plainText_app, Hp, Hsep, IH.
Qed.

(** X7.  The blacklist does not see whether a Latin or Russian letter of
    a name part is capital or small: a record is removed from the lists,
    and hidden by getDoctor, exactly when the record with its capital
    letters made small is (for name parts that hold no surrogate, no
    dotted capital I and no capital sigma). *)
Theorem isBlacklisted_ignores_case (d : ArchimedDoctor) :
  plainNames d = true ->
  makeFullName (mapNames (List.map smallLetter) d) = makeFullName d
  /\ isBlacklisted (mapNames (List.map smallLetter) d) = isBlacklisted d.
Proof.
  unfold plainNames. intros [[H0 H1]%andb_true_iff H2]%andb_true_iff.
  assert (makeFullName (mapNames (List.map smallLetter) d) = makeFullName d) as H.
  { unfold makeFullName, mapNames. cbn [name name1 name2].
    pose proof (mapped_parts smallLetter [name d; name1 d; name2 d]) as Hl.
    cbn [List.map] in Hl. rewrite Hl. clear Hl.
    set (parts := List.map orEmpty (List.filter truthy [name d; name1 d; name2 d])).
    assert (plainText (join (utf8 " ") parts) = true) as Hj.
    { apply plainText_join; [by vm_compute |]. subst parts.
      apply Forall_forall. intros p Hp.
      apply list_elem_of_In, in_map_iff in Hp as (v & <- & Hv).
      apply filter_In in Hv as [Hv _]. cbn [In] in Hv.
      destruct Hv as [<-|[<-|[<-|[]]]]; done. }
    change (utf8 " ") with (List.map smallLetter (utf8 " ")) at 1.
    rewrite join_mapped. unfold normalizeRu. cbn [orEmpty].
    by rewrite toLowerCase_smallLetter. }
  split; [done |]. unfold isBlacklisted. by rewrite H.
Qed.

Lemma isBlacklisted_ignores_case_witness :
  isBlacklisted (doctorNamed 3 "ХОРБАА" "Анжела" "ТАРАСОВНА" "Терапевт") = true.
Proof.
  destruct (isBlacklisted_ignores_case
              (doctorNamed 3 "ХОРБАА" "Анжела" "ТАРАСОВНА" "Терапевт"))
    as [_ <-]; by vm_compute.
Defined.

(* ===================================================================== *)
(** ** applyRemovals *)
(* ===================================================================== *)

Lemma applyRemovals_fixed l : applyRemovals l = l <-> clean l.
Proof.
  unfold applyRemovals, clean. induction l as [|d l IH]; simpl.
  - split; [constructor | done].
  - destruct (isBlacklisted d) eqn:E; simpl.
    + split.
      * intros H. exfalso.
        assert (length (List.filter (fun d0 => negb (isBlacklisted d0)) l) <= length l)%nat
          by apply filter_length_le.
        rewrite H in *. simpl in *. lia.
      * intros H. inversion H; congruence.
    + split.
      * intros [= H]. constructor; [done | by apply IH].
      * intros H. inversion H; subst. f_equal. by apply IH.
Qed.

(** X8.  applyRemovals keeps the order of the records it keeps, removes
    exactly the blacklisted ones, distributes over concatenation, and
    applying it again changes nothing. *)
Theorem applyRemovals_filters_once (l l' : list ArchimedDoctor) :
  applyRemovals (applyRemovals l) = applyRemovals l
  /\ sublist (applyRemovals l) l
  /\ (forall d, d ∈ applyRemovals l <-> d ∈ l /\ isBlacklisted d = false)
  /\ (applyRemovals l = l <-> clean l)
  /\ applyRemovals (l ++ l') = applyRemovals l ++ applyRemovals l'.
Proof.
  split_and!.
  - apply applyRemovals_fixed, applyRemovals_clean.
  - unfold applyRemovals. induction l as [|d l IH]; simpl; [constructor |].
    destruct (negb (isBlacklisted d)); by constructor.
  - intros d. unfold applyRemovals.
    rewrite !list_elem_of_In, filter_In, negb_true_iff. tauto.
  - apply applyRemovals_fixed.
  - unfold applyRemovals. apply List.filter_app.
Qed.

(* ===================================================================== *)
(** ** writeToStorage and readFromStorage together *)
(* ===================================================================== *)

(** X9.  What writeToStorage stores under a key, readFromStorage reads
    back under that key, whatever the TTL and however late, as long as the
    data is truthy and the clock does not read 0; other keys are not
    touched; and when the storage refuses the write, every key reads as
    before. *)
Theorem storage_round_trip (w w' : World) (key : string) (data : jsval)
    (store : gmap string stored) (ttlMs : Z) :
  has_window w = true -> has_window w' = true ->
  (storage_full w = false -> now w <> 0 -> truthyVal data = true ->
   readFromStorage w' key ttlMs (writeToStorage w key data store) = Some data)
  /\ (forall key', key' <> key ->
        readFromStorage w' key' ttlMs (writeToStorage w key data store)
        = readFromStorage w' key' ttlMs store)
  /\ (storage_full w = true ->
      forall key', readFromStorage w' key' ttlMs (writeToStorage w key data store)
                   = readFromStorage w' key' ttlMs store).
Proof.
  intros Hw Hw'. unfold writeToStorage. rewrite Hw. cbn [negb]. split_and!.
  - intros -> Hnow Hd. unfold readFromStorage. rewrite Hw'. cbn [negb].
    rewrite lookup_insert_eq. cbn [truthyVal prop_data prop_timestamp truthyNum].
    rewrite Hd. destruct (Z.eqb_spec (now w) 0); [done |]. cbn.
    by destruct (_ <? _).
  - intros key' Hne. unfold readFromStorage.
    destruct (storage_full w); [done |]. by rewrite lookup_insert_ne.
  - by intros ->.
Qed.

Lemma storage_round_trip_witness :
  readFromStorage worldGatewayDown DOCTORS_CACHE_KEY DOCTORS_CACHE_TTL_MS
    (writeToStorage worldGatewayDown DOCTORS_CACHE_KEY (VArray [ivanov]) ∅)
  = Some (VArray [ivanov]).
Proof.
  destruct (storage_round_trip worldGatewayDown worldGatewayDown DOCTORS_CACHE_KEY
              (VArray [ivanov]) ∅ DOCTORS_CACHE_TTL_MS eq_refl eq_refl) as [H _].
  apply H; [reflexivity | by vm_compute | reflexivity].
Defined.
(* ===================================================================== *)
(** ** mergeDoctors: order and size of the result *)
(* ===================================================================== *)

Lemma map_keys_set_add {V} (m : jsmap V) k v :
  map_keys (map_set k v m) = set_add k (map_keys m).
Proof. rewrite map_keys_set. reflexivity. Qed.

Lemma map_set_fresh {V} (m : jsmap V) k v :
  k ∉ map_keys m -> map_set k v m = m ++ [(k, v)].
Proof.
  induction m as [|[k0 v0] m IH]; simpl; [done |].
  rewrite not_elem_of_cons. intros [Hne Hm].
  rewrite bool_decide_eq_false_2 by congruence. by rewrite IH.
Qed.

Lemma mkSet_app a b : mkSet (a ++ b) = fold_left (fun s x => set_add x s) b (mkSet a).
Proof. unfold mkSet. apply fold_left_app. Qed.

Lemma set_add_length x s : (length (set_add x s) <= S (length s))%nat.
Proof.
  unfold set_add. case_bool_decide; [lia |]. rewrite length_app. simpl. lia.
Qed.

Lemma fold_set_add_length l s :
  (length (fold_left (fun s x => set_add x s) l s) <= length s + length l)%nat.
Proof.
  revert s. induction l as [|x l IH]; simpl; intros s; [lia |].
  specialize (IH (set_add x s)). pose proof (set_add_length x s). lia.
Qed.

Lemma mkSet_length l : (length (mkSet l) <= length l)%nat.
Proof. unfold mkSet. pose proof (fold_set_add_length l []). simpl in *. lia. Qed.



Section MergeOrder.

Context {D : Type} (key : D -> jsstring) (f : D -> D -> D).

Lemma stepWith_keys_set_add (m : jsmap D) d :
  map_keys (stepWith key f m d) = set_add (key d) (map_keys m).
Proof. unfold stepWith. destruct (map_get (key d) m); apply map_keys_set_add. Qed.

Lemma loop_keys_order extra (m : jsmap D) :
  map_keys (fold_left (stepWith key f) extra m)
  = fold_left (fun s x => set_add x s) (List.map key extra) (map_keys m).
Proof.
  revert m. induction extra as [|d extra IH]; simpl; intros m; [done |].
  by rewrite IH, stepWith_keys_set_add.
Qed.

Lemma collect_keys_order primary (m : jsmap D) :
  map_keys (fold_left (fun byName d => map_set (key d) d byName) primary m)
  = fold_left (fun s x => set_add x s) (List.map key primary) (map_keys m).
Proof.
  revert m. induction primary as [|d primary IH]; simpl; intros m; [done |].
  by rewrite IH, map_keys_set_add.
Qed.

Lemma collect_fresh primary (m : jsmap D) :
  NoDup (map_keys m ++ List.map key primary) ->
  fold_left (fun byName d => map_set (key d) d byName) primary m
  = m ++ List.map (fun d => (key d, d)) primary.
Proof.
  revert m. induction primary as [|d primary IH]; simpl; intros m Hnd.
  - by rewrite app_nil_r.
  - assert (key d ∉ map_keys m) as Hd.
    { apply NoDup_app in Hnd as (_ & Hnd & _). intros Hin. apply (Hnd _ Hin).
      apply elem_of_cons. by left. }
    rewrite map_set_fresh by done. rewrite IH.
    + by rewrite <- app_assoc.
    + unfold map_keys in *. rewrite map_app, <- app_assoc. exact Hnd.
Qed.

Lemma loop_fresh extra (m : jsmap D) :
  NoDup (map_keys m ++ List.map key extra) ->
  fold_left (stepWith key f) extra m = m ++ List.map (fun d => (key d, d)) extra.
Proof.
  revert m. induction extra as [|d extra IH]; simpl; intros m Hnd.
  - by rewrite app_nil_r.
  - assert (key d ∉ map_keys m) as Hd.
    { apply NoDup_app in Hnd as (_ & Hnd & _). intros Hin. apply (Hnd _ Hin).
      apply elem_of_cons. by left. }
    assert (stepWith key f m d = m ++ [(key d, d)]) as ->.
    { unfold stepWith. apply map_get_None_keys in Hd. rewrite Hd.
      apply map_set_fresh. by apply map_get_None_keys. }
    rewrite IH.
    + by rewrite <- app_assoc.
    + unfold map_keys in *. rewrite map_app, <- app_assoc. exact Hnd.
Qed.

End MergeOrder.

(** X10.  The records that mergeDoctors returns stand in the order in
    which their keys first appear in primary followed by extra; there are
    no more of them than the two lists hold together; and when no two
    records of the two lists have the same key, the result is primary
    followed by extra, every record as it was. *)
Theorem mergeDoctors_keeps_first_appearance_order (primary extra : list ArchimedDoctor) :
  List.map makeNameKey (mergeDoctors primary extra)
  = mkSet (List.map makeNameKey (primary ++ extra))
  /\ (length (mergeDoctors primary extra) <= length primary + length extra)%nat
  /\ (NoDup (List.map makeNameKey (primary ++ extra)) ->
      mergeDoctors primary extra = primary ++ extra).
Proof.
  assert (List.map makeNameKey (mergeDoctors primary extra)
          = mkSet (List.map makeNameKey (primary ++ extra))) as Hkeys.
  { unfold mergeDoctors.
    rewrite (keyedBy_values_keys _ _ (mergeMap_keyed primary extra)).
    rewrite mergeMap_stepWith, loop_keys_order, collect_keys_order.
    by rewrite map_app, mkSet_app. }
  split_and!.
  - done.
  - rewrite <- (length_map makeNameKey (mergeDoctors primary extra)), Hkeys.
    etrans; [apply mkSet_length |]. by rewrite length_map, length_app.
  - intros Hnd. unfold mergeDoctors. rewrite mergeMap_stepWith.
    rewrite map_app in Hnd.
    rewrite (collect_fresh makeNameKey primary []).
    + rewrite loop_fresh.
      * unfold map_values. rewrite map_app, !map_map. simpl.
        f_equal; [rewrite map_map |]; apply map_id.
      * unfold map_keys. simpl. by rewrite map_map.
    + simpl. by apply NoDup_app in Hnd as (? & _ & _).
Qed.
(* ===================================================================== *)
(** ** mergeOne: the types of the merged record *)
(* ===================================================================== *)






(* ===================================================================== *)
(** ** getDoctors: the answer, the cache and the storage slot *)
(* ===================================================================== *)

Lemma readFromStorage_window w w' key ttl ttl' store :
  has_window w = has_window w' ->
  readFromStorage w key ttl store = readFromStorage w' key ttl' store.
Proof.
  intros H. unfold readFromStorage. rewrite H.
  destruct (negb (has_window w')); [done |].
  destruct (store !! key) as [[| |parsed]|]; try done.
  destruct (_ || _); [done |]. by destruct (_ <? _), (_ <? _).
Qed.

Lemma read_written w w' key ttl data store :
  has_window w = true -> storage_full w = false -> now w <> 0 ->
  has_window w' = true -> truthyVal data = true ->
  readFromStorage w' key ttl (writeToStorage w key data store) = Some data.
Proof.
  intros Hw Hf Hn Hw' Hd. unfold readFromStorage, writeToStorage.
  rewrite Hw, Hw', Hf. cbn [negb]. rewrite lookup_insert_eq.
  cbn [truthyVal prop_data prop_timestamp truthyNum default]. rewrite Hd.
  apply Z.eqb_neq in Hn. rewrite Hn. cbn [negb orb]. by destruct (_ <? _).
Qed.

Lemma construct_written w w' cache store :
  has_window w = true -> storage_full w = false -> now w <> 0 ->
  has_window w' = true ->
  doctorsCache
    (construct w' (writeToStorage w DOCTORS_CACHE_KEY (VArray (applyRemovals cache)) store))
  = applyRemovals cache.
Proof.
  intros Hw Hf Hn Hw'. unfold construct.
  rewrite (read_written w w') by done. cbn [doctorsCache].
  apply applyRemovals_fixed, applyRemovals_clean.
Qed.

Lemma finish_cached w l st x :
  finish w l st = x ->
  match snd x with
  | Resolved result _ => doctorsCache (fst x) = result
  | Pending _ => True
  end.
Proof. by intros <-. Qed.

(** X12.  Whatever path a call of getDoctors takes, the list it resolves
    with is the in-memory cache it leaves; when that list is not empty, a
    later call that finds the state as this call left it (no refresh
    having completed in between) resolves with the same list, whatever the
    network and the storage do by then, changes nothing and starts a
    background refresh. *)
Theorem getDoctors_answer_is_cached (w : World) (st : State) :
  let '(st', result, _) := getDoctors w st in
  doctorsCache st' = result
  /\ (result <> [] -> forall w', getDoctors w' st' = (st', result, true)).
Proof.
  assert (forall st' result, doctorsCache st' = result ->
            doctorsCache st' = result
            /\ (result <> [] -> forall w', getDoctors w' st' = (st', result, true)))
    as Hlater.
  { intros st' result <-. split; [done |]. intros Hne w'.
    unfold getDoctors, getDoctors_begin. by destruct (doctorsCache st'). }
  unfold getDoctors.
  destruct (getDoctors_begin w st) as [st' [result started|at_]] eqn:E.
  - apply Hlater. revert E. unfold getDoctors_begin, fallbackApi, fallbackLocal, finish.
    destruct (doctorsCache st) eqn:Ec; [| by intros [= <- <- _]].
    repeat (match goal with
            | |- context [match ?x with _ => _ end] => destruct x
            | |- context [if ?b then _ else _] => destruct b
            end; try (by intros [= <- <- _]); try done).
  - unfold getDoctors_resume. by apply Hlater.
Qed.

(** X13.  A call of getDoctors that starts with an empty in-memory cache,
    in a browser whose storage accepts the write and whose clock is not at
    0, leaves its answer in the storage slot: a service object constructed
    afterwards on that storage starts with exactly the list the call
    resolved with as its cache. *)
Theorem getDoctors_persists_its_answer (w w' : World) (st : State) :
  doctorsCache st = [] ->
  has_window w = true -> storage_full w = false -> now w <> 0 ->
  has_window w' = true ->
  doctorsCache (construct w' (storage (fst (fst (getDoctors w st)))))
  = snd (fst (getDoctors w st)).
Proof.
  intros Hc Hw Hf Hn Hw'.
  assert (forall l store,
            doctorsCache
              (construct w'
                 (writeToStorage w DOCTORS_CACHE_KEY (VArray (applyRemovals l)) store))
            = applyRemovals l) as Hwritten.
  { intros l store. by apply construct_written. }
  unfold getDoctors, getDoctors_begin. rewrite Hc, Hw. cbn [negb].
  destruct (readFromStorage w DOCTORS_CACHE_KEY DOCTORS_CACHE_TTL_MS (storage st))
    as [[| | | | |[|d elements]|[| | | | |normalized|] ts]|] eqn:Er.
  (* every path but one ends with a write of the answer *)
  all: try (slow_paths w; by apply Hwritten).
  (* the slot holds a non-empty array: it is left as it is *)
  cbn [fst snd setCache storage]. unfold construct.
  rewrite <- (readFromStorage_window w w' _ DOCTORS_CACHE_TTL_MS) by congruence.
  by rewrite Er.
Qed.

Lemma getDoctors_persists_its_answer_witness :
  doctorsCache (construct worldGatewayOk
                  (storage (fst (fst (getDoctors worldGatewayDown coldState)))))
  = snd (fst (getDoctors worldGatewayDown coldState)).
Proof.
  apply (getDoctors_persists_its_answer worldGatewayDown worldGatewayOk coldState);
    by vm_compute.
Defined.

(** X14.  With empty caches and a gateway that answers successfully with
    a body that parses, getDoctors also asks the API and resolves with the
    longer of the two lists, the gateway's on a tie, filtered by the
    blacklist; the ProDoctorov snapshot is merged in only when both lists
    are empty, and the bundled snapshot and the mock list play no part. *)
Theorem getDoctors_prefers_longer_list (w : World) (st : State) (body : GatewayBody) :
  doctorsCache st = [] ->
  readFromStorage w DOCTORS_CACHE_KEY DOCTORS_CACHE_TTL_MS (storage st) = None ->
  has_window w = true ->
  gateway w = GatewayResponds true body -> body <> BodyInvalid ->
  let publicData := match body with BodyArray l | BodyData l => l | _ => [] end in
  let apiAll := fetched (fetchAllDoctorsFromAPI w) in
  let result := snd (fst (getDoctors w st)) in
  (publicData <> [] -> (length apiAll <= length publicData)%nat ->
     result = applyRemovals publicData)
  /\ ((length publicData < length apiAll)%nat -> result = applyRemovals apiAll)
  /\ (publicData = [] -> apiAll = [] ->
        result = applyRemovals
                   (match prodoctorov w with
                    | [] => []
                    | _ :: _ => mergeDoctors [] (prodoctorov w)
                    end)).
Proof.
  intros Hc Hr Hw Hg Hb publicData apiAll result.
  assert (result
          = snd (fst (match (if Z.of_nat (length publicData) <? Z.of_nat (length apiAll)
                             then apiAll else publicData) with
                      | [] =>
                          match fallbackApi w st with
                          | (st', Resolved r b) => (st', r, b)
                          | (st', Pending a) =>
                              let '(st'', r) := getDoctors_resume w a st' in (st'', r, false)
                          end
                      | best => (fst (finish w best st), applyRemovals best, false)
                      end))) as ->.
  { subst result. unfold getDoctors, getDoctors_begin. rewrite Hc, Hr, Hw, Hg.
    cbn [negb]. fold apiAll.
    destruct body as [|l|l|]; [done | | |]; cbn [publicData] in *; fold publicData;
      by destruct (if _ <? _ then apiAll else _). }
  split_and!.
  - intros Hne Hle.
    destruct (Z.ltb_spec (Z.of_nat (length publicData)) (Z.of_nat (length apiAll)));
      [lia |]. by destruct publicData.
  - intros Hlt.
    destruct (Z.ltb_spec (Z.of_nat (length publicData)) (Z.of_nat (length apiAll)));
      [| lia]. destruct apiAll; [simpl in Hlt; lia | done].
  - intros Hp Ha. rewrite Hp, Ha. cbn [length Z.of_nat Z.ltb Z.compare].
    unfold fallbackApi. fold apiAll. rewrite Ha. cbn [length Z.of_nat Z.ltb Z.compare].
    unfold getDoctors_resume. cbn [setCache doctorsCache fst snd].
    by destruct (prodoctorov w).
Qed.

Lemma getDoctors_prefers_longer_list_witness :
  snd (fst (getDoctors worldGatewayOk coldState)) = [ivanov; petrova].
Proof.
  refine (proj1 (getDoctors_prefers_longer_list worldGatewayOk coldState
                   (BodyData [ivanov; petrova]) _ _ _ _ _) _ _);
    try reflexivity; try discriminate.
  vm_compute. lia.
Defined.

(* ===================================================================== *)
(** ** fetchAllDoctorsFromAPI: the pages a healthy server is asked for *)
(* ===================================================================== *)

Lemma fetchRemaining_complete w n page limit acc :
  (forall p, page <= p < page + Z.of_nat n - 1 ->
     match requestPage w p limit with
     | Fulfilled r =>
         match dataArray (page_data r) with
         | Some ((_ :: _) as ds) => Z.of_nat (length ds) <? limit
         | _ => true
         end
     | Rejected _ => true
     end = false) ->
  requested (fetchRemaining w n page limit acc) = requested acc ++ pagesFrom page n.
Proof.
  revert page acc. induction n as [|n IH]; intros page acc Hok.
  - cbn. by rewrite app_nil_r.
  - cbn [fetchRemaining pagesFrom].
    destruct n as [|n].
    + cbn [fetchRemaining pagesFrom].
      destruct (requestPage w page limit) as [r|e]; [| done].
      destruct (dataArray (page_data r)) as [[|d ds]|]; try done.
      by destruct (_ <? _).
    + specialize (Hok page ltac:(lia)) as Hp.
      destruct (requestPage w page limit) as [r|e]; [| done].
      destruct (dataArray (page_data r)) as [[|d ds]|]; try done.
      rewrite Hp. rewrite IH.
      * cbn [requested]. by rewrite <- app_assoc.
      * intros p Hp'. apply Hok. lia.
Qed.

Lemma fetchAll_delivers w :
  fetched (fetchAllDoctorsFromAPI w)
  = flat_map (pageRecords w) (requested (fetchAllDoctorsFromAPI w)).
Proof.
  unfold fetchAllDoctorsFromAPI. rewrite ARCHIMED_API_URL_nonempty.
  destruct (requestPage w 1 DEFAULT_API_PAGE_LIMIT) as [first|e] eqn:Hfirst.
  - set (limit := default DEFAULT_API_PAGE_LIMIT (page_limit first)).
    set (all := default [] (dataArray (page_data first))).
    set (n0 := Z.to_nat _).
    assert (pageLimit w = limit) as Hlim.
    { unfold pageLimit, firstPage. by rewrite Hfirst. }
    destruct (fetchRemaining_spec w n0 2 limit {| fetched := all; requested := [1] |})
      as (k & _ & Hr & Hf & _).
    cbn [requested fetched] in Hr, Hf. rewrite Hf, Hr. cbn [app flat_map]. f_equal.
    + unfold pageRecords, pageResponse. cbn. by rewrite Hfirst.
    + apply flat_map_agree. intros p Hp. apply pagesFrom_elem in Hp.
      unfold pageRecords, pageResponse. rewrite Hlim.
      destruct (p =? 1) eqn:E; [lia | done].
  - cbn [requested fetched flat_map]. unfold pageRecords, pageResponse. cbn.
    by rewrite Hfirst.
Qed.

(** X15.  When no page before the last one that the first response
    announces fails, is empty or holds fewer records than the limit,
    fetchAllDoctorsFromAPI asks for every page from 1 to the announced
    number of pages, or to page 50 when more are announced (and for page 1
    alone when the first request fails), and resolves with their records
    in the order of the pages. *)
Theorem fetchAllDoctorsFromAPI_reaches_last_page (w : World) :
  (forall p, 2 <= p < Z.min (totalPagesOf w) MAX_API_PAGES -> endsPaging w p = false) ->
  let pages := pagesFrom 1 (Z.to_nat (Z.max 1 (Z.min (totalPagesOf w) MAX_API_PAGES))) in
  requested (fetchAllDoctorsFromAPI w) = pages
  /\ fetched (fetchAllDoctorsFromAPI w) = flat_map (pageRecords w) pages.
Proof.
  intros Hok pages.
  assert (requested (fetchAllDoctorsFromAPI w) = pages) as Hreq.
  { subst pages. revert Hok. unfold fetchAllDoctorsFromAPI, endsPaging, pageResponse.
    rewrite ARCHIMED_API_URL_nonempty.
    unfold totalPagesOf, pageLimit, firstPage.
    destruct (requestPage w 1 DEFAULT_API_PAGE_LIMIT) as [first|e]; [| done].
    set (total := default (default 0 (dataLength (page_data first))) (page_total first)).
    set (limit := default DEFAULT_API_PAGE_LIMIT (page_limit first)).
    set (all := default [] (dataArray (page_data first))).
    set (totalPages := if 0 <? limit then _ else 1).
    intros Hok. rewrite fetchRemaining_complete.
    - cbn [requested app].
      replace (Z.to_nat (Z.max 1 (Z.min totalPages MAX_API_PAGES)))
        with (S (Z.to_nat (Z.min totalPages MAX_API_PAGES - 1))) by lia.
      done.
    - intros p Hp. specialize (Hok p ltac:(lia)).
      destruct (p =? 1) eqn:E; [lia | done]. }
  split; [done |]. rewrite <- Hreq. apply fetchAll_delivers.
Qed.

Lemma fetchAllDoctorsFromAPI_reaches_last_page_witness :
  requested (fetchAllDoctorsFromAPI worldThreePages) = [1; 2; 3]
  /\ fetched (fetchAllDoctorsFromAPI worldThreePages)
     = [ivanov; petrova; sidorov; khorbaa; ivanovSurgeon].
Proof.
  apply (fetchAllDoctorsFromAPI_reaches_last_page worldThreePages).
  intros p Hp. change (2 <= p < 3) in Hp.
  assert (p = 2) as -> by lia. reflexivity.
Defined.
(* ===================================================================== *)
(** ** Linking services with doctors: tokens and counts *)
(* ===================================================================== *)

Lemma splitRuns_go_pieces (sep : N -> bool) inRun cur s t :
  Forall (fun c => sep c = false) cur ->
  t ∈ splitRuns_go sep inRun cur s -> Forall (fun c => sep c = false) t.
Proof.
  revert inRun cur. induction s as [|c s IH]; intros inRun cur Hcur.
  - cbn. intros Ht. apply list_elem_of_singleton in Ht as ->.
    by apply Forall_rev.
  - cbn [splitRuns_go]. destruct (sep c) eqn:E.
    + destruct inRun.
      * by apply IH.
      * intros Ht. apply elem_of_cons in Ht as [->|Ht]; [by apply Forall_rev |].
        revert Ht. by apply IH.
    + apply IH. by constructor.
Qed.





Lemma list_sum_cons x l : list_sum (x :: l) = (x + list_sum l)%nat.
Proof. reflexivity. Qed.

Lemma list_sum_add {A} (f g : A -> nat) (l : list A) :
  list_sum (List.map (fun x => (f x + g x)%nat) l)
  = (list_sum (List.map f l) + list_sum (List.map g l))%nat.
Proof.
  induction l as [|x l IH]; [done |].
  cbn [List.map]. rewrite !list_sum_cons, IH. lia.
Qed.

Lemma filter_length_sum {A} (p : A -> bool) (l : list A) :
  length (List.filter p l)
  = list_sum (List.map (fun x => if p x then 1%nat else 0%nat) l).
Proof.
  induction l as [|x l IH]; [done |]. cbn [List.filter List.map].
  rewrite list_sum_cons. destruct (p x); cbn [length]; rewrite IH; lia.
Qed.

(** Counting the pairs of a relation by rows gives what counting them by
    columns gives. *)
Lemma count_pairs {A B} (rel : A -> B -> bool) (rows : list A) (cols : list B) :
  list_sum (List.map (fun a => length (List.filter (rel a) cols)) rows)
  = list_sum (List.map (fun b => length (List.filter (fun a => rel a b) rows)) cols).
Proof.
  induction rows as [|a rows IH].
  - cbn [List.map List.filter length].
    induction cols as [|b cols IHc]; [done |].
    cbn [List.map]. by rewrite list_sum_cons, <- IHc.
  - cbn [List.map]. rewrite list_sum_cons, IH, (filter_length_sum (rel a)).
    rewrite <- (list_sum_add (fun b => if rel a b then 1%nat else 0%nat)
                  (fun b => length (List.filter (fun a' => rel a' b) rows))).
    f_equal. apply map_ext. intros b. cbn [List.filter].
    destruct (rel a b); cbn [length]; lia.
Qed.

Lemma filter_sublist {A} (p : A -> bool) (l : list A) : sublist (List.filter p l) l.
Proof.
  induction l as [|x l IH]; [done |]. cbn [List.filter].
  destruct (p x); by constructor.
Qed.

(** X17.  getDoctorsWithServices returns the doctors it was given, one
    entry each and in the same order, every one with a sub-list of the
    services in their order; getServicesWithDoctors does the same for the
    services; a doctor without a type token is linked to no service; and
    the two helpers find the same number of links. *)
Theorem linking_keeps_lists (ds : list ArchimedDoctor) (ss : list ApiService) :
  List.map dws_doctor (getDoctorsWithServices ds ss) = ds
  /\ List.map swd_service (getServicesWithDoctors ds ss) = ss
  /\ Forall (fun r => sublist (services r) ss) (getDoctorsWithServices ds ss)
  /\ Forall (fun r => sublist (doctors r) ds) (getServicesWithDoctors ds ss)
  /\ Forall (fun r => docTokens (dws_doctor r) = [] -> services r = [])
       (getDoctorsWithServices ds ss)
  /\ list_sum (List.map (fun r => length (services r)) (getDoctorsWithServices ds ss))
     = list_sum (List.map (fun r => length (doctors r)) (getServicesWithDoctors ds ss)).
Proof.
  unfold getDoctorsWithServices, getServicesWithDoctors. split_and!.
  - rewrite map_map. cbn [dws_doctor]. apply map_id.
  - rewrite map_map. cbn [swd_service]. apply map_id.
  - apply Forall_forall. intros r Hr.
    apply list_elem_of_In, in_map_iff in Hr as (d & <- & _). apply filter_sublist.
  - apply Forall_forall. intros r Hr.
    apply list_elem_of_In, in_map_iff in Hr as (s & <- & _). apply filter_sublist.
  - apply Forall_forall. intros r Hr.
    apply list_elem_of_In, in_map_iff in Hr as (d & <- & _).
    cbn [dws_doctor services]. intros ->. unfold sharesToken. cbn [existsb].
    induction ss as [|s ss IH]; [done | apply IH].
  - rewrite !map_map. cbn [services doctors].
    apply (count_pairs (fun d svc => sharesToken (docTokens d) (svcTokens svc))).
Qed.
(* ===================================================================== *)
(** ** The filename-parsing scraper: counters and a second run *)
(* ===================================================================== *)

Section ScraperRuns.

Import Scraper.

Lemma trim_head_kept c r : isSpace c = false -> trim (c :: r) = c :: dropWhileEnd isSpace r.
Proof.
  intros Hc. unfold trim. cbn [dropWhile]. rewrite Hc. by apply dropWhileEnd_cons.
Qed.

(** What the specialty parsed from a file name is, when there is one: it
    does not start with white space, so it is not blank. *)
Lemma parsedSpecialty_not_blank filename :
  let sp := snd (splitNameAndSpecialty filename) in
  sp <> [] -> isEmptyStr (trim sp) = false.
Proof.
  unfold splitNameAndSpecialty.
  destruct (_ =? -1); [done |]. cbn [snd].
  destruct (dropWhile isHyphenOrSpace _) as [|c r] eqn:E; [done |]. intros _.
  apply dropWhile_head in E. unfold isHyphenOrSpace in E.
  apply orb_false_iff in E as [_ E]. by rewrite trim_head_kept.
Qed.

(** A path made from an image file name does not end in no-avatar.svg. *)
Lemma image_not_placeholder filename :
  isImageName filename = true -> isPlaceholder (photoPathOf filename) = false.
Proof.
  unfold isImageName, isPlaceholder, endsWithCI, photoPathOf.
  rewrite rev_app_distr. generalize (rev filename) as r. intros r.
  repeat match goal with
         | |- context [rev (utf8 ?s)] =>
             let v := eval vm_compute in (rev (utf8 s)) in
             change (rev (utf8 s)) with v
         end.
  destruct r as [|a [|b r]]; [by cbn | |].
  { cbn [stripPrefixCI app]. by destruct (eqCI 103 a), (eqCI 112 a). }
  cbn [stripPrefixCI app].
  destruct (eqCI 103 a) eqn:Ea; [| done].
  destruct (eqCI 118 b) eqn:Eb; [| done].
  assert (forall p, eqCI p 118 = false -> eqCI p b = false) as Hb.
  { intros p Hp. destruct (eqCI p b) eqn:E; [| done].
    by rewrite (eqCI_trans p b 118 E Eb) in Hp. }
  assert (eqCI 112 a = false) as ->.
  { destruct (eqCI 112 a) eqn:E; [| done].
    by pose proof (eqCI_trans 112 a 103 E Ea). }
  rewrite !Hb by (by vm_compute). done.
Qed.

Lemma settledAt_fixed run filename :
  settledAt run filename = true -> processFile run filename = run.
Proof.
  unfold settledAt, processFile, blankSpecialty.
  destruct (splitNameAndSpecialty filename) as [parsedName parsedSpecialty].
  destruct (isEmptyStr parsedName); [done |]. cbn [orb].
  destruct (byName run !! _) as [pos|]; [| done].
  destruct (results run !! pos) as [item|] eqn:Hp; [| done].
  intros H. apply andb_true_iff in H as [H1 H2].
  apply negb_true_iff in H1, H2. rewrite H1, H2.
  rewrite list_insert_id by done. by destruct run.
Qed.

Lemma processFile_settles run filename :
  wellIndexed run -> isImageName filename = true ->
  settledAt (processFile run filename) filename = true.
Proof.
  intros [Hsound _] Himg. pose proof (image_not_placeholder _ Himg) as Hpath.
  pose proof (parsedSpecialty_not_blank filename) as Hsp.
  unfold settledAt, processFile, blankSpecialty in *.
  destruct (splitNameAndSpecialty filename) as [parsedName parsedSpecialty].
  cbn [snd] in Hsp.
  destruct (isEmptyStr parsedName) eqn:Hn; [done |]. cbn [orb].
  assert (hasNoPhoto_path : forall item,
            hasNoPhoto (setPhoto (FStr (photoPathOf filename)) item) = false).
  { intros item. unfold hasNoPhoto. cbn [photo setPhoto orEmpty]. by rewrite Hpath. }
  destruct (byName run !! normalizeName (FStr parsedName)) as [pos|] eqn:Hk.
  - destruct (results run !! pos) as [item|] eqn:Hp.
    + cbn [byName results]. rewrite Hk.
      rewrite list_lookup_insert_eq by (by eapply lookup_lt_Some).
      destruct (hasNoPhoto item) eqn:Hph.
      * destruct parsedSpecialty as [|c sp].
        -- cbn [isEmptyStr negb andb]. rewrite !andb_false_r. cbn.
           by rewrite hasNoPhoto_path.
        -- cbn [isEmptyStr negb]. rewrite !andb_true_r.
           destruct (negb (truthy (specialty (setPhoto _ item))) || _) eqn:Hb.
           ++ cbn [setSpecialty specialty photo hasNoPhoto truthy orEmpty negb orb].
              rewrite Hsp by done.
              fold (hasNoPhoto (setPhoto (FStr (photoPathOf filename)) item)).
              unfold hasNoPhoto. cbn [photo setPhoto setSpecialty truthy orEmpty].
              by rewrite Hpath.
           ++ rewrite Hb. by rewrite hasNoPhoto_path.
      * destruct parsedSpecialty as [|c sp].
        -- cbn [isEmptyStr negb andb]. rewrite !andb_false_r. cbn. by rewrite Hph.
        -- cbn [isEmptyStr negb]. rewrite !andb_true_r.
           destruct (negb (truthy (specialty item)) || _) eqn:Hb.
           ++ cbn [setSpecialty specialty truthy orEmpty negb orb].
              rewrite Hsp by done.
              unfold hasNoPhoto in *. cbn [photo setSpecialty]. by rewrite Hph.
           ++ rewrite Hb. by rewrite Hph.
    + destruct (Hsound _ _ Hk) as (item & Hi & _). congruence.
  - cbn [byName results]. rewrite lookup_insert_eq.
    rewrite lookup_app_r, Nat.sub_diag by lia. cbn [lookup list_lookup].
    unfold hasNoPhoto. cbn [photo specialty truthy orEmpty].
    rewrite Hpath.
    assert (exists c r, photoPathOf filename = c :: r) as (c0 & r0 & ->).
    { unfold photoPathOf.
      let v := eval vm_compute in (utf8 "/img_doctors/") in
      change (utf8 "/img_doctors/") with v.
      cbn [app]. eauto. }
    destruct parsedSpecialty as [|c sp]; [done |].
    cbn [isEmptyStr]. by rewrite Hsp.
Qed.

Lemma settledAt_stable run filename other :
  wellIndexed run -> settledAt run filename = true ->
  settledAt (processFile run other) filename = true.
Proof.
  intros [Hsound _]. pose proof (parsedSpecialty_not_blank other) as Hsp.
  unfold settledAt, processFile, blankSpecialty in *.
  destruct (splitNameAndSpecialty filename) as [parsedName parsedSpecialty].
  destruct (splitNameAndSpecialty other) as [otherName otherSpecialty].
  cbn [snd] in Hsp.
  destruct (isEmptyStr parsedName); [done |]. cbn [orb].
  destruct (byName run !! normalizeName (FStr parsedName)) as [pos|] eqn:Hk; [| done].
  destruct (results run !! pos) as [item|] eqn:Hp; [| done].
  intros Hset. destruct (isEmptyStr otherName); [by rewrite Hk, Hp |].
  destruct (byName run !! normalizeName (FStr otherName)) as [pos'|] eqn:Hk'.
  - destruct (results run !! pos') as [item'|] eqn:Hp'; [| by rewrite Hk, Hp].
    cbn [byName results]. rewrite Hk.
    destruct (decide (pos' = pos)) as [->|Hne].
    + assert (item' = item) as -> by congruence.
      rewrite list_lookup_insert_eq by (by eapply lookup_lt_Some).
      apply andb_true_iff in Hset as [Hph Hspec].
      apply negb_true_iff in Hph. rewrite Hph.
      destruct ((negb (truthy (specialty item)) || _) && negb (isEmptyStr otherSpecialty))
        eqn:Hc.
      * apply andb_true_iff in Hc as [_ Hc]. apply negb_true_iff in Hc.
        unfold hasNoPhoto in *. cbn [photo specialty setSpecialty truthy orEmpty].
        rewrite Hph. destruct otherSpecialty as [|c sp]; [done |].
        by rewrite Hsp.
      * by rewrite Hph, Hspec.
    + by rewrite list_lookup_insert_ne, Hp.
  - cbn [byName results].
    rewrite lookup_insert_ne by congruence. rewrite Hk.
    by rewrite (lookup_app_l_Some _ _ _ _ Hp).
Qed.

Lemma processFiles_settle files run :
  wellIndexed run -> Forall (fun f => isImageName f = true) files ->
  Forall (fun f => settledAt (fold_left processFile files run) f = true) files.
Proof.
  intros Hwell Himg. revert run Hwell.
  induction Himg as [|f files Hf _ IH]; intros run Hwell; [done |].
  cbn [fold_left]. constructor.
  - assert (forall rest r, wellIndexed r -> settledAt r f = true ->
              settledAt (fold_left processFile rest r) f = true) as Hstable.
    { induction rest as [|g rest IHr]; intros r Hr Hs; [done |].
      cbn [fold_left]. apply IHr; [by apply processFile_wellIndexed |].
      by apply settledAt_stable. }
    apply Hstable; [by apply processFile_wellIndexed | by apply processFile_settles].
  - apply IH. by apply processFile_wellIndexed.
Qed.

Lemma processFiles_fixed files run :
  Forall (fun f => settledAt run f = true) files ->
  fold_left processFile files run = run.
Proof.
  induction 1 as [|f files Hf _ IH]; [done |].
  cbn [fold_left]. by rewrite settledAt_fixed.
Qed.

Lemma indexByName_snoc items item :
  forall i (m : gmap jsstring nat),
    indexByName i (items ++ [item]) m
    = <[itemKey item := (i + length items)%nat]> (indexByName i items m).
Proof.
  induction items as [|it items IH]; intros i m; cbn [app indexByName length].
  - by rewrite Nat.add_0_r.
  - rewrite IH. by rewrite Nat.add_succ_r.
Qed.

Lemma indexByName_names items items' :
  List.map fullName items = List.map fullName items' ->
  forall i (m : gmap jsstring nat), indexByName i items m = indexByName i items' m.
Proof.
  revert items'. induction items as [|it items IH]; intros [|it' items'] H i m;
    try done.
  cbn [List.map] in H. injection H as Hn Hrest.
  cbn [indexByName]. rewrite Hn. by apply IH.
Qed.

Lemma names_insert (items : list Item) pos item item' :
  items !! pos = Some item -> fullName item' = fullName item ->
  List.map fullName (<[pos := item']> items) = List.map fullName items.
Proof.
  intros Hp Hn. change (List.map fullName) with (fmap (M := list) fullName).
  rewrite list_fmap_insert, Hn. apply list_insert_id.
  by rewrite list_lookup_fmap, Hp.
Qed.

Lemma processFile_indexedAfresh run filename :
  indexedAfresh run -> indexedAfresh (processFile run filename).
Proof.
  unfold indexedAfresh. intros Hrun.
  destruct (processFile_effect run filename)
    as [->|item Hr Hb _ _ _ _|pos item item' Hp Hr Hb Hname _]; [done | |].
  - rewrite Hr, Hb, indexByName_snoc, Hrun. done.
  - rewrite Hr, Hb, Hrun. apply indexByName_names. symmetry. by eapply names_insert.
Qed.

Lemma processFiles_indexedAfresh files run :
  indexedAfresh run -> indexedAfresh (fold_left processFile files run).
Proof.
  revert run. induction files as [|f files IH]; intros run H; [done |].
  cbn [fold_left]. by apply IH, processFile_indexedAfresh.
Qed.

Lemma entriesOf_images dir : Forall (fun f => isImageName f = true) (entriesOf dir).
Proof.
  apply Forall_forall. intros f Hf. unfold entriesOf in Hf.
  by apply list_elem_of_In, filter_In in Hf as [_ Hf].
Qed.

Lemma keys_insert (items : list Item) pos item item' :
  items !! pos = Some item -> fullName item' = fullName item ->
  List.map itemKey (<[pos := item']> items) = List.map itemKey items.
Proof.
  intros Hp Hn. change (List.map itemKey) with (fmap (M := list) itemKey).
  rewrite list_fmap_insert. apply list_insert_id.
  rewrite list_lookup_fmap, Hp. cbn. unfold itemKey. by rewrite Hn.
Qed.

(** No two entries come to share a normalized name. *)
Lemma processFile_distinct run filename :
  wellIndexed run ->
  NoDup (List.map itemKey (results run)) ->
  NoDup (List.map itemKey (results (processFile run filename))).
Proof.
  intros [_ Hcomplete] Hnd.
  destruct (processFile_effect run filename)
    as [->|item Hr _ Hnone _ _ _|pos item item' Hp Hr _ Hname _]; [done | |].
  - rewrite Hr, map_app. cbn [List.map]. apply NoDup_app. split_and!.
    + done.
    + intros k Hk Hk'. apply list_elem_of_singleton in Hk'. subst k.
      apply list_elem_of_In, in_map_iff in Hk as (it & Hkey & Hin).
      apply list_elem_of_In, Hcomplete in Hin. rewrite Hkey, Hnone in Hin.
      by destruct Hin.
    + apply NoDup_singleton.
  - rewrite Hr. by erewrite keys_insert.
Qed.

Lemma processFiles_distinct files run :
  wellIndexed run ->
  NoDup (List.map itemKey (results run)) ->
  NoDup (List.map itemKey (results (fold_left processFile files run))).
Proof.
  revert run. induction files as [|f files IH]; intros run Hw Hnd; [done |].
  cbn [fold_left]. apply IH; [by apply processFile_wellIndexed |].
  by apply processFile_distinct.
Qed.

Lemma distinct_keys_inj (items : list Item) a b :
  NoDup (List.map itemKey items) -> a ∈ items -> b ∈ items ->
  itemKey a = itemKey b -> a = b.
Proof.
  induction items as [|x items IH]; cbn [List.map]; intros Hnd Ha Hb Hk.
  - by apply elem_of_nil in Ha.
  - apply NoDup_cons in Hnd as [Hx Hnd].
    apply elem_of_cons in Ha as [->|Ha], Hb as [->|Hb]; [done | | | by apply IH].
    + exfalso. apply Hx. rewrite Hk. by apply list_elem_of_fmap_2.
    + exfalso. apply Hx. rewrite <- Hk. by apply list_elem_of_fmap_2.
Qed.

(** A file that has nothing left to do in a run has nothing to do on a
    fresh start on the same entries in another order, when no two of them
    share a normalized name. *)
Lemma settledAt_reordered run sorted filename :
  wellIndexed run -> NoDup (List.map itemKey (results run)) ->
  sorted ≡ₚ results run ->
  settledAt run filename = true -> settledAt (start sorted) filename = true.
Proof.
  intros [Hsound _] Hnd Hperm.
  destruct (start_wellIndexed sorted) as [Hsound' Hcomplete'].
  unfold settledAt.
  destruct (splitNameAndSpecialty filename) as [parsedName parsedSpecialty].
  destruct (isEmptyStr parsedName); [done |]. cbn [orb].
  destruct (byName run !! normalizeName (FStr parsedName)) as [pos|] eqn:Hk; [| done].
  destruct (results run !! pos) as [item|] eqn:Hp; [| done].
  intros Hset.
  destruct (Hsound _ _ Hk) as (item0 & Hi0 & Hkey).
  assert (item0 = item) as -> by congruence.
  assert (item ∈ sorted) as Hin.
  { rewrite Hperm. by eapply list_elem_of_lookup_2. }
  destruct (Hcomplete' item Hin) as [pos' Hk']. rewrite Hkey in Hk'.
  rewrite Hk'. destruct (Hsound' _ _ Hk') as (item' & Hi' & Hkey').
  rewrite Hi'.
  assert (item' = item) as ->; [| done].
  apply (distinct_keys_inj (results run)); [done | | | congruence].
  - rewrite <- Hperm. by eapply list_elem_of_lookup_2.
  - by eapply list_elem_of_lookup_2.
Qed.

Lemma processFile_counts run filename :
  let run' := processFile run filename in
  Z.of_nat (length (results run')) - added run'
  = Z.of_nat (length (results run)) - added run
  /\ added run <= added run'
  /\ updatedPhotos run <= updatedPhotos run'
  /\ added run' + updatedPhotos run' <= added run + updatedPhotos run + 1
  /\ exists new, List.map fullName (results run')
                 = List.map fullName (results run) ++ new.
Proof.
  unfold processFile.
  destruct (splitNameAndSpecialty filename) as [parsedName parsedSpecialty].
  destruct (isEmptyStr parsedName).
  { split_and!; try lia. exists []. by rewrite app_nil_r. }
  destruct (byName run !! _) as [pos|].
  - destruct (results run !! pos) as [item|] eqn:Hp.
    + cbn [results added updatedPhotos]. rewrite length_insert.
      split_and!; try (destruct (hasNoPhoto item); lia).
      exists []. rewrite app_nil_r. eapply names_insert; [done |].
      by destruct (hasNoPhoto item), (_ && _).
    + split_and!; try lia. exists []. by rewrite app_nil_r.
  - cbn [results added updatedPhotos]. rewrite length_app. cbn [length].
    split_and!; try lia. eexists. by rewrite map_app.
Qed.

End ScraperRuns.

(** X18.  Running the loop of the scraper again on the entries it has
    produced, with the same directory, changes nothing: the list stays as
    it is, no entry is added and no photo is updated.  When no two entries
    of the snapshot share a normalized name, this holds for the entries in
    any order, in particular in the sorted order in which the scraper
    writes them. *)
Theorem scraper_second_run_changes_nothing (existing : list Scraper.Item)
    (dir : list (jsstring * bool)) :
  let first := Scraper.processImages existing dir in
  (let second := Scraper.processImages (Scraper.results first) dir in
   Scraper.results second = Scraper.results first
   /\ Scraper.added second = 0
   /\ Scraper.updatedPhotos second = 0)
  /\ (NoDup (List.map itemKey existing) ->
      forall sorted, sorted ≡ₚ Scraper.results first ->
        let second := Scraper.processImages sorted dir in
        Scraper.results second = sorted
        /\ Scraper.added second = 0
        /\ Scraper.updatedPhotos second = 0).
Proof.
  intros first.
  assert (wellIndexed first) as Hwell.
  { apply processFiles_wellIndexed, start_wellIndexed. }
  assert (Forall (fun f => settledAt first f = true) (Scraper.entriesOf dir)) as Hset.
  { apply processFiles_settle; [apply start_wellIndexed | apply entriesOf_images]. }
  split.
  - assert (Scraper.processImages (Scraper.results first) dir
            = Scraper.start (Scraper.results first)) as ->; [| done].
    unfold Scraper.processImages at 1. apply processFiles_fixed.
    assert (indexedAfresh first) as Hidx.
    { apply processFiles_indexedAfresh. reflexivity. }
    eapply Forall_impl; [exact Hset |].
    intros f Hf. unfold settledAt in *.
    cbn [Scraper.start Scraper.byName Scraper.results].
    by rewrite <- Hidx.
  - intros Hnd sorted Hperm.
    assert (Scraper.processImages sorted dir = Scraper.start sorted) as ->; [| done].
    unfold Scraper.processImages. apply processFiles_fixed.
    eapply Forall_impl; [exact Hset |].
    intros f Hf. apply (settledAt_reordered first); [done | | done | done].
    by apply processFiles_distinct; [apply start_wellIndexed |].
Qed.

(** X19.  When the loop of the scraper ends (the sort that follows only
    reorders the list), the list holds the snapshot's entries, at their
    places and under their names, followed by one entry for each doctor
    counted as added; both counters are non-negative, and together they do
    not exceed the number of image files, which does not exceed the number
    of directory entries. *)
Theorem scraper_counters (existing : list Scraper.Item) (dir : list (jsstring * bool)) :
  let run := Scraper.processImages existing dir in
  Z.of_nat (length (Scraper.results run))
  = Z.of_nat (length existing) + Scraper.added run
  /\ 0 <= Scraper.added run
  /\ 0 <= Scraper.updatedPhotos run
  /\ Scraper.added run + Scraper.updatedPhotos run
     <= Z.of_nat (length (Scraper.entriesOf dir))
  /\ (length (Scraper.entriesOf dir) <= length dir)%nat
  /\ List.map Scraper.fullName (take (length existing) (Scraper.results run))
     = List.map Scraper.fullName existing.
Proof.
  intros run.
  assert (forall files r,
            let r' := fold_left Scraper.processFile files r in
            Z.of_nat (length (Scraper.results r')) - Scraper.added r'
            = Z.of_nat (length (Scraper.results r)) - Scraper.added r
            /\ Scraper.added r <= Scraper.added r'
            /\ Scraper.updatedPhotos r <= Scraper.updatedPhotos r'
            /\ Scraper.added r' + Scraper.updatedPhotos r'
               <= Scraper.added r + Scraper.updatedPhotos r + Z.of_nat (length files)
            /\ exists new, List.map Scraper.fullName (Scraper.results r')
                           = List.map Scraper.fullName (Scraper.results r) ++ new)
    as Hloop.
  { induction files as [|f files IH]; intros r.
    - cbn. split_and!; try lia. exists []. by rewrite app_nil_r.
    - cbn [fold_left].
      destruct (processFile_counts r f) as (H1 & H2 & H3 & H4 & new1 & H5).
      destruct (IH (Scraper.processFile r f)) as (I1 & I2 & I3 & I4 & new2 & I5).
      cbn [length]. split_and!; try lia.
      exists (new1 ++ new2). by rewrite I5, H5, app_assoc. }
  destruct (Hloop (Scraper.entriesOf dir) (Scraper.start existing))
    as (H1 & H2 & H3 & H4 & new & H5).
  fold (Scraper.processImages existing dir) in H1, H2, H3, H4, H5.
  fold run in H1, H2, H3, H4, H5.
  cbn [Scraper.start Scraper.results Scraper.added Scraper.updatedPhotos] in *.
  split_and!; try lia.
  - unfold Scraper.entriesOf.
    pose proof (List.filter_length_le Scraper.isImageName
                  (List.map fst (List.filter snd dir))).
    pose proof (List.filter_length_le snd dir).
    rewrite length_map in *. lia.
  - change (List.map Scraper.fullName (take (length existing) (Scraper.results run)))
      with (Scraper.fullName <$> take (length existing) (Scraper.results run)).
    rewrite fmap_take.
    change (Scraper.fullName <$> Scraper.results run)
      with (List.map Scraper.fullName (Scraper.results run)).
    rewrite H5. rewrite <- (length_map Scraper.fullName existing).
    by rewrite take_app_length.
Qed.

(* ===================================================================== *)
(** ** The ProDoctorov snapshot *)
(* ===================================================================== *)

Lemma mapAll_spec items :
  forall index,
    match Prodoctorov.mapAll index items with
    | Some ds =>
        length ds = length items
        /\ forall i d, ds !! i = Some d ->
             exists item,
               items !! i = Some item
               /\ Prodoctorov.mapProdoctorovToArchimed item (index + Z.of_nat i) = Some d
    | None =>
        exists item, item ∈ items
                     /\ forall s, Scraper.fullName item <> FStr s
    end.
Proof.
  induction items as [|item items IH]; intros index.
  - cbn. split; [done |]. intros i d H. by rewrite lookup_nil in H.
  - cbn [Prodoctorov.mapAll].
    destruct (Prodoctorov.mapProdoctorovToArchimed item index) as [d|] eqn:Hd.
    + specialize (IH (index + 1)).
      destruct (Prodoctorov.mapAll (index + 1) items) as [ds|].
      * destruct IH as [Hlen Hds]. split; [cbn; by rewrite Hlen |].
        intros [|i] d' H; cbn in H.
        -- injection H as <-. exists item. split; [done |]. by rewrite Z.add_0_r.
        -- destruct (Hds i d' H) as (it & Hi & Hm). exists it. split; [done |].
           rewrite <- Hm. f_equal. lia.
      * destruct IH as (it & Hin & Hn). exists it. split; [by right | done].
    + exists item. split; [by left |]. intros s Hs.
      unfold Prodoctorov.mapProdoctorovToArchimed in Hd. by rewrite Hs in Hd.
Qed.

Lemma splitRuns_leading_space c r :
  isSpace c = true -> hd [] (splitRuns isSpace (c :: r)) = [].
Proof. intros Hc. unfold splitRuns. cbn [splitRuns_go]. by rewrite Hc. Qed.

Lemma nthOrEmpty_piece i parts :
  Forall (fun t => Forall (fun c => isSpace c = false) t) parts ->
  Forall (fun c => isSpace c = false) (Prodoctorov.nthOrEmpty i parts).
Proof.
  intros H. unfold Prodoctorov.nthOrEmpty.
  destruct (parts !! i) as [t|] eqn:E; [| by constructor].
  cbn. rewrite Forall_forall in H. by apply H, (list_elem_of_lookup_2 _ i).
Qed.

(** X20.  loadProdoctorovSnapshot never fails; it maps the snapshot all
    or nothing: when every item has a string for its full name there is
    one record per item, in order, and as soon as one item has none the
    whole snapshot is dropped.  The record at position i has the id
    100000 + i, name parts without white space, the specialty (or the
    word for doctor) as its type and first type name, and a photo that is
    a non-empty string or null; a full name that begins with white space
    yields an empty family name. *)
Theorem loadProdoctorovSnapshot_all_or_nothing (m : Prodoctorov.SnapshotModule) :
  let ds := Prodoctorov.loadProdoctorovSnapshot m in
  (forall items, m = Prodoctorov.RawArray items \/ m = Prodoctorov.RawData items ->
     (Forall (fun item => exists s, Scraper.fullName item = FStr s) items ->
        length ds = length items)
     /\ (forall item, item ∈ items -> (forall s, Scraper.fullName item <> FStr s) ->
           ds = [])
     /\ forall i d, ds !! i = Some d ->
          exists item,
            items !! i = Some item
            /\ Prodoctorov.mapProdoctorovToArchimed item (Z.of_nat i) = Some d)
  /\ (m = Prodoctorov.ImportFails \/ m = Prodoctorov.RawOther -> ds = [])
  /\ forall i d, ds !! i = Some d ->
       id d = 100000 + Z.of_nat i
       /\ Forall (fun c => isSpace c = false)
            (orEmpty (name d) ++ orEmpty (name1 d) ++ orEmpty (name2 d))
       /\ truthy (type d) = true
       /\ (exists rest, types d = Some ({| type_id := 0; type_name := orEmpty (type d) |} :: rest))
       /\ (photo d = FNull \/ truthy (photo d) = true)
       /\ forall item c r,
            Prodoctorov.mapProdoctorovToArchimed item (Z.of_nat i) = Some d ->
            Scraper.fullName item = FStr (c :: r) -> isSpace c = true ->
            name d = FStr [].
Proof.
  intros ds.
  assert (forall items,
            m = Prodoctorov.RawArray items \/ m = Prodoctorov.RawData items ->
            ds = default [] (Prodoctorov.mapAll 0 items)) as Hds.
  { intros items [->| ->]; reflexivity. }
  assert (forall i d, ds !! i = Some d ->
            exists item, Prodoctorov.mapProdoctorovToArchimed item (Z.of_nat i) = Some d)
    as Hmapped.
  { intros i d Hi. subst ds. destruct m as [|items|items|]; cbn in Hi;
      try (by rewrite lookup_nil in Hi);
      pose proof (mapAll_spec items 0) as Hs;
      (destruct (Prodoctorov.mapAll 0 items) as [l|]; cbn in Hi;
       [| by rewrite lookup_nil in Hi]);
      destruct Hs as [_ Hs]; destruct (Hs i d Hi) as (item & _ & Hm); eauto. }
  split_and!.
  - intros items Hm. rewrite (Hds items Hm).
    pose proof (mapAll_spec items 0) as Hs.
    destruct (Prodoctorov.mapAll 0 items) as [l|]; cbn [default].
    + destruct Hs as [Hlen Hl]. split_and!; [done | |].
      * intros item Hin Hno. exfalso.
        apply list_elem_of_lookup in Hin as [i Hi].
        destruct (lookup_lt_is_Some_2 l i) as [d Hd].
        { rewrite Hlen. by eapply lookup_lt_Some. }
        destruct (Hl i d Hd) as (item' & Hi' & Hmap).
        assert (item' = item) as -> by congruence.
        unfold Prodoctorov.mapProdoctorovToArchimed in Hmap.
        destruct (Scraper.fullName item) as [| |s] eqn:E; try done. by apply (Hno s).
      * intros i d Hi. destruct (Hl i d Hi) as (item & H1 & H2).
        exists item. by rewrite Z.add_0_l in H2.
    + destruct Hs as (bad & Hbad & Hno). split_and!; [| done |].
      * intros Hall. exfalso. rewrite Forall_forall in Hall.
        destruct (Hall bad Hbad) as [s Hs]. by apply (Hno s).
      * intros i d Hi. by rewrite lookup_nil in Hi.
  - intros [-> | ->]; reflexivity.
  - intros i d Hi. destruct (Hmapped i d Hi) as (item & Hm).
    unfold Prodoctorov.mapProdoctorovToArchimed in Hm.
    destruct (Scraper.fullName item) as [| |fullName]; try done.
    injection Hm as <-. cbn [id name name1 name2 type types photo orEmpty].
    assert (Forall (fun t => Forall (fun c => isSpace c = false) t)
              (splitRuns isSpace fullName)) as Hparts.
    { apply Forall_forall. intros t Ht. revert Ht. by apply splitRuns_go_pieces. }
    split_and!.
    + done.
    + rewrite !Forall_app. split_and!; by apply nthOrEmpty_piece.
    + destruct (Scraper.specialty item) as [| |[|c s]]; done.
    + eexists. reflexivity.
    + destruct (Scraper.photo item) as [| |[|c s]]; cbn; auto.
    + intros item' c r Hm' Hname Hc.
      unfold Prodoctorov.mapProdoctorovToArchimed in Hm'. rewrite Hname in Hm'.
      injection Hm' as Hn _. rewrite <- Hn. f_equal.
      unfold Prodoctorov.nthOrEmpty, splitRuns. cbn [splitRuns_go]. by rewrite Hc.
Qed.
(* ===================================================================== *)
(** ** The year of first practice, from the snapshot to the merged record *)
(* ===================================================================== *)

Lemma uintChars_digits d : Forall (fun c => isDigit c = true) (JsText.uintChars d).
Proof. induction d; cbn [JsText.uintChars]; by constructor. Qed.

Lemma uintChars_length d : length (JsText.uintChars d) = Decimal.nb_digits d.
Proof. induction d; cbn [JsText.uintChars Decimal.nb_digits length]; congruence. Qed.

(** The number that digits after an accumulator stand for lies between
    the accumulator followed by zeros and by nines. *)
Lemma of_uint_acc_bounds d :
  forall acc,
    (Z.pos acc * 10 ^ Z.of_nat (Decimal.nb_digits d)
     <= Z.pos (Pos.of_uint_acc d acc)
     < (Z.pos acc + 1) * 10 ^ Z.of_nat (Decimal.nb_digits d)).
Proof.
  induction d as [|d IH|d IH|d IH|d IH|d IH|d IH|d IH|d IH|d IH|d IH]; intros acc;
    cbn [Pos.of_uint_acc Decimal.nb_digits];
    [rewrite Z.pow_0_r; lia | ..];
    rewrite Nat2Z.inj_succ, Z.pow_succ_r by lia;
    match goal with
    | |- context [Pos.of_uint_acc d ?a] => specialize (IH a)
    end;
    assert (0 < 10 ^ Z.of_nat (Decimal.nb_digits d)) by (apply Z.pow_pos_nonneg; lia);
    nia.
Qed.

(** A positive number has as many digits as its size demands. *)
Lemma to_uint_bounds p :
  let n := Z.of_nat (Decimal.nb_digits (Pos.to_uint p)) in
  1 <= n /\ 10 ^ (n - 1) <= Z.pos p < 10 ^ n.
Proof.
  pose proof (DecimalPos.Unsigned.of_to p) as Hof.
  pose proof (DecimalPos.Unsigned.to_of (Pos.to_uint p)) as Hto.
  rewrite Hof in Hto. cbn [N.to_uint] in Hto.
  pose proof (DecimalPos.Unsigned.to_uint_nonzero p) as Hnz.
  pose proof (DecimalPos.Unsigned.to_uint_nonnil p) as Hnn.
  destruct (Pos.to_uint p) as [|d|d|d|d|d|d|d|d|d|d] eqn:Eu; [done | ..].
  { (* a leading zero: the number is normalised, so it is the digit 0 *)
    exfalso. unfold Decimal.unorm in Hto. cbn [Decimal.nzhead] in Hto.
    destruct (Decimal.nzhead d) eqn:En; try discriminate Hto.
    - injection Hto as ->. by apply Hnz.
    - injection Hto as Hd. pose proof (DecimalFacts.nb_digits_nzhead d) as Hle.
      rewrite En, <- Hd in Hle. cbn [Decimal.nb_digits] in Hle. lia. }
  all: cbn [Pos.of_uint] in Hof; injection Hof as Hof;
    cbn [Decimal.nb_digits];
    match type of Hof with
    | Pos.of_uint_acc ?l ?a = _ =>
        pose proof (of_uint_acc_bounds l a) as Hb;
        assert (0 < 10 ^ Z.of_nat (Decimal.nb_digits l))
          by (apply Z.pow_pos_nonneg; lia);
        rewrite Nat2Z.inj_succ;
        replace (Z.succ (Z.of_nat (Decimal.nb_digits l)) - 1)
          with (Z.of_nat (Decimal.nb_digits l)) by lia;
        rewrite Z.pow_succ_r by lia
    end;
    rewrite Hof in Hb; split; [lia | nia].
Qed.

Lemma showZ_chars year : Forall (fun c => isNumberChar c = true) (JsText.showZ year).
Proof.
  unfold JsText.showZ.
  assert (forall d, Forall (fun c => isNumberChar c = true) (JsText.uintChars d)) as Hd.
  { intros d. eapply Forall_impl; [apply uintChars_digits |].
    intros c Hc. unfold isNumberChar. by rewrite Hc. }
  destruct (Z.to_int year); [apply Hd | constructor; [done | apply Hd]].
Qed.

(** [\d{4}] matches at the printed year exactly from the year 1000 on. *)
Lemma fourDigits_showZ year rest :
  match rest with c :: _ => isDigit c = false | [] => True end ->
  (3 <= length rest)%nat ->
  fourDigits (JsText.showZ year ++ rest) = (1000 <=? year).
Proof.
  intros Hrest Hlen. unfold JsText.showZ.
  destruct year as [|p|p]; cbn [Z.to_int].
  - destruct rest as [|c1 [|c2 [|c3 rest]]]; cbn in Hlen; try lia.
    cbn [app JsText.uintChars fourDigits]. by rewrite Hrest, andb_false_r.
  - pose proof (to_uint_bounds p) as [Hn Hb]. cbn zeta in Hb.
    pose proof (uintChars_digits (Pos.to_uint p)) as Hd.
    rewrite <- uintChars_length in Hn, Hb.
    destruct (JsText.uintChars (Pos.to_uint p)) as [|a [|b [|c [|d chars]]]];
      cbn [length] in Hn, Hb; [lia | ..];
      repeat match goal with
             | H : Forall _ (_ :: _) |- _ => apply Forall_cons in H as [? H]
             end.
    + transitivity false;
        [| symmetry; apply Z.leb_gt; change (10 ^ Z.of_nat 1) with 10 in Hb; lia].
      destruct rest as [|c1 [|c2 [|c3 rest]]]; cbn in Hlen; try lia.
      cbn [app fourDigits]. rewrite Hrest.
      repeat match goal with |- context [isDigit ?x] => destruct (isDigit x) end; done.
    + transitivity false;
        [| symmetry; apply Z.leb_gt; change (10 ^ Z.of_nat 2) with 100 in Hb; lia].
      destruct rest as [|c1 [|c2 [|c3 rest]]]; cbn in Hlen; try lia.
      cbn [app fourDigits]. rewrite Hrest.
      repeat match goal with |- context [isDigit ?x] => destruct (isDigit x) end; done.
    + transitivity false;
        [| symmetry; apply Z.leb_gt; change (10 ^ Z.of_nat 3) with 1000 in Hb; lia].
      destruct rest as [|c1 [|c2 [|c3 rest]]]; cbn in Hlen; try lia.
      cbn [app fourDigits]. rewrite Hrest.
      repeat match goal with |- context [isDigit ?x] => destruct (isDigit x) end; done.
    + cbn [app fourDigits].
      repeat match goal with H : isDigit _ = true |- _ => rewrite H; clear H end.
      cbn [andb]. symmetry. apply Z.leb_le.
      assert (10 ^ 3 <= 10 ^ (Z.of_nat (S (S (S (S (length chars))))) - 1)).
      { apply Z.pow_le_mono_r; lia. }
      change (10 ^ 3) with 1000 in *. lia.
  - transitivity false; [| symmetry; by apply Z.leb_gt].
    destruct (JsText.uintChars (Pos.to_uint p) ++ rest) as [|a [|b [|c l]]] eqn:E;
      cbn [app]; rewrite ?E; try done.
Qed.

Lemma numberChar_range c : isNumberChar c = true -> (45 <= c <= 57)%N.
Proof.
  unfold isNumberChar, isDigit.
  rewrite orb_true_iff, andb_true_iff, !N.leb_le, N.eqb_eq. lia.
Qed.

Lemma numberChar_not_space c : isNumberChar c = true -> isSpace c = false.
Proof.
  intros H%numberChar_range. destruct (isSpace c) eqn:E; [| done].
  apply isSpace_true in E. lia.
Qed.

Lemma numberChar_not_letter p c :
  isNumberChar c = true -> (64 < canonicalize p)%N -> eqCI p c = false.
Proof.
  intros H%numberChar_range Hp. unfold eqCI.
  rewrite (canonicalize_below c) by lia. apply N.eqb_neq. lia.
Qed.

Lemma anywhere_skip (m : jsstring -> bool) (digits rest : jsstring) :
  (forall c r, isNumberChar c = true -> m (c :: r) = false) ->
  Forall (fun c => isNumberChar c = true) digits ->
  anywhere m (digits ++ rest) = anywhere m rest.
Proof.
  intros Hm. induction 1 as [|c digits Hc _ IH]; [done |].
  cbn [app anywhere]. by rewrite Hm, IH.
Qed.

Lemma experienceAt_number c r : isNumberChar c = true -> experienceAt (c :: r) = false.
Proof.
  intros Hc. unfold experienceAt.
  let v := eval vm_compute in (utf8 "стаж") in change (utf8 "стаж") with v.
  cbn [stripPrefixCI]. by rewrite numberChar_not_letter by (assumption || by vm_compute).
Qed.

Lemma doctorExperienceAt_number c r :
  isNumberChar c = true -> doctorExperienceAt (c :: r) = false.
Proof.
  intros Hc. unfold doctorExperienceAt.
  let v := eval vm_compute in (utf8 "врачебный") in change (utf8 "врачебный") with v.
  cbn [stripPrefixCI]. by rewrite numberChar_not_letter by (assumption || by vm_compute).
Qed.

Lemma extrasAt_number c r :
  isNumberChar c = true ->
  bool_decide (is_Some (stripPrefixCI (utf8 "Смежные специальности") (c :: r))) = false.
Proof.
  intros Hc.
  let v := eval vm_compute in (utf8 "Смежные специальности") in
  change (utf8 "Смежные специальности") with v.
  cbn [stripPrefixCI]. rewrite numberChar_not_letter by (assumption || by vm_compute).
  apply bool_decide_eq_false. by intros [x Hx].
Qed.

Lemma splitRuns_go_whole (sep : N -> bool) cur s :
  Forall (fun c => sep c = false) s ->
  splitRuns_go sep false cur s = [rev cur ++ s].
Proof.
  intros H. revert cur. induction H as [|c s Hc _ IH]; intros cur.
  - cbn. by rewrite app_nil_r.
  - cbn [splitRuns_go]. rewrite Hc, IH. cbn [rev]. by rewrite <- app_assoc.
Qed.

Lemma experience_prefix rest :
  anywhere experienceAt (utf8 "Врачебный стаж с " ++ rest)
  = fourDigits (dropWhile isSpace rest) || anywhere experienceAt rest.
Proof. reflexivity. Qed.

Lemma doctorExperience_prefix rest :
  anywhere doctorExperienceAt (utf8 "Врачебный стаж с " ++ rest)
  = fourDigits (dropWhile isSpace rest) || anywhere doctorExperienceAt rest.
Proof. reflexivity. Qed.

Lemma containsCI_next p pat c r :
  eqCI p c = false -> containsCI (p :: pat) (c :: r) = containsCI (p :: pat) r.
Proof.
  intros H. unfold containsCI. cbn [anywhere stripPrefixCI]. rewrite H.
  rewrite bool_decide_eq_false_2; [done |]. by intros [x Hx].
Qed.

Lemma containsCI_next2 p p' pat c c' r :
  eqCI p' c' = false ->
  containsCI (p :: p' :: pat) (c :: c' :: r) = containsCI (p :: p' :: pat) (c' :: r).
Proof.
  intros H. unfold containsCI.
  change (anywhere ?m (c :: c' :: r)) with (m (c :: c' :: r) || anywhere m (c' :: r)).
  cbn [stripPrefixCI]. rewrite H.
  rewrite bool_decide_eq_false_2; [done |]. destruct (eqCI p c); by intros [x Hx].
Qed.

Lemma extras_prefix rest :
  mentionsExtras (utf8 "Врачебный стаж с " ++ rest) = mentionsExtras rest.
Proof.
  unfold mentionsExtras.
  let v := eval vm_compute in (utf8 "Смежные специальности") in
  change (utf8 "Смежные специальности") with v.
  let v := eval vm_compute in (utf8 "Врачебный стаж с ") in
  change (utf8 "Врачебный стаж с ") with v.
  cbn [app].
  repeat first [ rewrite containsCI_next by (by vm_compute)
               | rewrite containsCI_next2 by (by vm_compute) ].
  reflexivity.
Qed.

Lemma tail_read :
  anywhere experienceAt (utf8 " г.") = false
  /\ anywhere doctorExperienceAt (utf8 " г.") = false
  /\ mentionsExtras (utf8 " г.") = false.
Proof. split_and!; by vm_compute. Qed.

Lemma splitRuns_whole (sep : N -> bool) s :
  Forall (fun c => sep c = false) s -> splitRuns sep s = [s].
Proof. intros H. unfold splitRuns. by rewrite splitRuns_go_whole. Qed.

(** The line written for a year: what [mergeOne] finds in it. *)
Lemma experienceLine_read year :
  let line := experienceLine year in
  mentionsExperience line = (1000 <=? year)
  /\ mentionsExtras line = false
  /\ splitRuns isNewline line = [line]
  /\ nonEmpty line = true.
Proof.
  intros line. subst line. unfold experienceLine.
  pose proof (showZ_chars year) as Hchars.
  assert (fourDigits (JsText.showZ year ++ utf8 " г.") = (1000 <=? year)) as Hfour.
  { apply fourDigits_showZ; by vm_compute. }
  assert (fourDigits (dropWhile isSpace (JsText.showZ year ++ utf8 " г."))
          = fourDigits (JsText.showZ year ++ utf8 " г.")) as Hdrop.
  { destruct (JsText.showZ year) as [|c digits]; [by vm_compute |].
    apply Forall_cons in Hchars as [Hc _]. cbn [app dropWhile].
    by rewrite numberChar_not_space. }
  destruct tail_read as (Ht1 & Ht2 & Ht3).
  split_and!.
  - unfold mentionsExperience.
    rewrite experience_prefix, doctorExperience_prefix, Hdrop, Hfour.
    rewrite !anywhere_skip by (done || apply experienceAt_number
                               || apply doctorExperienceAt_number).
    rewrite Ht1, Ht2. by destruct (1000 <=? year).
  - rewrite extras_prefix. unfold mentionsExtras, containsCI in *.
    rewrite anywhere_skip by (done || apply extrasAt_number). exact Ht3.
  - apply splitRuns_whole. rewrite !Forall_app. split_and!.
    + let v := eval vm_compute in (utf8 "Врачебный стаж с ") in
      change (utf8 "Врачебный стаж с ") with v.
      repeat constructor.
    + eapply Forall_impl; [exact Hchars |]. intros c Hc%numberChar_range.
      apply N.eqb_neq. lia.
    + let v := eval vm_compute in (utf8 " г.") in change (utf8 " г.") with v.
      repeat constructor.
  - let v := eval vm_compute in (utf8 "Врачебный стаж с ") in
    change (utf8 "Врачебный стаж с ") with v.
    cbn [app nonEmpty isEmptyStr negb]. reflexivity.
Qed.

Lemma mapped_info item index :
  option_map info (Prodoctorov.mapProdoctorovToArchimed item index)
  = match Scraper.fullName item with
    | FStr _ =>
        Some (FStr (join [10%N]
                      (List.filter nonEmpty
                         [ match Scraper.experienceStartYear item with
                           | Some year => if year =? 0 then [] else experienceLine year
                           | None => []
                           end;
                           match default [] (Scraper.extraSpecialties item) with
                           | [] => []
                           | _ :: _ =>
                               utf8 "Смежные специальности: "
                               ++ join (utf8 ", ")
                                    (default [] (Scraper.extraSpecialties item))
                           end ])))
    | _ => None
    end.
Proof.
  unfold Prodoctorov.mapProdoctorovToArchimed, experienceLine.
  destruct (Scraper.fullName item); reflexivity.
Qed.

Lemma join_lines line :
  nonEmpty line = true -> join [10%N] (List.filter nonEmpty [line; []]) = line.
Proof. intros H. cbn [List.filter]. by rewrite H. Qed.

Lemma mergeOne_info base add :
  info (mergeOne base add)
  = let infoText := orEmpty (info base) in
    let addInfo := orEmpty (info add) in
    let addLines := splitRuns isNewline addInfo in
    FStr (join [10%N]
            (List.filter nonEmpty
               ((if nonEmpty infoText then [infoText] else [])
                ++ (if negb (mentionsExperience infoText) && mentionsExperience addInfo
                    then [hd [] addLines] else [])
                ++ match List.find mentionsExtras addLines with
                   | Some addExtrasLine =>
                       if nonEmpty addExtrasLine && negb (mentionsExtras infoText)
                       then [addExtrasLine] else []
                   | None => []
                   end))).
Proof. reflexivity. Qed.

(** What [mergeOne] makes of an added record whose info is one line
    without a mention of further specialties. *)
Lemma mergeOne_info_line base add line :
  info add = FStr line ->
  mentionsExtras line = false -> splitRuns isNewline line = [line] ->
  nonEmpty line = true ->
  let text := orEmpty (info base) in
  info (mergeOne base add)
  = FStr (if negb (mentionsExperience line) || mentionsExperience text then text
          else if nonEmpty text then text ++ [10%N] ++ line else line).
Proof.
  intros Hinfo Hext Hlines Hne text.
  rewrite mergeOne_info. cbv zeta. rewrite Hinfo. cbn [orEmpty]. fold text.
  rewrite Hlines. cbn [List.find hd]. rewrite Hext.
  destruct (mentionsExperience line), (mentionsExperience text), text as [|c text'];
    cbn [nonEmpty isEmptyStr negb andb orb app List.filter join]; rewrite ?Hne;
    rewrite ?app_nil_r; reflexivity.
Qed.

(** X21.  A snapshot item with a year of first practice (and no further
    specialties) is mapped to a record whose info is the line
    'Врачебный стаж с <year> г.'.  When such a record is merged into
    another one, the line is appended to that record's info exactly when
    the year is 1000 or later and the info does not mention experience
    yet: for an earlier (or negative) year the pattern that looks for
    four digits does not match, and the year of the snapshot is lost.
    The year is a safe integer, below 2^53 in absolute value, which
    JavaScript prints digit by digit. *)
Theorem snapshot_experience_needs_four_digits (item : Scraper.Item) (index year : Z)
    (add base : ArchimedDoctor) :
  Prodoctorov.mapProdoctorovToArchimed item index = Some add ->
  Scraper.experienceStartYear item = Some year -> year <> 0 ->
  - 2 ^ 53 < year < 2 ^ 53 ->
  default [] (Scraper.extraSpecialties item) = [] ->
  let line := experienceLine year in
  let text := orEmpty (info base) in
  info add = FStr line
  /\ info (mergeOne base add)
     = FStr (if (year <? 1000) || mentionsExperience text then text
             else if nonEmpty text then text ++ [10%N] ++ line else line).
Proof.
  intros Hm Hyear Hnz _ Hextras line text.
  destruct (experienceLine_read year) as (Hexp & Hext & Hlines & Hne).
  fold line in Hexp, Hext, Hlines, Hne.
  assert (info add = FStr line) as Hinfo.
  { pose proof (mapped_info item index) as Hi.
    rewrite Hm, Hyear, Hextras in Hi. apply Z.eqb_neq in Hnz. rewrite Hnz in Hi.
    fold line in Hi. rewrite (join_lines line Hne) in Hi.
    change (option_map info (Some add)) with (Some (info add)) in Hi.
    destruct (Scraper.fullName item); try discriminate Hi.
    by apply (inj Some) in Hi. }
  split; [exact Hinfo |].
  rewrite (mergeOne_info_line base add line Hinfo Hext Hlines Hne), Hexp. fold text.
  replace (negb (1000 <=? year)) with (year <? 1000); [reflexivity |].
  destruct (Z.leb_spec 1000 year), (Z.ltb_spec year 1000); try lia; reflexivity.
Qed.

Lemma snapshot_experience_needs_four_digits_witness :
  let line := experienceLine 2005 in
  let text := orEmpty (info petrova) in
  info veteranDoctor = FStr line
  /\ info (mergeOne petrova veteranDoctor)
     = FStr (if (2005 <? 1000) || mentionsExperience text then text
             else if nonEmpty text then text ++ [10%N] ++ line else line).
Proof.
  apply (snapshot_experience_needs_four_digits veteran 0 2005 veteranDoctor petrova).
  - vm_compute. reflexivity.
  - reflexivity.
  - discriminate.
  - split; reflexivity.
  - reflexivity.
Defined.
(* ===================================================================== *)
(** ** The HTML scraper *)
(* ===================================================================== *)

Lemma startsWith_http_absolute src :
  JsText.startsWith (utf8 "http") (utf8 "https://prodoctorov.ru" ++ src) = true.
Proof.
  unfold JsText.startsWith.
  let v := eval vm_compute in (utf8 "https://prodoctorov.ru") in
  change (utf8 "https://prodoctorov.ru") with v.
  let v := eval vm_compute in (utf8 "http") in change (utf8 "http") with v.
  cbn [length app take]. by apply bool_decide_eq_true.
Qed.

Lemma photoOfTag_url tag p :
  p ∈ HtmlScraper.photoOfTag tag ->
  JsText.startsWith (utf8 "http") (HtmlScraper.photo_url p) = true.
Proof.
  unfold HtmlScraper.photoOfTag.
  destruct (nonEmpty _ && _); [| by intros H%elem_of_nil].
  intros ->%list_elem_of_singleton. cbn [HtmlScraper.photo_url].
  set (src := default [] _).
  destruct (JsText.startsWith (utf8 "http") src) eqn:E; [done |].
  apply startsWith_http_absolute.
Qed.

(** The map built from the photos: a name refers to the address of the
    last photo under that name. *)
Lemma nameToPhoto_last photos k :
  HtmlScraper.nameToPhoto photos !! k
  = HtmlScraper.photo_url
      <$> last (List.filter
                  (fun p => bool_decide
                              (HtmlScraper.normalizeName (FStr (HtmlScraper.photo_name p)) = k))
                  photos).
Proof.
  unfold HtmlScraper.nameToPhoto.
  induction photos as [|p photos IH] using rev_ind.
  - cbn. by rewrite lookup_empty.
  - rewrite fold_left_app, List.filter_app. cbn [fold_left List.filter].
    case_bool_decide as E.
    + rewrite E, lookup_insert_eq. by rewrite last_snoc.
    + rewrite lookup_insert_ne by done. by rewrite app_nil_r.
Qed.

Lemma extractPhotos_url html p :
  p ∈ HtmlScraper.extractPhotos html ->
  JsText.startsWith (utf8 "http") (HtmlScraper.photo_url p) = true.
Proof.
  unfold HtmlScraper.extractPhotos. intros Hp.
  apply list_elem_of_In, in_flat_map in Hp as (tag & _ & Hp).
  by apply list_elem_of_In, photoOfTag_url in Hp.
Qed.

(** X22.  Every photo that extractPhotos returns has an absolute address:
    it begins with http, so it is not empty; an address that the page
    gives relative is the page's with https://prodoctorov.ru before it. *)
Theorem extractPhotos_absolute_urls (html : jsstring) :
  Forall (fun p => JsText.startsWith (utf8 "http") (HtmlScraper.photo_url p) = true
                   /\ HtmlScraper.photo_url p <> [])
    (HtmlScraper.extractPhotos html).
Proof.
  apply Forall_forall. intros p Hp%extractPhotos_url. split; [done |].
  intros Hnil. rewrite Hnil in Hp. by vm_compute in Hp.
Qed.

(** X23.  The HTML scraper writes back as many items as it read, each
    at its place.  An item whose normalized full name is the normalized
    name of an extracted photo gets the address of the last such photo as
    its photo, whatever photo it had; every other item is written back as
    it is; and no other property of an item changes. *)
Theorem html_scraper_overwrites_matching_photos (html : jsstring)
    (data : list Scraper.Item) :
  length (HtmlScraper.run html data) = length data
  /\ forall i item, data !! i = Some item ->
       let named :=
         List.filter
           (fun p => bool_decide
                       (HtmlScraper.normalizeName (FStr (HtmlScraper.photo_name p))
                        = HtmlScraper.normalizeName (Scraper.fullName item)))
           (HtmlScraper.extractPhotos html) in
       HtmlScraper.run html data !! i
       = Some match last named with
              | Some p => Scraper.setPhoto (FStr (HtmlScraper.photo_url p)) item
              | None => item
              end.
Proof.
  unfold HtmlScraper.run, HtmlScraper.updatePhotos. split; [apply length_map |].
  intros i item Hi.
  change (List.map ?f data) with (f <$> data).
  rewrite list_lookup_fmap, Hi. cbn [fmap option_fmap option_map]. f_equal.
  rewrite nameToPhoto_last.
  destruct (last (List.filter _ _)) as [p|] eqn:El;
    cbn [fmap option_fmap option_map]; [| done].
  assert (p ∈ HtmlScraper.extractPhotos html) as Hp.
  { apply last_Some in El as [l' El].
    assert (In p (l' ++ [p])) as Hin by (apply in_or_app; right; by left).
    rewrite <- El in Hin. apply filter_In in Hin as [Hin _].
    by apply list_elem_of_In. }
  apply extractPhotos_url in Hp.
  destruct (HtmlScraper.photo_url p); [by vm_compute in Hp | done].
Qed.
(* ===================================================================== *)
(** ** Services and appointments *)
(* ===================================================================== *)

(** X24.  getServices resolves with what it leaves in the in-memory
    cache, and on the slow path it writes exactly that list to the storage
    slot.  When the request fails (or answers null) that list is the mock
    list: once it is stored and not empty, a later session that finds it in
    the slot resolves with the mock data whatever the API answers then, and
    only a background refresh that brings a non-empty list replaces it; a
    refresh that fails or brings nothing keeps the cache and writes
    nothing. *)
Theorem getServices_persists_mock_data (mockServices : list ApiService) (e : jsstring) :
  mockServices <> [] ->
  (forall cache fromStorage response mock,
     let r := Remote.getServices cache fromStorage response mock in
     Remote.resolved r = Remote.servicesCache r
     /\ (Remote.refreshStarted r = false -> Remote.written r = Some (Remote.resolved r)))
  /\ (forall failure, failure = Rejected e \/ failure = Fulfilled Remote.ServicesNull ->
        let first := Remote.getServices [] None failure mockServices in
        Remote.written first = Some mockServices
        /\ forall response otherMock,
             let later := Remote.getServices [] (Remote.written first) response otherMock in
             Remote.resolved later = mockServices
             /\ Remote.refreshStarted later = true
             /\ Remote.written later = None)
  /\ (forall cache response,
        let '(cache', written) := Remote.refreshServices cache response in
        match response with
        | Fulfilled (Remote.ServicesObject (Some ((_ :: _) as data))) =>
            cache' = data /\ written = Some data
        | _ => cache' = cache /\ written = None
        end).
Proof.
  intros Hmock. split_and!.
  - intros cache fromStorage response mock.
    unfold Remote.getServices.
    destruct cache; [| done].
    destruct fromStorage as [[|s stored]|], response as [[|data]|]; done.
  - intros failure Hf. cbn zeta.
    assert (Remote.getServices [] None failure mockServices
            = {| Remote.servicesCache := mockServices; Remote.resolved := mockServices;
                 Remote.written := Some mockServices; Remote.refreshStarted := false |})
      as -> by (by destruct Hf as [-> | ->]).
    split; [done |]. intros response otherMock.
    cbn [Remote.written]. unfold Remote.getServices.
    by destruct mockServices.
  - intros cache response. unfold Remote.refreshServices.
    by destruct response as [[|[[|d data]|]]|].
Qed.

Lemma getServices_persists_mock_data_witness :
  Remote.resolved
    (Remote.getServices []
       (Remote.written
          (Remote.getServices [] None (Rejected (utf8 "Failed to fetch"))
             sampleMockServices))
       (Fulfilled (Remote.ServicesObject (Some [])))
       [])
  = sampleMockServices.
Proof.
  refine (proj1 (proj2 (proj1 (proj2
            (getServices_persists_mock_data sampleMockServices (utf8 "Failed to fetch") _))
            (Rejected (utf8 "Failed to fetch")) _)
            (Fulfilled (Remote.ServicesObject (Some []))) [])).
  - discriminate.
  - by left.
Defined.

(** X25.  getAppointments leaves a filter whose value is 0 out of the
    query string, as if it had not been given: a page 0 or a status 0
    cannot be asked for.  With no filter left the endpoint is /talons
    without a question mark, and the endpoint always begins with
    /talons. *)
Theorem appointmentsEndpoint_drops_zero_filters (f : Remote.AppointmentFilters) :
  Remote.appointmentsEndpoint (Some f) = Remote.appointmentsEndpoint (Some (withoutZeros f))
  /\ (withoutZeros f = noFilters ->
        Remote.appointmentsEndpoint (Some f) = utf8 "/talons")
  /\ Remote.appointmentsEndpoint None = utf8 "/talons"
  /\ JsText.startsWith (utf8 "/talons") (Remote.appointmentsEndpoint (Some f)) = true.
Proof.
  assert (forall name v,
            Remote.param name (match v with Some 0 => None | _ => v end)
            = Remote.param name v) as Hdrop.
  { intros name [[|p|p]|]; reflexivity. }
  assert (Remote.appointmentsEndpoint (Some f)
          = Remote.appointmentsEndpoint (Some (withoutZeros f))) as Heq.
  { unfold Remote.appointmentsEndpoint, withoutZeros.
    cbn [Remote.doctorId Remote.serviceId Remote.statusId Remote.page Remote.limit].
    by rewrite !Hdrop. }
  split_and!.
  - exact Heq.
  - intros Hnone. rewrite Heq, Hnone. reflexivity.
  - reflexivity.
  - unfold Remote.appointmentsEndpoint.
    set (q := join _ _). unfold JsText.startsWith.
    let v := eval vm_compute in (utf8 "/talons?") in change (utf8 "/talons?") with v.
    let v := eval vm_compute in (utf8 "/talons") in change (utf8 "/talons") with v.
    destruct (nonEmpty q); cbn [length app take]; by apply bool_decide_eq_true.
Qed.
(* ===================================================================== *)
(** ** The filename-parsing scraper: names parsed from file names *)
(* ===================================================================== *)

Lemma trim_fixed s :
  match s with c :: _ => isSpace c = false | [] => True end ->
  match rev s with c :: _ => isSpace c = false | [] => True end ->
  trim s = s.
Proof.
  intros Hhead Hlast. unfold trim, dropWhileEnd.
  rewrite (dropWhile_fixed isSpace s) by done.
  rewrite (dropWhile_fixed isSpace (rev s)) by done.
  apply rev_involutive.
Qed.

Lemma trim_ends s :
  match trim s with c :: _ => isSpace c = false | [] => True end
  /\ match rev (trim s) with c :: _ => isSpace c = false | [] => True end.
Proof.
  unfold trim. split.
  - destruct (dropWhile isSpace s) as [|c r] eqn:E; [done |].
    apply dropWhile_head in E. by rewrite dropWhileEnd_cons.
  - unfold dropWhileEnd. rewrite rev_involutive.
    destruct (dropWhile isSpace (rev _)) as [|c r] eqn:E; [done |].
    by apply dropWhile_head in E.
Qed.

Lemma dropWhile_suffix p (s : jsstring) : exists l, s = l ++ dropWhile p s.
Proof.
  induction s as [|c s [l IH]]; [by exists [] |]. cbn [dropWhile].
  destruct (p c); [| by exists []]. exists (c :: l). cbn. by rewrite <- IH.
Qed.

(** What is left of a string after a class of code units is stripped from
    one of its ends keeps the other end. *)
Lemma dropWhileEnd_head p (s : jsstring) c :
  hd_error (dropWhileEnd p s) = Some c -> hd_error s = Some c.
Proof.
  unfold dropWhileEnd. destruct (dropWhile_suffix p (rev s)) as [l Hl].
  intros H. apply (f_equal (@rev N)) in Hl.
  rewrite rev_involutive, rev_app_distr in Hl. rewrite Hl.
  destruct (rev (dropWhile p (rev s))); [done | exact H].
Qed.

Lemma dropWhile_last p (s : jsstring) c :
  hd_error (rev (dropWhile p s)) = Some c -> hd_error (rev s) = Some c.
Proof.
  destruct (dropWhile_suffix p s) as [l Hl]. intros H.
  rewrite Hl, rev_app_distr.
  destruct (rev (dropWhile p s)); [done | exact H].
Qed.

Lemma hyphenOrSpace_space c : Scraper.isHyphenOrSpace c = false -> isSpace c = false.
Proof. unfold Scraper.isHyphenOrSpace. by intros [_ H]%orb_false_iff. Qed.

(** X26.  The name and the specialty that splitNameAndSpecialty reads
    off a file name carry no white space at either end, and the specialty
    does not begin with a hyphen; when a specialty was read off, the name
    does not end with a hyphen either. *)
Theorem splitNameAndSpecialty_trims (basename : jsstring) :
  let parsed := Scraper.splitNameAndSpecialty basename in
  trim (fst parsed) = fst parsed
  /\ trim (snd parsed) = snd parsed
  /\ match snd parsed with
     | c :: _ => Scraper.isHyphenOrSpace c = false
     | [] => True
     end
  /\ (snd parsed <> [] ->
      match rev (fst parsed) with
      | c :: _ => Scraper.isHyphenOrSpace c = false
      | [] => True
      end).
Proof.
  unfold Scraper.splitNameAndSpecialty.
  set (nameOnly := Scraper.removeExtension basename).
  destruct (_ =? -1).
  { cbn [fst snd]. split_and!; [apply trim_idem | done | done | done]. }
  cbn zeta. cbn [fst snd].
  set (piece1 := Scraper.sliceTo _ nameOnly).
  set (piece2 := Scraper.sliceFrom _ nameOnly).
  destruct (trim_ends piece1) as [Hhead1 _].
  destruct (trim_ends piece2) as [_ Hlast2].
  set (before := trim piece1) in *. set (after := trim piece2) in *.
  assert (match rev (dropWhileEnd Scraper.isHyphenOrSpace before) with
          | c :: _ => Scraper.isHyphenOrSpace c = false
          | [] => True
          end) as Hname_last.
  { unfold dropWhileEnd. rewrite rev_involutive.
    destruct (dropWhile _ _) as [|c r] eqn:E; [done |]. by apply dropWhile_head in E. }
  assert (match dropWhile Scraper.isHyphenOrSpace after with
          | c :: _ => Scraper.isHyphenOrSpace c = false
          | [] => True
          end) as Hspec_head.
  { destruct (dropWhile _ _) as [|c r] eqn:E; [done |]. by apply dropWhile_head in E. }
  split_and!; [| | exact Hspec_head | intros _; exact Hname_last].
  - apply trim_fixed.
    + destruct (dropWhileEnd _ _) as [|c r] eqn:E; [done |].
      assert (hd_error before = Some c) as Hc.
      { apply (dropWhileEnd_head Scraper.isHyphenOrSpace). by rewrite E. }
      destruct before; [done |]. cbn in Hc. by injection Hc as ->.
    + destruct (rev (dropWhileEnd _ _)) as [|c r]; [done |].
      by apply hyphenOrSpace_space.
  - apply trim_fixed.
    + destruct (dropWhile _ _) as [|c r]; [done |]. by apply hyphenOrSpace_space.
    + destruct (rev (dropWhile Scraper.isHyphenOrSpace after)) as [|c r] eqn:E; [done |].
      assert (hd_error (rev after) = Some c) as Hc.
      { apply (dropWhile_last Scraper.isHyphenOrSpace). by rewrite E. }
      destruct (rev after); [done |]. cbn in Hc. by injection Hc as ->.
Qed.
(* ===================================================================== *)
(** ** mergeOne: photo, category and degree over several extra records *)
(* ===================================================================== *)

Lemma isEmpty_normalize v :
  isEmpty v = isEmptyStr (normalize (FStr (orEmpty v))).
Proof.
  rewrite normalize_blank. by destruct v.
Qed.

Lemma dropWhile_nil_all p (s : jsstring) :
  dropWhile p s = [] -> Forall (fun c => p c = true) s.
Proof.
  induction s as [|c s IH]; [done |]. cbn [dropWhile].
  destruct (p c) eqn:E; [| done]. intros H. constructor; auto.
Qed.

(** A blank string does not look like a category. *)
Lemma blank_not_category s :
  isEmptyStr (trim s) = true -> containsCI (utf8 "категор") s = false.
Proof.
  intros Hb.
  assert (Forall (fun c => isSpace c = true) s) as Hs.
  { apply dropWhile_nil_all. unfold trim in Hb.
    destruct (dropWhile isSpace s) as [|c r] eqn:E; [done |].
    apply dropWhile_head in E. by rewrite dropWhileEnd_cons in Hb. }
  clear Hb.
  let v := eval vm_compute in (utf8 "категор") in change (utf8 "категор") with v.
  induction Hs as [|c s Hc _ IH]; [by vm_compute |].
  rewrite containsCI_next; [exact IH |].
  unfold eqCI. apply N.eqb_neq. intros Heq.
  rewrite <- isSpace_canonicalize, <- Heq in Hc. by vm_compute in Hc.
Qed.

Lemma mergeOne_photo base add :
  photo (mergeOne base add)
  = if truthy (photo base) then photo base
    else if truthy (photo add) then photo add else photo base.
Proof.
  unfold mergeOne. cbn [photo].
  destruct (photo base) as [| |[|c s]]; cbn [truthy negb orb andb]; try done;
    rewrite ?bool_decide_eq_true_2 by done; by destruct (truthy (photo add)).
Qed.

Lemma mergeOne_category base add :
  category (mergeOne base add)
  = if looksLikeCategory (category base) then category base
    else if looksLikeCategory (category add) then category add else category base.
Proof.
  unfold mergeOne. cbn [category].
  destruct (looksLikeCategory (category base)) eqn:E.
  - cbn [negb]. rewrite orb_false_r.
    destruct (isEmpty (category base)) eqn:Ee; [| done].
    (* an empty category does not look like one *)
    exfalso. destruct (category base) as [| |s]; try done.
    cbn [isEmpty] in Ee. cbn [looksLikeCategory] in E.
    by rewrite blank_not_category in E.
  - cbn [negb]. rewrite orb_true_r. done.
Qed.

Lemma mergeOne_degree base add :
  scientific_degree (mergeOne base add)
  = if realDegree (scientific_degree base) then scientific_degree base
    else if realDegree (scientific_degree add) then scientific_degree add
         else scientific_degree base.
Proof.
  unfold mergeOne. cbn [scientific_degree]. unfold realDegree.
  rewrite isEmpty_normalize. unfold nonEmpty.
  set (b := normalize (FStr (orEmpty (scientific_degree base)))).
  set (a := normalize (FStr (orEmpty (scientific_degree add)))).
  by destruct (isEmptyStr b), (jsEq b _), (isEmptyStr a), (jsEq a _).
Qed.

Lemma firstWith_fold {A} (P : ArchimedDoctor -> bool) (g : ArchimedDoctor -> A) :
  (forall base add,
     g (mergeOne base add)
     = if P base then g base else if P add then g add else g base) ->
  (forall base add, P (mergeOne base add) = P base || P add) ->
  forall adds base, g (fold_left mergeOne adds base) = firstWith P g base adds.
Proof.
  intros Hg HP. unfold firstWith.
  induction adds as [|a adds IH]; intros base.
  - cbn. by destruct (P base).
  - cbn [fold_left]. rewrite IH. cbn [List.find]. rewrite HP.
    destruct (P base) eqn:Eb, (P a) eqn:Ea; cbn [orb]; rewrite ?Hg, ?Eb, ?Ea; try done.
    all: destruct (List.find P adds); try done; by rewrite ?Hg, ?Eb, ?Ea.
Qed.

Lemma fold_mergeOne_photo adds base :
  photo (fold_left mergeOne adds base)
  = firstWith (fun d => truthy (photo d)) photo base adds.
Proof.
  apply (firstWith_fold (fun d => truthy (photo d)) photo).
  - apply mergeOne_photo.
  - intros b a. rewrite mergeOne_photo.
    by destruct (truthy (photo b)) eqn:E1, (truthy (photo a)) eqn:E2.
Qed.

Lemma fold_mergeOne_category adds base :
  category (fold_left mergeOne adds base)
  = firstWith (fun d => looksLikeCategory (category d)) category base adds.
Proof.
  apply (firstWith_fold (fun d => looksLikeCategory (category d)) category).
  - apply mergeOne_category.
  - intros b a. rewrite mergeOne_category.
    by destruct (looksLikeCategory (category b)) eqn:E1,
                (looksLikeCategory (category a)) eqn:E2.
Qed.

Lemma fold_mergeOne_degree adds base :
  scientific_degree (fold_left mergeOne adds base)
  = firstWith (fun d => realDegree (scientific_degree d)) scientific_degree base adds.
Proof.
  apply (firstWith_fold (fun d => realDegree (scientific_degree d)) scientific_degree).
  - apply mergeOne_degree.
  - intros b a. rewrite mergeOne_degree.
    by destruct (realDegree (scientific_degree b)) eqn:E1,
                (realDegree (scientific_degree a)) eqn:E2.
Qed.

(** X27.  However many extra records are merged into a record one after
    the other, its photo, its category and its scientific degree are each
    those of the first record in the row (the record itself, then the
    extra records in order) that has an explicit one: a non-empty photo, a
    category that mentions the word for category, a degree that is neither
    blank nor the placeholder for no degree; when no record has one, the
    record keeps its own.  An explicit value is never replaced. *)
Theorem mergeOne_first_explicit_value_wins (base : ArchimedDoctor)
    (adds : list ArchimedDoctor) :
  let merged := fold_left mergeOne adds base in
  photo merged = firstWith (fun d => truthy (photo d)) photo base adds
  /\ category merged
     = firstWith (fun d => looksLikeCategory (category d)) category base adds
  /\ scientific_degree merged
     = firstWith (fun d => realDegree (scientific_degree d)) scientific_degree base adds
  /\ (truthy (photo base) = true -> photo merged = photo base)
  /\ (looksLikeCategory (category base) = true -> category merged = category base)
  /\ (realDegree (scientific_degree base) = true ->
      scientific_degree merged = scientific_degree base).
Proof.
  intros merged. subst merged.
  pose proof (fold_mergeOne_photo adds base) as Hp.
  pose proof (fold_mergeOne_category adds base) as Hc.
  pose proof (fold_mergeOne_degree adds base) as Hd.
  split_and!; [done | done | done | | |].
  - intros H. rewrite Hp. unfold firstWith. cbn [List.find]. by rewrite H.
  - intros H. rewrite Hc. unfold firstWith. cbn [List.find]. by rewrite H.
  - intros H. rewrite Hd. unfold firstWith. cbn [List.find]. by rewrite H.
Qed.
(* ===================================================================== *)
(** ** getDoctors outside a browser *)
(* ===================================================================== *)

(** X28.  Where there is no window (the service runs outside a browser)
    a call of getDoctors with an empty in-memory cache reads nothing from
    the storage, sends no request to the gateway or to the API, which
    would reject, and writes nothing: it resolves with the bundled
    doctors.json snapshot, or the mock list when that cannot be loaded,
    enriched and filtered as on any fallback, and starts no refresh. *)
Theorem getDoctors_without_window (w : World) (st : State) :
  has_window w = false -> doctorsCache st = [] ->
  storage (fst (fst (getDoctors w st))) = storage st
  /\ snd (getDoctors w st) = false
  /\ (forall key ttlMs store, readFromStorage w key ttlMs store = None)
  /\ (forall page limit,
        requestPage w page limit = Rejected (utf8 "window is not defined"))
  /\ fetched (fetchAllDoctorsFromAPI w) = []
  /\ snd (fst (getDoctors w st))
     = match local_doctors w with
       | LocalFails =>
           applyRemovals
             (match prodoctorov w with
              | [] => mockDoctors w
              | _ :: _ => mergeDoctors (mockDoctors w) (prodoctorov w)
              end)
       | snapshot =>
           let localDoctors :=
             match snapshot with LocalArray l | LocalData l => l | _ => [] end in
           applyRemovals
             (if Z.of_nat (length localDoctors) <? 10 then
                match prodoctorov w with
                | [] => localDoctors
                | _ :: _ => mergeDoctors localDoctors (prodoctorov w)
                end
              else localDoctors)
       end.
Proof.
  intros Hw Hc.
  assert (forall key ttlMs store, readFromStorage w key ttlMs store = None) as Hread.
  { intros. unfold readFromStorage. by rewrite Hw. }
  assert (forall page limit,
            requestPage w page limit = Rejected (utf8 "window is not defined")) as Hreq.
  { intros. unfold requestPage. by rewrite Hw. }
  assert (forall data store, writeToStorage w DOCTORS_CACHE_KEY data store = store)
    as Hwrite.
  { intros. unfold writeToStorage. by rewrite Hw. }
  assert (getDoctors w st
          = match fallbackLocal w st with
            | (st', Resolved result refreshStarted) => (st', result, refreshStarted)
            | (st', Pending at_) =>
                let '(st'', result) := getDoctors_resume w at_ st' in
                (st'', result, false)
            end) as ->.
  { unfold getDoctors, getDoctors_begin. by rewrite Hc, Hread, Hw. }
  unfold fallbackLocal, finish, getDoctors_resume, setCache.
  split_and!; [| | exact Hread | exact Hreq | |].
  - destruct (local_doctors w) as [|l|l|];
      try destruct (Z.of_nat (length _) <? 10);
      cbn [fst snd storage]; by rewrite ?Hwrite.
  - destruct (local_doctors w) as [|l|l|];
      try destruct (Z.of_nat (length _) <? 10); reflexivity.
  - unfold fetchAllDoctorsFromAPI. rewrite Hreq. by destruct (isEmptyStr _).
  - destruct (local_doctors w) as [|l|l|]; cbn zeta;
      try destruct (Z.of_nat (length _) <? 10);
      cbn [fst snd doctorsCache]; by destruct (prodoctorov w).
Qed.

Lemma getDoctors_without_window_witness :
  storage (fst (fst (getDoctors worldServerSide coldState))) = storage coldState
  /\ snd (fst (getDoctors worldServerSide coldState)) = [ivanov; petrova].
Proof.
  destruct (getDoctors_without_window worldServerSide coldState eq_refl eq_refl)
    as (Hs & _ & _ & _ & _ & Hr).
  split; [exact Hs | exact Hr].
Defined.
(* ===================================================================== *)
(** ** mergeDoctors: what becomes of a primary record *)
(* ===================================================================== *)

Lemma join_head_prefix sep (p : jsstring) rest : p `prefix_of` join sep (p :: rest).
Proof.
  destruct rest as [|q rest]; [done |].
  change (join sep (p :: q :: rest)) with (p ++ sep ++ join sep (q :: rest)).
  by apply prefix_app_r.
Qed.

Lemma join_parts_prefix (text : jsstring) rest :
  text `prefix_of`
    join [10%N] (List.filter nonEmpty ((if nonEmpty text then [text] else []) ++ rest)).
Proof.
  destruct text as [|c text]; [apply prefix_nil |].
  cbn [nonEmpty isEmptyStr negb app List.filter]. apply join_head_prefix.
Qed.

Lemma mergeOne_info_prefix base add :
  orEmpty (info base) `prefix_of` orEmpty (info (mergeOne base add)).
Proof. rewrite mergeOne_info. cbv zeta. cbn [orEmpty]. apply join_parts_prefix. Qed.

Lemma fold_mergeOne_info_prefix adds base :
  orEmpty (info base) `prefix_of` orEmpty (info (fold_left mergeOne adds base)).
Proof.
  revert base. induction adds as [|a adds IH]; intros base; [done |].
  cbn [fold_left]. etrans; [apply mergeOne_info_prefix | apply IH].
Qed.

Lemma fold_keeps_head {A} (f : list A -> A -> list A) (x : A) :
  (forall s y, exists t, f (x :: s) y = x :: t) ->
  forall l s, exists t, fold_left f l (x :: s) = x :: t.
Proof.
  intros Hf. induction l as [|y l IH]; intros s; [by exists s |].
  cbn [fold_left]. destruct (Hf s y) as [t ->]. apply IH.
Qed.

Lemma typeNames_head d : exists t, typeNames d = normalize (type d) :: t.
Proof.
  unfold typeNames, mkSet. cbn [fold_left].
  change (set_add (normalize (type d)) []) with [normalize (type d)].
  apply fold_keeps_head. intros s y. unfold set_add.
  case_bool_decide; [by exists s | by exists (s ++ [y])].
Qed.

(** A type that is not blank gives way to its normalized form. *)
Lemma mergeOne_type_normalized base add :
  isEmpty (type base) = false ->
  type (mergeOne base add) = FStr (normalize (type base)).
Proof.
  intros Hb.
  assert (nonEmpty (normalize (type base)) = true) as Hne.
  { destruct (type base) as [| |s]; [done | done |]. cbn [isEmpty] in Hb.
    unfold nonEmpty. by rewrite normalize_blank, Hb. }
  unfold mergeOne. cbn [type].
  destruct (typeNames_head base) as [t1 ->].
  destruct (fold_keeps_head
              (fun s n => if nonEmpty n && negb (bool_decide (n ∈ s)) then s ++ [n] else s)
              (normalize (type base))
              ltac:(intros s y; cbv beta;
                    match goal with
                    | |- context [if ?c then _ else _] => destruct c
                    end; [by exists (s ++ [y]) | by exists s])
              (typeNames add) t1) as [t2 ->].
  cbn [List.filter]. rewrite Hne. cbn [indexed List.map type_name fst snd].
  rewrite Hne. by destruct (normalize (type base)).
Qed.

(** C2, as amended.  For all lists [primary] and [extra], the list that
    mergeDoctors returns holds no two records with one merge key, its
    keys are those of [primary] and of [extra] together, and the record
    returned for a key of [primary] is the (last) primary record with
    that key into which the extra records with that key were merged one
    after the other.  It keeps the identity of the primary record, and is
    that record when no extra record has the key; its photo, its category
    and its scientific degree are each those of the first record, among
    the primary record and these extra records in their order, that has a
    non-empty photo, a category that mentions the word for category, a
    degree that is neither blank nor the placeholder for no degree (and
    the primary's own when none has); its info starts with the primary's.
    A merge does more than fill in: a type that is not blank is replaced
    by its normalized form.  In the earlier copy of the service, with the
    key it uses, the primary record is returned as it is. *)
Theorem mergeDoctors_dedupes_by_key (primary extra : list ArchimedDoctor) :
  let res := mergeDoctors primary extra in
  let res0 := ArchimedCopy.mergeDoctors primary extra in
  (NoDup (List.map makeNameKey res)
   /\ (forall k, k ∈ List.map makeNameKey res
         <-> k ∈ List.map makeNameKey primary \/ k ∈ List.map makeNameKey extra)
   /\ (forall d, d ∈ res -> makeNameKey d ∈ List.map makeNameKey primary ->
         exists b, b ∈ primary
           /\ last (matching makeNameKey (makeNameKey d) primary) = Some b
           /\ let adds := matching makeNameKey (makeNameKey d) extra in
              d = fold_left mergeOne adds b
              /\ sameIdentity d b
              /\ (adds = [] -> d = b)
              /\ photo d = firstWith (fun x => truthy (photo x)) photo b adds
              /\ category d
                 = firstWith (fun x => looksLikeCategory (category x)) category b adds
              /\ scientific_degree d
                 = firstWith (fun x => realDegree (scientific_degree x))
                     scientific_degree b adds
              /\ orEmpty (info b) `prefix_of` orEmpty (info d)))
  /\ (forall base add,
        isEmpty (type base) = false ->
        type (mergeOne base add) = FStr (normalize (type base)))
  /\
  (NoDup (List.map ArchimedCopy.makeKey res0)
   /\ (forall k, k ∈ List.map ArchimedCopy.makeKey res0
         <-> k ∈ List.map ArchimedCopy.makeKey primary
             \/ k ∈ List.map ArchimedCopy.makeKey extra)
   /\ (forall d, d ∈ res0 ->
         ArchimedCopy.makeKey d ∈ List.map ArchimedCopy.makeKey primary ->
         d ∈ primary
         /\ last (matching ArchimedCopy.makeKey (ArchimedCopy.makeKey d) primary) = Some d)).
Proof.
  intros res res0. split_and!.
  - subst res. unfold mergeDoctors.
    rewrite (keyedBy_values_keys _ _ (mergeMap_keyed primary extra)).
    apply mergeMap_NoDup.
  - subst res. unfold mergeDoctors.
    rewrite (keyedBy_values_keys _ _ (mergeMap_keyed primary extra)).
    apply mergeMap_keys.
  - subst res. unfold mergeDoctors. intros d Hd Hp.
    pose proof (values_get _ _ _ (mergeMap_keyed primary extra)
                  (mergeMap_NoDup primary extra) Hd) as Hg.
    rewrite mergeMap_get in Hg.
    destruct (last (matching makeNameKey (makeNameKey d) primary)) as [b|] eqn:El.
    + exists b. injection Hg as Hg.
      assert (b ∈ matching makeNameKey (makeNameKey d) primary) as Hb.
      { apply last_Some in El as [l' ->]. apply elem_of_app. right.
        apply list_elem_of_singleton. done. }
      apply matching_elem in Hb as [Hb _].
      split; [done |]. split; [done |]. cbv zeta.
      set (adds := matching makeNameKey (makeNameKey d) extra) in *.
      split_and!.
      * done.
      * rewrite <- Hg at 1. apply fold_mergeOne_identity.
      * intros Ha. by rewrite <- Hg, Ha.
      * rewrite <- Hg at 1. apply fold_mergeOne_photo.
      * rewrite <- Hg at 1. apply fold_mergeOne_category.
      * rewrite <- Hg at 1. apply fold_mergeOne_degree.
      * rewrite <- Hg. apply fold_mergeOne_info_prefix.
    + apply last_None in El. apply matching_nil in El. done.
  - apply mergeOne_type_normalized.
  - subst res0. rewrite copy_mergeDoctors_stepWith.
    set (m := fold_left _ extra _).
    assert (keyedBy ArchimedCopy.makeKey m) as Hk.
    { apply loop_keyed; [done |]. apply collect_keyed. constructor. }
    rewrite (keyedBy_values_keys _ _ Hk).
    apply loop_NoDup, collect_NoDup. constructor.
  - subst res0. rewrite copy_mergeDoctors_stepWith.
    set (m := fold_left _ extra _).
    assert (keyedBy ArchimedCopy.makeKey m) as Hk.
    { apply loop_keyed; [done |]. apply collect_keyed. constructor. }
    rewrite (keyedBy_values_keys _ _ Hk).
    intros k. subst m. rewrite loop_keys, collect_keys.
    split; [intros [[H|?]|?]; auto; by apply elem_of_nil in H | tauto].
  - subst res0. rewrite copy_mergeDoctors_stepWith.
    set (m := fold_left _ extra _).
    assert (keyedBy ArchimedCopy.makeKey m) as Hk.
    { apply loop_keyed; [done |]. apply collect_keyed. constructor. }
    assert (NoDup (map_keys m)) as Hn.
    { apply loop_NoDup, collect_NoDup. constructor. }
    intros d Hd Hp.
    pose proof (values_get _ _ _ Hk Hn Hd) as Hg.
    subst m. rewrite loop_get, collect_get in Hg. simpl in Hg.
    destruct (last (matching ArchimedCopy.makeKey (ArchimedCopy.makeKey d) primary))
      as [b|] eqn:El.
    + rewrite fold_keep in Hg. injection Hg as ->. split; [| done].
      apply last_Some in El as [l' El].
      assert (d ∈ matching ArchimedCopy.makeKey (ArchimedCopy.makeKey d) primary) as Hb.
      { rewrite El. apply elem_of_app. right. by apply list_elem_of_singleton. }
      by apply matching_elem in Hb as [Hb _].
    + apply last_None in El. apply matching_nil in El. done.
Qed.

(** C2 as the spec words it fails: an extra record does more than fill
    in fields.  The primary record has the type 'Терапевт'; merged with a
    record of the same name, it has the type 'терапевт' and a list of
    types that it did not have. *)
Lemma mergeDoctors_overwrites_type_counterexample :
  let merged := mergeOne ivanov ivanovSurgeon in
  mergeDoctors [ivanov] [ivanovSurgeon] = [merged]
  /\ type ivanov = FStr (utf8 "Терапевт")
  /\ type merged = FStr (utf8 "терапевт")
  /\ types ivanov = None
  /\ types merged
     = Some [ {| type_id := 0; type_name := utf8 "терапевт" |};
              {| type_id := 1; type_name := utf8 "хирург" |} ]
  /\ ~ specOnlyFillsIn ivanov merged.
Proof.
  split_and!; try by vm_compute.
  intros (_ & _ & _ & _ & _ & [Ht|Ht] & _); by vm_compute in Ht.
Qed.
